(** * uxkit-js: the Objective-C header to TypeScript binding generator

    A shallow embedding of [scripts/generate-ts-api.ts] (the text
    extractor, the two type converters, the class emitter and the textual
    post-processing pass) and of the emitter split into [buildFile],
    [buildClass] and [buildProperty], together with the properties checked
    against them.

    JavaScript strings are modelled as [string], a sequence of 8-bit code
    units; the model is exact on ASCII text, which is what the processed
    headers and the generated files consist of. *)

From Stdlib Require Import List String Ascii Bool Arith Lia NArith.
From Stdlib Require Import Sorting.Permutation.
From Stdlib Require Import Numbers.DecimalString.
Import ListNotations.
Local Open Scope string_scope.
Local Open Scope list_scope.

(* ================================================================== *)
(** * The JavaScript string operations the scripts use *)
(* ================================================================== *)

Module JS.

Definition chars := list ascii.

Definition s2l : string -> chars := list_ascii_of_string.
Definition l2s : chars -> string := string_of_list_ascii.

Definition code (a : ascii) : N := N_of_ascii a.

Definition in_range (lo hi : N) (a : ascii) : bool :=
  ((lo <=? code a) && (code a <=? hi))%N.

(** [\s], and what [trim] strips: TAB, LF, VT, FF, CR, SP and NBSP. *)
Definition isWhiteSpace (a : ascii) : bool :=
  in_range 9 13 a || N.eqb (code a) 32 || N.eqb (code a) 160.

(** What [.] refuses. *)
Definition isLineTerminator (a : ascii) : bool :=
  N.eqb (code a) 10 || N.eqb (code a) 13.

(** [\w] *)
Definition isWordChar (a : ascii) : bool :=
  in_range 48 57 a || in_range 65 90 a || in_range 97 122 a
  || N.eqb (code a) 95.

Definition toUpperChar (a : ascii) : ascii :=
  if in_range 97 122 a then ascii_of_N (code a - 32) else a.

Definition toLowerChar (a : ascii) : ascii :=
  if in_range 65 90 a then ascii_of_N (code a + 32) else a.

Fixpoint trimStartL (l : chars) : chars :=
  match l with
  | a :: l' => if isWhiteSpace a then trimStartL l' else l
  | [] => []
  end.

Definition trimL (l : chars) : chars :=
  rev (trimStartL (rev (trimStartL l))).

Definition trim (s : string) : string := l2s (trimL (s2l s)).

Fixpoint isPrefixL (p l : chars) {struct p} : bool :=
  match p, l with
  | [], _ => true
  | a :: p', b :: l' => Ascii.eqb a b && isPrefixL p' l'
  | _ :: _, [] => false
  end.

Definition startsWith (s p : string) : bool := isPrefixL (s2l p) (s2l s).

Definition endsWith (s p : string) : bool :=
  isPrefixL (rev (s2l p)) (rev (s2l s)).

Fixpoint indexOfL (p l : chars) {struct l} : option nat :=
  if isPrefixL p l then Some 0
  else match l with
       | [] => None
       | _ :: l' => option_map S (indexOfL p l')
       end.

Fixpoint lastIndexOfL (p l : chars) {struct l} : option nat :=
  match l with
  | [] => if isPrefixL p [] then Some 0 else None
  | _ :: l' =>
      match lastIndexOfL p l' with
      | Some i => Some (S i)
      | None => if isPrefixL p l then Some 0 else None
      end
  end.

Definition includes (s p : string) : bool :=
  match indexOfL (s2l p) (s2l s) with Some _ => true | None => false end.

(** [s.indexOf(p, from)]; [None] is JavaScript's [-1]. *)
Definition indexOfFrom (s p : string) (from : nat) : option nat :=
  let l := s2l s in
  let from := Nat.min from (List.length l) in
  option_map (Nat.add from) (indexOfL (s2l p) (skipn from l)).

(** [s.substring(a, b)] for [0 <= a <= b] (the callers' case; an index
    past the end is clamped by [firstn] and [skipn]). *)
Definition substring (s : string) (a b : nat) : string :=
  l2s (firstn (b - a) (skipn a (s2l s))).

(** [s.slice(a)] and [s.substring(a)] for [0 <= a]. *)
Definition sliceFrom (s : string) (a : nat) : string := l2s (skipn a (s2l s)).

(** [s.slice(0, -1)] *)
Definition dropLast (s : string) : string := l2s (removelast (s2l s)).

(** [s.charAt(i)]: the empty string past the end. *)
Definition charAt (s : string) (i : nat) : string :=
  l2s (firstn 1 (skipn i (s2l s))).

Definition toUpperCase (s : string) : string := l2s (map toUpperChar (s2l s)).
Definition toLowerCase (s : string) : string := l2s (map toLowerChar (s2l s)).

(** [sep.repeat(n)] *)
Fixpoint repeat (s : string) (n : nat) : string :=
  match n with 0 => "" | S n' => (s ++ repeat s n')%string end.

(** [xs.join(sep)] *)
Definition join (sep : string) (xs : list string) : string :=
  String.concat sep xs.

(** [s.split(c)] for a one-character separator [c]. *)
Fixpoint splitCharL (c : ascii) (l : chars) : list chars :=
  match l with
  | [] => [[]]
  | a :: l' =>
      if Ascii.eqb a c then [] :: splitCharL c l'
      else match splitCharL c l' with
           | piece :: rest => (a :: piece) :: rest
           | [] => [[a]]
           end
  end.

Definition splitChar (s : string) (c : ascii) : list string :=
  map l2s (splitCharL c (s2l s)).

(** The replacement patterns of [String.prototype.replace] when the
    pattern is a string (no captures): [$$], [$&], [$`] and [$']; every
    other [$] is literal. *)
Fixpoint expandReplacement (repl matched pre post : chars) : chars :=
  match repl with
  | [] => []
  | a :: rest =>
      if Ascii.eqb a "$" then
        match rest with
        | b :: rest' =>
            if Ascii.eqb b "$" then "$"%char :: expandReplacement rest' matched pre post
            else if Ascii.eqb b "&" then matched ++ expandReplacement rest' matched pre post
            else if Ascii.eqb b "`" then pre ++ expandReplacement rest' matched pre post
            else if Ascii.eqb b "'" then post ++ expandReplacement rest' matched pre post
            else a :: expandReplacement rest matched pre post
        | [] => [a]
        end
      else a :: expandReplacement rest matched pre post
  end.

(** [s.replace(pat, repl)] with a string pattern: the first occurrence. *)
Definition replaceStr (s pat repl : string) : string :=
  let l := s2l s in
  let p := s2l pat in
  match indexOfL p l with
  | None => s
  | Some i =>
      let pre := firstn i l in
      let post := skipn (i + List.length p) l in
      l2s (pre ++ expandReplacement (s2l repl) p pre post ++ post)
  end.

(** Decimal rendering of a number inside a template literal. *)
Definition showNat (n : nat) : string := NilEmpty.string_of_uint (Nat.to_uint n).

(** What a [try]/[catch]-less call may do: return or throw. *)
Inductive result (A : Type) : Type :=
| Ok (a : A)
| Throw (message : string).
Arguments Ok {A} a.
Arguments Throw {A} message.

Definition bind {A B} (r : result A) (f : A -> result B) : result B :=
  match r with
  | Ok a => f a
  | Throw e => Throw e
  end.

End JS.

Notation "x <- r ;; k" := (JS.bind r (fun x => k))
  (at level 61, r at next level, right associativity).

(* ================================================================== *)
(** * Regular expressions with JavaScript's backtracking semantics *)
(* ================================================================== *)

Module Regex.
Import JS.

(** The constructs the scripts' patterns use.  No pattern of the scripts
    has a capture group under a quantifier, so captures need no reset. *)
Inductive regex : Type :=
| Eps
| Cls (p : ascii -> bool)
| Seq (r1 r2 : regex)
| Alt (r1 r2 : regex)
| Star (greedy : bool) (r : regex)
| Grp (i : nat) (r : regex)
| Bol
| Eol
| Ahead (r : regex).

(** A position in the subject: what was read (latest first) and what is
    left. *)
Record cursor : Type := { before : chars; after : chars }.

Definition position (c : cursor) : nat := List.length (before c).

Definition captures := list (nat * string).

Fixpoint capture (i : nat) (cs : captures) : option string :=
  match cs with
  | [] => None
  | (j, s) :: cs' => if Nat.eqb i j then Some s else capture i cs'
  end.

(** The text between two positions of one subject. *)
Definition between (c c' : cursor) : string :=
  l2s (firstn (position c' - position c) (after c)).

Definition atBol (multiline : bool) (c : cursor) : bool :=
  match before c with
  | [] => true
  | a :: _ => multiline && isLineTerminator a
  end.

Definition atEol (multiline : bool) (c : cursor) : bool :=
  match after c with
  | [] => true
  | a :: _ => multiline && isLineTerminator a
  end.

Definition cont := cursor -> captures -> option (cursor * captures).

Definition orElse {A} (x : option A) (y : option A) : option A :=
  match x with Some _ => x | None => y end.

(** One more iteration of a starred pattern, or the continuation: a
    greedy star tries the iteration first, a lazy one the continuation.
    An iteration that reads nothing is refused, as in JavaScript, so the
    fuel (one more than what is left to read) is never what stops the
    loop: see [star_needs_no_more_fuel]. *)
Fixpoint starLoop (greedy : bool)
  (step : cursor -> captures -> cont -> option (cursor * captures))
  (k : cont) (fuel : nat) (c : cursor) (cs : captures) {struct fuel}
  : option (cursor * captures) :=
  match fuel with
  | 0 => k c cs
  | S fuel' =>
      let again :=
        step c cs (fun c' cs' =>
          if Nat.ltb (List.length (after c')) (List.length (after c))
          then starLoop greedy step k fuel' c' cs' else None) in
      if greedy then orElse again (k c cs) else orElse (k c cs) again
  end.

(** The matcher, in continuation-passing style: the alternatives are
    tried left to right, and the first way through the whole pattern and
    the continuation wins. *)
Fixpoint run (ml : bool) (r : regex) (c : cursor) (cs : captures) (k : cont)
  {struct r} : option (cursor * captures) :=
  match r with
  | Eps => k c cs
  | Cls p =>
      match after c with
      | a :: rest =>
          if p a then k {| before := a :: before c; after := rest |} cs
          else None
      | [] => None
      end
  | Seq r1 r2 => run ml r1 c cs (fun c' cs' => run ml r2 c' cs' k)
  | Alt r1 r2 => orElse (run ml r1 c cs k) (run ml r2 c cs k)
  | Star greedy r1 =>
      starLoop greedy (fun c' cs' k' => run ml r1 c' cs' k') k
               (S (List.length (after c))) c cs
  | Grp i r1 =>
      run ml r1 c cs (fun c' cs' => k c' ((i, between c c') :: cs'))
  | Bol => if atBol ml c then k c cs else None
  | Eol => if atEol ml c then k c cs else None
  | Ahead r1 =>
      match run ml r1 c cs (fun c' cs' => Some (c', cs')) with
      | Some (_, cs') => k c cs'
      | None => None
      end
  end.

(** One match: where it starts, where it ends, and its groups. *)
Record found : Type := {
  start : cursor;
  stop : cursor;
  groups : captures
}.

Definition index (m : found) : nat := position (start m).
Definition lastIndex (m : found) : nat := position (stop m).
Definition matched (m : found) : string := between (start m) (stop m).
(** [m[i]], the empty string when the group did not take part. *)
Definition group (i : nat) (m : found) : string :=
  match capture i (groups m) with Some s => s | None => "" end.

(** The leftmost match at or after a position. *)
Fixpoint searchFrom (ml : bool) (r : regex) (bef aft : chars) {struct aft}
  : option found :=
  let c := {| before := bef; after := aft |} in
  match run ml r c [] (fun c' cs' => Some (c', cs')) with
  | Some (c', cs') => Some {| start := c; stop := c'; groups := cs' |}
  | None =>
      match aft with
      | [] => None
      | a :: aft' => searchFrom ml r (a :: bef) aft'
      end
  end.

Definition cursorAt (s : string) (i : nat) : cursor :=
  let l := s2l s in
  {| before := rev (firstn i l); after := skipn i l |}.

(** [re.exec(s)] with [re.lastIndex = i]; also [s.match(re)] without the
    [g] flag, at [i = 0]. *)
Definition execFrom (ml : bool) (r : regex) (s : string) (i : nat) : option found :=
  if Nat.ltb (List.length (s2l s)) i then None
  else let c := cursorAt s i in searchFrom ml r (before c) (after c).

Definition exec (ml : bool) (r : regex) (s : string) : option found :=
  execFrom ml r s 0.

(** All the matches of a [g] pattern, left to right: [s.matchAll(re)],
    [s.match(re)] with [g], and the [while (re.exec(s))] loop over an
    unchanged subject.  After an empty match the search resumes one
    character further (the patterns of the [exec] loops match no empty
    string).  The fuel is never what stops the loop: see
    [matches_need_no_more_fuel]. *)
Fixpoint allFrom (ml : bool) (r : regex) (fuel : nat) (c : cursor) : list found :=
  match fuel with
  | 0 => []
  | S fuel' =>
      match searchFrom ml r (before c) (after c) with
      | None => []
      | Some m =>
          if Nat.ltb (position (start m)) (position (stop m))
          then m :: allFrom ml r fuel' (stop m)
          else match after (stop m) with
               | [] => [m]
               | a :: rest =>
                   m :: allFrom ml r fuel'
                          {| before := a :: before (stop m); after := rest |}
               end
      end
  end.

Definition matchAll (ml : bool) (r : regex) (s : string) : list found :=
  allFrom ml r (S (List.length (s2l s))) (cursorAt s 0).

(** [s.replace(re, repl)] with the [g] flag and a replacement without
    [$]: what lies between the matches, with [repl] in their place. *)
Fixpoint stitch (repl : chars) (c : cursor) (ms : list found) : chars :=
  match ms with
  | [] => after c
  | m :: ms' =>
      firstn (index m - position c) (after c) ++ repl ++ stitch repl (stop m) ms'
  end.

Definition replaceAll (ml : bool) (r : regex) (s repl : string) : string :=
  l2s (stitch (s2l repl) (cursorAt s 0) (matchAll ml r s)).

(** [s.replace(re, repl)] without the [g] flag and without [$]. *)
Definition replaceFirst (ml : bool) (r : regex) (s repl : string) : string :=
  match exec ml r s with
  | None => s
  | Some m => l2s (stitch (s2l repl) (cursorAt s 0) [m])
  end.

(** [s.split(re)] for a pattern that never matches the empty string. *)
Fixpoint pieces (c : cursor) (ms : list found) : list string :=
  match ms with
  | [] => [l2s (after c)]
  | m :: ms' =>
      l2s (firstn (index m - position c) (after c)) :: pieces (stop m) ms'
  end.

Definition split (ml : bool) (r : regex) (s : string) : list string :=
  pieces (cursorAt s 0) (matchAll ml r s).

(** Pattern-building helpers. *)
Definition chr (a : ascii) : regex := Cls (Ascii.eqb a).
Definition noneOf (s : string) : regex :=
  Cls (fun a => negb (existsb (Ascii.eqb a) (s2l s))).
Definition anyOf (ps : list (ascii -> bool)) : regex :=
  Cls (fun a => existsb (fun p => p a) ps).
Definition word : regex := Cls isWordChar.
Definition space : regex := Cls isWhiteSpace.
Definition dot : regex := Cls (fun a => negb (isLineTerminator a)).
Definition star (r : regex) : regex := Star true r.
Definition plus (r : regex) : regex := Seq r (Star true r).
Definition lazyStar (r : regex) : regex := Star false r.
Definition lazyPlus (r : regex) : regex := Seq r (Star false r).
Definition opt (r : regex) : regex := Alt r Eps.
Definition seqs (rs : list regex) : regex := fold_right Seq Eps rs.
Definition lit (s : string) : regex := seqs (map chr (s2l s)).

End Regex.

(* ================================================================== *)
(** * The intermediate model ([ObjCParameter], [ObjCMethod], ...) *)
(* ================================================================== *)

Import JS.

Record ObjCParameter : Type := {
  param_name : string;
  param_type : string;
  param_isNullable : bool;
  param_documentation : string
}.

(** [Omit<ObjCMethod, "documentation" | "returnDocumentation">] *)
Record ObjCMethodSignature : Type := {
  sig_isClassMethod : bool;
  sig_returnType : string;
  sig_name : string;
  sig_parameters : list ObjCParameter;
  sig_availability : string
}.

Record ObjCMethod : Type := {
  isClassMethod : bool;
  returnType : string;
  name : string;
  parameters : list ObjCParameter;
  documentation : string;
  returnDocumentation : string;
  availability : string
}.

Record ObjCProperty : Type := {
  prop_name : string;
  prop_type : string;
  isReadOnly : bool;
  isNullable : bool;
  prop_documentation : string;
  attributes : list string
}.

Record ObjCClass : Type := {
  class_name : string;
  superclass : string;
  protocols : list string;
  properties : list ObjCProperty;
  methods : list ObjCMethod;
  class_documentation : string;
  class_availability : string
}.

(** [{ ...methodBase, documentation, returnDocumentation }] *)
Definition withDocumentation (s : ObjCMethodSignature) (doc ret : string) : ObjCMethod :=
  {| isClassMethod := sig_isClassMethod s;
     returnType := sig_returnType s;
     name := sig_name s;
     parameters := sig_parameters s;
     documentation := doc;
     returnDocumentation := ret;
     availability := sig_availability s |}.

(* ================================================================== *)
(** * [parseMethodSignature] *)
(* ================================================================== *)

Module Patterns.
Import Regex.

Definition isChar (a : ascii) : ascii -> bool := Ascii.eqb a.

(** [/[+-]\s*\(([\w\s*]+)\)/] *)
Definition returnTypeRe : regex :=
  seqs [anyOf [isChar "+"; isChar "-"]; star space; chr "(";
        Grp 1 (plus (anyOf [isWordChar; isWhiteSpace; isChar "*"])); chr ")"].

(** [/[+-]\s*\([^)]+\)\s*(\w+(?:With\w+)?)/] *)
Definition methodNameRe : regex :=
  seqs [anyOf [isChar "+"; isChar "-"]; star space; chr "("; plus (noneOf ")"); chr ")";
        star space; Grp 1 (Seq (plus word) (opt (Seq (lit "With") (plus word))))].

(** [/(\w+):\s*\(([^)]+)\)\s*(\w+)/g] *)
Definition paramRe : regex :=
  seqs [Grp 1 (plus word); chr ":"; star space; chr "(";
        Grp 2 (plus (noneOf ")")); chr ")"; star space; Grp 3 (plus word)].

(** [/API_AVAILABLE\(([^)]+)\)/] *)
Definition availabilityRe : regex :=
  seqs [lit "API_AVAILABLE"; chr "("; Grp 1 (plus (noneOf ")")); chr ")"].

(** [/(\w+):/g] *)
Definition componentRe : regex := seqs [Grp 1 (plus word); chr ":"].

End Patterns.

(** The body of the [while ((paramMatch = paramRegex.exec(signature)))]
    loop. *)
Definition parameterOfMatch (m : Regex.found) : ObjCParameter :=
  let paramType := trim (Regex.group 2 m) in
  let paramName := Regex.group 3 m in
  let isNullable := includes paramType "nullable" in
  let cleanType := trim (replaceStr (replaceStr paramType "nullable" "") "*" "") in
  {| param_name := paramName;
     param_type := cleanType;
     param_isNullable := isNullable;
     param_documentation := "" |}.

(** [availability] of a declaration, shared by methods and classes. *)
Definition parseAvailability (text : string) : string :=
  match Regex.exec false Patterns.availabilityRe text with
  | None => ""
  | Some m =>
      let availability := Regex.group 1 m in
      if includes availability "(" && negb (endsWith availability ")")
      then (availability ++ ")")%string
      else availability
  end.

(** [fullMethodName]: the base name, one colon when the text has a
    [label:] token, then the tokens after the first. *)
Definition fullMethodName (baseMethodName : string) (componentNames : list string) : string :=
  match componentNames with
  | [] => baseMethodName
  | _ :: others => (baseMethodName ++ ":" ++ String.concat "" others)%string
  end.

Definition parseMethodSignature (signature : string) : result ObjCMethodSignature :=
  let signature := trim signature in
  let signature := if endsWith signature ";" then dropLast signature else signature in
  let isClassMethod := startsWith signature "+" in
  match Regex.exec false Patterns.returnTypeRe signature with
  | None => Throw ("Failed to parse return type from signature: " ++ signature)
  | Some returnTypeMatch =>
      let returnType := trim (Regex.group 1 returnTypeMatch) in
      match Regex.exec false Patterns.methodNameRe signature with
      | None => Throw ("Failed to parse method name from signature: " ++ signature)
      | Some methodNameMatch =>
          let baseMethodName := trim (Regex.group 1 methodNameMatch) in
          let parameters :=
            map parameterOfMatch (Regex.matchAll false Patterns.paramRe signature) in
          let availability := parseAvailability signature in
          let componentNames :=
            map Regex.matched (Regex.matchAll false Patterns.componentRe signature) in
          Ok {| sig_isClassMethod := isClassMethod;
                sig_returnType := returnType;
                sig_name := fullMethodName baseMethodName componentNames;
                sig_parameters := parameters;
                sig_availability := availability |}
      end
  end.

(** The number of colons of a selector. *)
Definition colonCount (selector : string) : nat :=
  List.length (filter (Ascii.eqb ":") (s2l selector)).

(* ================================================================== *)
(** * Plain JavaScript objects used as maps ([Record<string, V>]) *)
(* ================================================================== *)

Module Obj.

(** The own properties, in creation order. *)
Definition t (V : Type) : Type := list (string * V).

Fixpoint getOwn {V} (k : string) (o : t V) : option V :=
  match o with
  | [] => None
  | (k', v) :: o' => if String.eqb k k' then Some v else getOwn k o'
  end.

Fixpoint set {V} (k : string) (v : V) (o : t V) : t V :=
  match o with
  | [] => [(k, v)]
  | (k', v') :: o' =>
      if String.eqb k k' then (k, v) :: o' else (k', v') :: set k v o'
  end.

(** What an object literal inherits from [Object.prototype]. *)
Definition inherited : list string :=
  ["constructor"; "__defineGetter__"; "__defineSetter__"; "hasOwnProperty";
   "__lookupGetter__"; "__lookupSetter__"; "isPrototypeOf";
   "propertyIsEnumerable"; "toString"; "valueOf"; "__proto__";
   "toLocaleString"].

Definition isInherited (k : string) : bool := existsb (String.eqb k) inherited.

(** [o[k]]: an own property, a member of the prototype (a function or
    the prototype itself: truthy, and not a string), or [undefined]. *)
Inductive lookup (V : Type) : Type :=
| Own (v : V)
| Proto
| Missing.
Arguments Own {V} v.
Arguments Proto {V}.
Arguments Missing {V}.

Definition get {V} (k : string) (o : t V) : lookup V :=
  match getOwn k o with
  | Some v => Own v
  | None => if isInherited k then Proto else Missing
  end.

(** [o[k] = v] for a primitive [v]: [__proto__] is the prototype's
    setter, which ignores a primitive. *)
Definition assign {V} (k : string) (v : V) (o : t V) : t V :=
  if String.eqb k "__proto__" then o else set k v o.

(** A key that is an array index (the canonical decimal form of an
    integer below 2^32 - 1) is listed before the others, in numeric
    order. *)
Definition isDigit (a : ascii) : bool := JS.in_range 48 57 a.

Definition arrayIndex (k : string) : option N :=
  let l := JS.s2l k in
  match l with
  | [] => None
  | d :: rest =>
      if forallb isDigit l && (negb (Ascii.eqb d "0") || match rest with [] => true | _ => false end)
      then let n := fold_left (fun acc a => (10 * acc + (JS.code a - 48))%N) l 0%N in
           if (n <? 4294967295)%N then Some n else None
      else None
  end.

Fixpoint insertIndexed {V} (n : N) (e : string * V) (l : list (N * (string * V)))
  : list (N * (string * V)) :=
  match l with
  | [] => [(n, e)]
  | (m, e') :: l' =>
      if (n <? m)%N then (n, e) :: l else (m, e') :: insertIndexed n e l'
  end.

Definition indexed {V} (o : t V) : list (N * (string * V)) :=
  fold_left (fun acc e =>
               match arrayIndex (fst e) with
               | Some n => insertIndexed n e acc
               | None => acc
               end) o [].

(** [Object.entries(o)] *)
Definition entries {V} (o : t V) : list (string * V) :=
  map snd (indexed o)
  ++ filter (fun e => match arrayIndex (fst e) with Some _ => false | None => true end) o.

(** [Object.keys(o)] *)
Definition keys {V} (o : t V) : list string := map fst (entries o).

End Obj.

(* ================================================================== *)
(** * [parseDocumentation] *)
(* ================================================================== *)

Module DocPatterns.
Import Regex.

Definition LF : ascii := ascii_of_nat 10.
Definition CR : ascii := ascii_of_nat 13.

(** [/\/\*!|\*\/|^\s*\*\s*/gm] *)
Definition markerRe : regex :=
  Alt (lit "/*!") (Alt (lit "*/") (seqs [Bol; star space; chr "*"; star space])).

(** [/\r?\n/] *)
Definition newlineRe : regex := Seq (opt (chr CR)) (chr LF).

(** [/^(.*?)(?=@param|$)/] *)
Definition leadRe : regex :=
  seqs [Bol; Grp 1 (lazyStar dot); Ahead (Alt (lit "@param") Eol)].

(** [/@param\s+(\w+)\s+([^@]+)/g] *)
Definition inlineParamRe : regex :=
  seqs [lit "@param"; plus space; Grp 1 (plus word); plus space;
        Grp 2 (plus (noneOf "@"))].

(** [/@return\s+([^@]+)(?=@|$)/] *)
Definition inlineReturnRe : regex :=
  seqs [lit "@return"; plus space; Grp 1 (plus (noneOf "@"));
        Ahead (Alt (chr "@") Eol)].

(** [/@param\s+(\w+)\s+G/] where the group [G] is any run of [.] *)
Definition paramLineRe : regex :=
  seqs [lit "@param"; plus space; Grp 1 (plus word); plus space;
        Grp 2 (star dot)].

End DocPatterns.

Record Documentation : Type := {
  mainDoc : string;
  paramDocs : Obj.t string;
  returnDoc : string
}.

Definition nonEmpty (s : string) : bool := negb (String.eqb s "").

(** The variables of the multi-line loop. *)
Record DocState : Type := {
  st_paramDocs : Obj.t string;
  st_returnDoc : string;
  st_mainDocLines : list string;
  currentParam : string;
  currentParamDoc : string
}.

(** "Save previous param if exists" *)
Definition saveParam (st : DocState) : Obj.t string :=
  if nonEmpty (currentParam st)
  then Obj.assign (currentParam st) (trim (currentParamDoc st)) (st_paramDocs st)
  else st_paramDocs st.

Definition docLine (st : DocState) (line : string) : DocState :=
  if startsWith line "@param" then
    let docs := saveParam st in
    let doc := if nonEmpty (currentParam st) then "" else currentParamDoc st in
    match Regex.exec false DocPatterns.paramLineRe line with
    | Some m =>
        {| st_paramDocs := docs; st_returnDoc := st_returnDoc st;
           st_mainDocLines := st_mainDocLines st;
           currentParam := Regex.group 1 m;
           currentParamDoc := Regex.group 2 m |}
    | None =>
        {| st_paramDocs := docs; st_returnDoc := st_returnDoc st;
           st_mainDocLines := st_mainDocLines st;
           currentParam := currentParam st;
           currentParamDoc := doc |}
    end
  else if startsWith line "@return" then
    {| st_paramDocs := saveParam st;
       st_returnDoc := trim (replaceStr line "@return" "");
       st_mainDocLines := st_mainDocLines st;
       currentParam := if nonEmpty (currentParam st) then "" else currentParam st;
       currentParamDoc := if nonEmpty (currentParam st) then "" else currentParamDoc st |}
  else if nonEmpty (currentParam st) then
    {| st_paramDocs := st_paramDocs st; st_returnDoc := st_returnDoc st;
       st_mainDocLines := st_mainDocLines st;
       currentParam := currentParam st;
       currentParamDoc := (currentParamDoc st ++ " " ++ line)%string |}
  else if negb (startsWith line "@") then
    {| st_paramDocs := st_paramDocs st; st_returnDoc := st_returnDoc st;
       st_mainDocLines := st_mainDocLines st ++ [line];
       currentParam := currentParam st;
       currentParamDoc := currentParamDoc st |}
  else st.

(** The lines of the cleaned comment, trimmed, the empty ones dropped. *)
Definition docLines (docComment : string) : list string :=
  let cleanedComment := trim (Regex.replaceAll true DocPatterns.markerRe docComment "") in
  filter nonEmpty (map trim (Regex.split false DocPatterns.newlineRe cleanedComment)).

Definition initialDocState : DocState :=
  {| st_paramDocs := []; st_returnDoc := ""; st_mainDocLines := [];
     currentParam := ""; currentParamDoc := "" |}.

(** "Handle single-line documentation with @param tags" *)
Definition inlineDocumentation (singleLine : string) : Documentation :=
  let mainDocLines :=
    match Regex.exec false DocPatterns.leadRe singleLine with
    | Some m =>
        if nonEmpty (trim (Regex.group 1 m)) then [trim (Regex.group 1 m)] else []
    | None => []
    end in
  let paramDocs :=
    fold_left (fun docs m => Obj.assign (Regex.group 1 m) (trim (Regex.group 2 m)) docs)
              (Regex.matchAll false DocPatterns.inlineParamRe singleLine) [] in
  let returnDoc :=
    match Regex.exec false DocPatterns.inlineReturnRe singleLine with
    | Some m => trim (Regex.group 1 m)
    | None => ""
    end in
  {| mainDoc := trim (join " " mainDocLines);
     paramDocs := paramDocs;
     returnDoc := returnDoc |}.

(** "Process multi-line documentation" *)
Definition blockDocumentation (lines : list string) : Documentation :=
  let st := fold_left docLine lines initialDocState in
  {| mainDoc := trim (join " " (st_mainDocLines st));
     paramDocs := saveParam st;
     returnDoc := st_returnDoc st |}.

Definition parseDocumentation (docComment : string) : Documentation :=
  let lines := docLines docComment in
  match lines with
  | [singleLine] =>
      if includes singleLine "@param" then inlineDocumentation singleLine
      else blockDocumentation lines
  | _ => blockDocumentation lines
  end.

(* ================================================================== *)
(** * The two type converters *)
(* ================================================================== *)

(** What a converter returns: a type expression, or, when the looked-up
    name is a member every object literal inherits (so the lookup yields
    a function or the prototype, not a string), that member, with or
    without the null suffix. *)
Inductive TsType : Type :=
| TsText (text : string)
| TsProto (key : string) (nullSuffix : bool).

(** The table of [convertTypeToTypeScript]. *)
Definition interfaceTypeMap : Obj.t string :=
  [("NSString", "string"); ("NSNumber", "number"); ("NSInteger", "number");
   ("NSUInteger", "number"); ("BOOL", "boolean"); ("CGFloat", "number");
   ("double", "number"); ("float", "number"); ("int", "number");
   ("long", "number"); ("char", "string"); ("id", "any");
   ("instancetype", "any"); ("void", "void"); ("NSArray", "Array<any>");
   ("NSDictionary", "Record<string, any>"); ("NSSet", "Set<any>");
   ("NSImage", "any"); ("SEL", "string")].

(** The converter of the interface emission. *)
Definition convertTypeToTypeScript (objcType : string) (isNullable : bool) : TsType :=
  match Obj.get objcType interfaceTypeMap with
  | Obj.Own mapped =>
      TsText (if isNullable then (mapped ++ " | null")%string else mapped)
  | Obj.Proto => TsProto objcType isNullable
  | Obj.Missing =>
      TsText (if isNullable then (objcType ++ " | null")%string else objcType)
  end.

(** The table of [convertObjCTypeToTypeScriptString]. *)
Definition classTypeMap : Obj.t string :=
  [("void", "void"); ("BOOL", "boolean"); ("NSInteger", "number");
   ("NSUInteger", "number"); ("CGFloat", "number"); ("double", "number");
   ("float", "number"); ("int", "number"); ("NSString*", "string");
   ("id", "id")].

(** The key the class-emission converter looks up: the nullability
    markers removed, trimmed, one trailing [*] dropped. *)
Definition cleanTypeName (objcType : string) : string :=
  let cleanType := trim (replaceStr (replaceStr objcType "nullable" "") "_Nullable" "") in
  if endsWith cleanType "*"
  then substring cleanType 0 (String.length cleanType - 1)
  else cleanType.

Definition hasNullabilityMarker (objcType : string) : bool :=
  includes objcType "nullable" || includes objcType "_Nullable".

(** The converter of the class emission. *)
Definition convertObjCTypeToTypeScriptString (objcType : string) : TsType :=
  if negb (nonEmpty objcType) then TsText "void"
  else
    let isNullable := hasNullabilityMarker objcType in
    match Obj.get (cleanTypeName objcType) classTypeMap with
    | Obj.Own mapped =>
        TsText (if isNullable then (mapped ++ " | null")%string else mapped)
    | Obj.Proto => TsProto (cleanTypeName objcType) isNullable
    | Obj.Missing => TsText (if isNullable then "id | null" else "id")
    end.

(* ================================================================== *)
(** * [parsePropertyDeclaration] *)
(* ================================================================== *)

Module PropertyPatterns.
Import Regex.

(** [(?:\([^)]+\))?] *)
Definition attributeList : regex :=
  opt (seqs [chr "("; plus (noneOf ")"); chr ")"]).

(** [/(@property\s*(?:\([^)]+\))?\s*[^;]+?)(?:\s+API_|\s*$)/] *)
Definition basicPropertyRe : regex :=
  seqs [Grp 1 (seqs [lit "@property"; star space; attributeList; star space;
                     lazyPlus (noneOf ";")]);
        Alt (Seq (plus space) (lit "API_")) (Seq (star space) Eol)].

(** [/@property\s*\(([^)]+)\)/] *)
Definition attributesRe : regex :=
  seqs [lit "@property"; star space; chr "("; Grp 1 (plus (noneOf ")")); chr ")"].

(** [/@property\s*(?:\([^)]+\))?\s*/] *)
Definition headRe : regex :=
  seqs [lit "@property"; star space; attributeList; star space].

(** [/(\w+)$/] *)
Definition lastWordRe : regex := seqs [Grp 1 (plus word); Eol].

End PropertyPatterns.

(** [Omit<ObjCProperty, "documentation">]: the documentation is added by
    the caller. *)
Definition minimalProperty : ObjCProperty :=
  {| prop_name := ""; prop_type := "id"; isReadOnly := false; isNullable := false;
     prop_documentation := ""; attributes := [] |}.

(** The declaration as the [try] block first cleans it; the [catch]
    block logs this cleaned text. *)
Definition cleanDeclaration (propertyDeclaration : string) : string :=
  let d := trim propertyDeclaration in
  if endsWith d ";" then dropLast d else d.

(** The [try] block. *)
Definition parsePropertyBody (propertyDeclaration : string) : result ObjCProperty :=
  let propertyDeclaration := cleanDeclaration propertyDeclaration in
  match Regex.exec false PropertyPatterns.basicPropertyRe propertyDeclaration with
  | None =>
      Throw ("Failed to extract basic property declaration from: " ++ propertyDeclaration)
  | Some basicPropertyMatch =>
      let basicProperty := trim (Regex.group 1 basicPropertyMatch) in
      let attributes :=
        match Regex.exec false PropertyPatterns.attributesRe basicProperty with
        | Some m => map trim (splitChar (Regex.group 1 m) ",")
        | None => []
        end in
      let isReadOnly := existsb (String.eqb "readonly") attributes in
      let typeAndName :=
        trim (Regex.replaceFirst false PropertyPatterns.headRe basicProperty "") in
      match Regex.exec false PropertyPatterns.lastWordRe typeAndName with
      | None => Throw ("Failed to extract property name from: " ++ typeAndName)
      | Some nameMatch =>
          let name := Regex.group 1 nameMatch in
          let typeWithAsterisk :=
            match lastIndexOfL (s2l name) (s2l typeAndName) with
            | Some i => trim (substring typeAndName 0 i)
            | None => ""
            end in
          let isNullable :=
            includes typeWithAsterisk "*" || includes typeWithAsterisk "nullable"
            || includes typeWithAsterisk "_Nullable" in
          let cleanType :=
            trim (replaceStr (replaceStr (replaceStr typeWithAsterisk "nullable" "")
                                         "_Nullable" "") "*" "") in
          Ok {| prop_name := name; prop_type := cleanType; isReadOnly := isReadOnly;
                isNullable := isNullable; prop_documentation := "";
                attributes := attributes |}
      end
  end.

(** A computation that writes to the console: its result and the lines
    it logged with [console.warn]. *)
Definition logged (A : Type) : Type := A * list string.

(** [try { body } catch (error) { handler }]: an exception raised by
    the body is handed to the handler (as its message), and what the
    handler does is what the statement does. *)
Definition tryCatch {A} (body : result A) (handler : string -> logged (result A))
  : logged (result A) :=
  match body with
  | Ok a => (Ok a, [])
  | Throw message => handler message
  end.

Definition parsePropertyDeclaration (propertyDeclaration : string)
  : logged (result ObjCProperty) :=
  tryCatch (parsePropertyBody propertyDeclaration)
    (fun message =>
       (Ok minimalProperty,
        [("Error parsing property declaration: "
            ++ cleanDeclaration propertyDeclaration)%string;
         message])).

(** [{ ...propertyInfo, documentation: propertyDoc }] *)
Definition documented (propertyInfo : ObjCProperty) (propertyDoc : string) : ObjCProperty :=
  {| prop_name := prop_name propertyInfo;
     prop_type := prop_type propertyInfo;
     isReadOnly := isReadOnly propertyInfo;
     isNullable := isNullable propertyInfo;
     prop_documentation := propertyDoc;
     attributes := attributes propertyInfo |}.

(* ================================================================== *)
(** * Constructor bodies, and what running one leaves in [pointer] *)
(* ================================================================== *)

Module Construct.

(** The expressions a generated constructor holds.  A selector is kept
    as the text written between the parentheses, quotes included. *)
Inductive Expr : Type :=
| ClassObject (className : string)
| Constant (x : string)
| MsgSend (target : Expr) (selector : string).

#[warnings="-register-all"]
Inductive Stmt : Type :=
| SuperCall
| AssignPointer (e : Expr)
| DeclareConst (x : string) (e : Expr)
| If (condition : string) (body : list Stmt).

Fixpoint renderExpr (e : Expr) : string :=
  match e with
  | ClassObject className => (className ++ ".Class")%string
  | Constant x => x
  | MsgSend target selector =>
      ("objc.msgSend(" ++ renderExpr target ++ ", " ++ selector ++ ")")%string
  end.

(** The lines of the body; a block is indented by four spaces. *)
Fixpoint render (s : Stmt) : list string :=
  match s with
  | SuperCall => ["super();"]
  | AssignPointer e => [("this.pointer = " ++ renderExpr e ++ ";")%string]
  | DeclareConst x e => [("const " ++ x ++ " = " ++ renderExpr e)%string]
  | If condition body =>
      [("if (" ++ condition ++ ") {")%string]
      ++ map (fun line => ("    " ++ line)%string)
             ((fix lines (l : list Stmt) : list string :=
                 match l with
                 | [] => []
                 | s' :: l' => render s' ++ lines l'
                 end) body)
      ++ ["}"]
  end.

Definition renderBody (body : list Stmt) : list string := flat_map render body.

(** The constants in scope and the value of [this.pointer], if set. *)
Record State : Type := {
  constants : list (string * Expr);
  pointer : option Expr
}.

Definition initial : State := {| constants := []; pointer := None |}.

Fixpoint lookupConstant (x : string) (cs : list (string * Expr)) : option Expr :=
  match cs with
  | [] => None
  | (y, e) :: cs' => if String.eqb x y then Some e else lookupConstant x cs'
  end.

(** An expression with its constants replaced by what they stand for. *)
Fixpoint eval (cs : list (string * Expr)) (e : Expr) : Expr :=
  match e with
  | ClassObject className => ClassObject className
  | Constant x => match lookupConstant x cs with Some v => v | None => Constant x end
  | MsgSend target selector => MsgSend (eval cs target) selector
  end.

(** One statement; [holds] tells which conditions are truthy in the call
    at hand. *)
Fixpoint exec (holds : string -> bool) (s : Stmt) (st : State) {struct s} : State :=
  match s with
  | SuperCall => st
  | AssignPointer e =>
      {| constants := constants st; pointer := Some (eval (constants st) e) |}
  | DeclareConst x e =>
      {| constants := (x, eval (constants st) e) :: constants st;
         pointer := pointer st |}
  | If condition body =>
      if holds condition
      then (fix block (l : list Stmt) (st : State) : State :=
              match l with
              | [] => st
              | s' :: l' => block l' (exec holds s' st)
              end) body st
      else st
  end.

Definition run (holds : string -> bool) (body : list Stmt) : State :=
  fold_left (fun st s => exec holds s st) body initial.

End Construct.

(* ================================================================== *)
(** * The generated code: ts-morph structures *)
(* ================================================================== *)

Definition dquote : string := String (ascii_of_nat 34) "".

(** [`"${s}"`] *)
Definition quoted (s : string) : string := (dquote ++ s ++ dquote)%string.

Inductive Scope : Type := Public | Protected | Private.

(** A type annotation: the result of a converter, a type the script
    writes itself, or the object type [{ a: T, b?: U }] of a
    several-parameter overload signature. *)
Inductive TypeExpr : Type :=
| Converted (t : TsType)
| Written (text : string)
| ObjectOf (fields : list (string * bool * TsType)).

Record ParameterDeclaration : Type := {
  pd_name : string;
  pd_type : TypeExpr;
  hasQuestionToken : bool;
  isRestParameter : bool
}.

Inductive Member : Type :=
| PropertyMember (name : string) (type : option string) (initializer : option string)
                 (isStatic isReadonly : bool) (scope : Scope)
| GetAccessor (name : string) (scope : Scope) (returnType : TsType) (body : list string)
| SetAccessor (name : string) (scope : Scope) (parameters : list ParameterDeclaration)
              (body : list string)
| Constructor (scope : Scope) (parameters : list ParameterDeclaration)
              (overloads : list (list ParameterDeclaration)) (body : list Construct.Stmt)
| Method (name : string) (scope : Scope) (isStatic : bool) (returnType : TypeExpr)
         (parameters : list ParameterDeclaration) (body : option (list string)).

Record ClassDeclaration : Type := {
  cd_name : string;
  isExported : bool;
  extends : option string;
  members : list Member
}.

Record ImportDeclaration : Type := {
  defaultImport : option string;
  namedImports : list string;
  moduleSpecifier : string
}.

Record SourceFile : Type := {
  filePath : string;
  imports : list ImportDeclaration;
  classes : list ClassDeclaration
}.

(** [x ? x : undefined] for a string. *)
Definition truthy (s : string) : option string :=
  if nonEmpty s then Some s else None.

Definition isSetAccessorNamed (n : string) (m : Member) : bool :=
  match m with
  | SetAccessor n' _ _ _ => String.eqb n n'
  | _ => false
  end.


(* ================================================================== *)
(** * The body of an overload implementation, and what it does *)
(* ================================================================== *)

Module Dispatch.

(** One [if (allArgs.length === n) { return objc.msgSend(...); }]. *)
Record Branch : Type := {
  arity : nat;
  target : string;
  selector : string
}.

(** The statements the generator writes into an implementation. *)
Inductive Stmt : Type :=
| Comment (text : string)
| DeclareAllArgs
| UnshiftIfDefined (paramName : string)
| ArityChain (branches : list Branch) (errorMessage : string).

Definition renderBranch (isFirst : bool) (b : Branch) : list string :=
  [((if isFirst then "if (" else "else if (") ++ "allArgs.length === "
      ++ showNat (arity b) ++ ") {")%string;
   ("  return objc.msgSend(" ++ target b ++ ", " ++ quoted (selector b)
      ++ ", ...allArgs);")%string;
   "}"].

Fixpoint renderBranches (isFirst : bool) (bs : list Branch) : list string :=
  match bs with
  | [] => []
  | b :: bs' => renderBranch isFirst b ++ renderBranches false bs'
  end.

(** The lines [writer.writeLine] receives. *)
Definition render (s : Stmt) : list string :=
  match s with
  | Comment text => [("// " ++ text)%string]
  | DeclareAllArgs => ["const allArgs = [...args];"]
  | UnshiftIfDefined p =>
      [("if (" ++ p ++ " !== undefined) allArgs.unshift(" ++ p ++ ");")%string]
  | ArityChain bs message =>
      renderBranches true bs
      ++ ["else {";
          ("  throw new Error(" ++ quoted message ++ ");")%string;
          "}"]
  end.

Definition renderBody (body : list Stmt) : list string := flat_map render body.

(** JavaScript values, as far as the dispatch tells them apart. *)
Inductive Value : Type :=
| Undefined
| Number (n : N)
| Text (s : string)
| Reference (handle : nat).

Definition isUndefined (v : Value) : bool :=
  match v with Undefined => true | _ => false end.

(** What a call of a generated method does. *)
Inductive Outcome : Type :=
| Sent (target selector : string) (args : list Value)
| Raised (message : string)
| ReturnedUndefined
| ReferenceError (variable : string)
| SyntaxError.

Definition Env := list (string * Value).

Fixpoint lookupVar (x : string) (env : Env) : option Value :=
  match env with
  | [] => None
  | (y, v) :: env' => if String.eqb x y then Some v else lookupVar x env'
  end.

(** The [if] / [else if] / [else] chain. *)
Fixpoint runChain (bs : list Branch) (message : string) (allArgs : list Value) : Outcome :=
  match bs with
  | [] => Raised message
  | b :: bs' =>
      if Nat.eqb (List.length allArgs) (arity b)
      then Sent (target b) (selector b) allArgs
      else runChain bs' message allArgs
  end.

(** The statements in order; [allArgs] is [None] until declared. *)
Fixpoint run (body : list Stmt) (env : Env) (args : list Value)
  (allArgs : option (list Value)) : Outcome :=
  match body with
  | [] => ReturnedUndefined
  | Comment _ :: rest => run rest env args allArgs
  | DeclareAllArgs :: rest => run rest env args (Some args)
  | UnshiftIfDefined p :: rest =>
      match lookupVar p env, allArgs with
      | None, _ => ReferenceError p
      | Some _, None => ReferenceError "allArgs"
      | Some v, Some l =>
          run rest env args (Some (if isUndefined v then l else v :: l))
      end
  | ArityChain bs message :: _ =>
      match allArgs with
      | None => ReferenceError "allArgs"
      | Some l => runChain bs message l
      end
  end.

(** Binding the named parameters of [f(p1?, ..., pn?, ...args)] to the
    arguments of a call; a missing argument is [undefined]. *)
Fixpoint bindParameters (names : list string) (actuals : list Value) : Env :=
  match names with
  | [] => []
  | x :: names' =>
      (x, hd Undefined actuals) :: bindParameters names' (tl actuals)
  end.

Fixpoint distinct (names : list string) : bool :=
  match names with
  | [] => true
  | x :: names' => negb (existsb (String.eqb x) names') && distinct names'
  end.

(** A call [f(...actuals)] of the implementation with the given named
    parameters, rest parameter [args] and body.  A class body is strict
    code: a parameter name that occurs twice, or that is [args] or
    [allArgs], makes the file a syntax error.  Parameter names are taken
    to be identifiers of the target language. *)
Definition call (named : list string) (body : list Stmt) (actuals : list Value) : Outcome :=
  if distinct (named ++ ["args"; "allArgs"])
  then run body (bindParameters named actuals) (skipn (List.length named) actuals) None
  else SyntaxError.

End Dispatch.

(* ================================================================== *)
(** * [main]: one generated class per extracted class *)
(* ================================================================== *)

Module Main.

(** [name.split(":")[0]] *)
Definition baseName (n : string) : string := hd "" (splitChar n ":").

(** ** Imports *)

Definition bridgeImports : list ImportDeclaration :=
  [{| defaultImport := Some "objc"; namedImports := []; moduleSpecifier := "objc" |};
   {| defaultImport := None; namedImports := ["id"]; moduleSpecifier := "../objc.ts" |}].

Definition superclassImport (superclassName : string) : ImportDeclaration :=
  {| defaultImport := None; namedImports := [superclassName];
     moduleSpecifier := ("./" ++ superclassName ++ ".ts")%string |}.

Definition fileImports (c : ObjCClass) : list ImportDeclaration :=
  bridgeImports
  ++ (if nonEmpty (superclass c) then [superclassImport (superclass c)] else []).

(** ** The fixed members *)

Definition classReference (c : ObjCClass) : Member :=
  PropertyMember "Class" None (Some ("objc.classes[" ++ quoted (class_name c) ++ "]")%string)
                 true true Private.

Definition pointerProperty : Member :=
  PropertyMember "pointer" (Some "id") None false false Protected.

Definition constructorBody (c : ObjCClass) : list Construct.Stmt :=
  [Construct.SuperCall;
   Construct.AssignPointer
     (Construct.MsgSend
        (Construct.MsgSend (Construct.ClassObject (class_name c)) (quoted "alloc"))
        (quoted "init"))].

Definition constructorMember (c : ObjCClass) : Member :=
  Constructor Public [] [] (constructorBody c).

(** ** Properties *)

Definition valueParameter (t : TsType) : ParameterDeclaration :=
  {| pd_name := "value"; pd_type := Converted t;
     hasQuestionToken := false; isRestParameter := false |}.

(** [`set${getterName.charAt(0).toUpperCase()}${getterName.slice(1)}:`] *)
Definition setterMethodName (getterName : string) : string :=
  ("set" ++ toUpperCase (charAt getterName 0) ++ sliceFrom getterName 1 ++ ":")%string.

(** The body of the loop over [c.properties]. *)
Definition propertyAccessors (property : ObjCProperty) : list Member :=
  if negb (nonEmpty (prop_name property)) then []
  else
    let tsType := convertObjCTypeToTypeScriptString (prop_type property) in
    let getterName := prop_name property in
    GetAccessor getterName Public tsType
      [("return objc.msgSend(this.pointer, " ++ quoted getterName ++ ");")%string]
    :: (if negb (isReadOnly property)
        then [SetAccessor getterName Public [valueParameter tsType]
                [("objc.msgSend(this.pointer, " ++ quoted (setterMethodName getterName)
                    ++ ", value);")%string]]
        else []).

(** ** Method groups *)

Definition methodKey (method : ObjCMethod) : string :=
  ((if isClassMethod method then "static_" else "") ++ baseName (name method))%string.

(** The grouping loop.  A key that names a member of [Object.prototype]
    finds that member instead of an array: the [push] is a [TypeError]. *)
Fixpoint groupMethods (ms : list ObjCMethod) (methodGroups : Obj.t (list ObjCMethod))
  : result (Obj.t (list ObjCMethod)) :=
  match ms with
  | [] => Ok methodGroups
  | method :: ms' =>
      if startsWith (name method) "init" then groupMethods ms' methodGroups
      else
        match Obj.get (methodKey method) methodGroups with
        | Obj.Own group =>
            groupMethods ms' (Obj.set (methodKey method) (group ++ [method]) methodGroups)
        | Obj.Missing =>
            groupMethods ms' (Obj.set (methodKey method) [method] methodGroups)
        | Obj.Proto => Throw "methodGroups[methodKey].push is not a function"
        end
  end.

Definition isSetterMethod (firstMethod : ObjCMethod) : bool :=
  startsWith (name firstMethod) "set"
  && Nat.eqb (List.length (parameters firstMethod)) 1
  && Nat.ltb 4 (String.length (name firstMethod))
  && String.eqb (charAt (name firstMethod) 3) (toUpperCase (charAt (name firstMethod) 3))
  && endsWith (name firstMethod) ":".

(** The property a setter-shaped method sets: [setTitle:] gives [title]. *)
Definition setterPropertyName (firstMethod : ObjCMethod) : string :=
  let n := name firstMethod in
  let propertyName := substring n 3 (String.length n - 1) in
  let propertyName :=
    (toLowerCase (charAt propertyName 0) ++ sliceFrom propertyName 1)%string in
  Regex.replaceAll false (Regex.chr ":") propertyName "_".

Definition convertedParameter (param : ObjCParameter) (question : bool) : ParameterDeclaration :=
  {| pd_name := param_name param;
     pd_type := Converted (convertObjCTypeToTypeScriptString (param_type param));
     hasQuestionToken := question; isRestParameter := false |}.

(** The parameters of one overload signature. *)
Definition signatureParameters (overloadMethod : ObjCMethod) : list ParameterDeclaration :=
  match parameters overloadMethod with
  | [] => []
  | [param] => [convertedParameter param (param_isNullable param)]
  | params =>
      [{| pd_name := "params";
          pd_type := ObjectOf (map (fun param =>
                       (param_name param, param_isNullable param,
                        convertObjCTypeToTypeScriptString (param_type param))) params);
          hasQuestionToken := false; isRestParameter := false |}]
  end.

Definition overloadSignature (isStatic : bool) (baseMethodName : string)
  (overloadMethod : ObjCMethod) : Member :=
  Method baseMethodName Public isStatic
    (Converted (convertObjCTypeToTypeScriptString (returnType overloadMethod)))
    (signatureParameters overloadMethod) None.

Definition hasParameterNamed (n : string) (ps : list ParameterDeclaration) : bool :=
  existsb (fun p => String.eqb (pd_name p) n) ps.

(** "Only add if not already added" *)
Definition addIfNew (ps : list ParameterDeclaration) (param : ObjCParameter)
  : list ParameterDeclaration :=
  if hasParameterNamed (param_name param) ps then ps
  else ps ++ [convertedParameter param true].

(** "Add parameter for each possible signature": a single parameter is
    added as it is, those of a longer signature when their name is new. *)
Definition addSignatureParameters (ps : list ParameterDeclaration)
  (overloadMethod : ObjCMethod) : list ParameterDeclaration :=
  match parameters overloadMethod with
  | [] => ps
  | [param] => ps ++ [convertedParameter param true]
  | params => fold_left addIfNew params ps
  end.

Definition restParameter : ParameterDeclaration :=
  {| pd_name := "args"; pd_type := Written "any[]";
     hasQuestionToken := false; isRestParameter := true |}.

Definition implementationParameters (methods : list ObjCMethod) : list ParameterDeclaration :=
  fold_left addSignatureParameters methods [] ++ [restParameter].

(** [getParameters().filter(p => !p.isRestParameter()).map(p => p.getName())] *)
Definition namedParameters (ps : list ParameterDeclaration) : list string :=
  map pd_name (filter (fun p => negb (isRestParameter p)) ps).

Definition dispatchTarget (c : ObjCClass) (isStatic : bool) : string :=
  if isStatic then (class_name c ++ ".Class")%string else "this.pointer".

Definition methodNameWithColons (method : ObjCMethod) : string :=
  if includes (name method) ":" then name method
  else (name method ++ repeat ":" (List.length (parameters method)))%string.

Definition branchOf (target : string) (overloadMethod : ObjCMethod) : Dispatch.Branch :=
  {| Dispatch.arity := List.length (parameters overloadMethod);
     Dispatch.target := target;
     Dispatch.selector := methodNameWithColons overloadMethod |}.

(** What [implementationMethod.setBodyText] writes. *)
Definition implementationBody (c : ObjCClass) (isStatic : bool) (baseMethodName : string)
  (methods : list ObjCMethod) (namedParams : list string) : list Dispatch.Stmt :=
  [Dispatch.Comment "Determine which method to call based on arguments";
   Dispatch.DeclareAllArgs]
  ++ (match namedParams with
      | [] => []
      | _ => Dispatch.Comment "Add named parameters to args array if they exist"
             :: map Dispatch.UnshiftIfDefined namedParams
      end)
  ++ [Dispatch.ArityChain (map (branchOf (dispatchTarget c isStatic)) methods)
        ("Invalid number of arguments for method " ++ baseMethodName)].

(** The members of an overload group: the signatures, then the
    implementation. *)
Definition overloadMembers (c : ObjCClass) (isStatic : bool) (baseMethodName : string)
  (methods : list ObjCMethod) : list Member :=
  let ps := implementationParameters methods in
  map (overloadSignature isStatic baseMethodName) methods
  ++ [Method baseMethodName Public isStatic (Written "any") ps
        (Some (Dispatch.renderBody
                 (implementationBody c isStatic baseMethodName methods (namedParameters ps))))].

(** "Regular method (not an overload)" *)
Definition regularMethod (c : ObjCClass) (isStatic : bool) (firstMethod : ObjCMethod) : Member :=
  let target := dispatchTarget c isStatic in
  Method (baseName (name firstMethod)) Public isStatic
    (Converted (convertObjCTypeToTypeScriptString (returnType firstMethod)))
    (map (fun param => convertedParameter param (param_isNullable param))
         (parameters firstMethod))
    (Some [match parameters firstMethod with
           | [] => ("return objc.msgSend(" ++ target ++ ", " ++ quoted (name firstMethod)
                      ++ ");")%string
           | params =>
               ("return objc.msgSend(" ++ target ++ ", "
                  ++ quoted (methodNameWithColons firstMethod) ++ ", "
                  ++ join ", " (map param_name params) ++ ");")%string
           end]).

Definition setterFromMethod (firstMethod : ObjCMethod) : Member :=
  SetAccessor (setterPropertyName firstMethod) Public
    [valueParameter (convertObjCTypeToTypeScriptString
                       (param_type (hd {| param_name := ""; param_type := "";
                                          param_isNullable := false;
                                          param_documentation := "" |}
                                       (parameters firstMethod))))]
    [("objc.msgSend(this.pointer, " ++ quoted (name firstMethod) ++ ", value);")%string].

(** The body of the loop over [Object.entries(methodGroups)]: the
    members one group adds to a class that already has [soFar]. *)
Definition emitGroup (c : ObjCClass) (soFar : list Member) (key : string)
  (methods : list ObjCMethod) : result (list Member) :=
  let isStatic := startsWith key "static_" in
  let baseMethodName := replaceStr key "static_" "" in
  match methods with
  | [] => Throw "Cannot read properties of undefined (reading 'name')"
  | firstMethod :: _ =>
      if isSetterMethod firstMethod then
        if existsb (isSetAccessorNamed (setterPropertyName firstMethod)) soFar
        then Ok []
        else Ok [setterFromMethod firstMethod]
      else if Nat.ltb 1 (List.length methods) then
        Ok (overloadMembers c isStatic baseMethodName methods)
      else Ok [regularMethod c isStatic firstMethod]
  end.

Fixpoint emitGroups (c : ObjCClass) (groups : list (string * list ObjCMethod))
  (soFar : list Member) : result (list Member) :=
  match groups with
  | [] => Ok soFar
  | (key, methods) :: groups' =>
      added <- emitGroup c soFar key methods ;;
      emitGroups c groups' (soFar ++ added)
  end.

(** The members a class has when the method groups are reached. *)
Definition membersBeforeMethods (c : ObjCClass) : list Member :=
  [classReference c; pointerProperty]
  ++ flat_map propertyAccessors (properties c)
  ++ [constructorMember c].

(** The members, and the exception that ended the run if there was
    one: the class then keeps what it had. *)
Definition classMembers (c : ObjCClass) : list Member * option string :=
  match (groups <- groupMethods (methods c) [] ;;
         emitGroups c (Obj.entries groups) (membersBeforeMethods c)) with
  | Ok all => (all, None)
  | Throw message => (membersBeforeMethods c, Some message)
  end.

Definition generateClass (c : ObjCClass) : ClassDeclaration :=
  {| cd_name := class_name c;
     isExported := true;
     extends := truthy (superclass c);
     members := fst (classMembers c) |}.

(** The source file [main] creates for one class. *)
Definition generateFile (c : ObjCClass) : SourceFile :=
  {| filePath := ("./src/generated/" ++ class_name c ++ ".ts")%string;
     imports := fileImports c;
     classes := [generateClass c] |}.

(** ** Calling a generated overload

    The implementation of the group with the given key, as a callable:
    its named parameters and its body. *)
Definition overloadImplementation (c : ObjCClass) (key : string)
  : option (list string * list Dispatch.Stmt) :=
  match groupMethods (methods c) [] with
  | Throw _ => None
  | Ok groups =>
      match Obj.getOwn key groups with
      | None => None
      | Some methods =>
          match methods with
          | [] => None
          | firstMethod :: _ =>
              if isSetterMethod firstMethod then None
              else if Nat.ltb 1 (List.length methods) then
                let named := namedParameters (implementationParameters methods) in
                Some (named,
                      implementationBody c (startsWith key "static_")
                        (replaceStr key "static_" "") methods named)
              else None
          end
      end
  end.

Definition callOverload (c : ObjCClass) (key : string) (actuals : list Dispatch.Value)
  : option Dispatch.Outcome :=
  match overloadImplementation c key with
  | Some (named, body) => Some (Dispatch.call named body actuals)
  | None => None
  end.

End Main.

(* ================================================================== *)
(** * [buildFile], [buildClass] and [buildProperty] *)
(* ================================================================== *)

Module Build.

Section Build.

(** The class reference these functions receive is untyped, and two
    helpers they call are not part of the sources at hand.  What the code
    reads from an initializer and from a method, and the two helpers, are
    taken as given:
    - [toTypeScriptType], the type converter [buildProperty] calls;
    - of an initializer [init]: [init.parameters] as constructor
      parameters, the text of [init.parameters.join(' || ')], and the text
      of [init.selector];
    - of a method: its [name], and the members [buildMethod] adds to the
      class for it (like [buildProperty], it is handed the class to add
      to). *)
Variable toTypeScriptType : string -> TsType.
Variable Init : Type.
Variable initParameters : Init -> list ParameterDeclaration.
Variable initCondition : Init -> string.
Variable initSelector : Init -> string.
Variable MethodRef : Type.
Variable methodName : MethodRef -> string.
Variable buildMethod : MethodRef -> list Member.

Record ClassRef : Type := {
  ref_name : string;
  ref_superclass : string;
  ref_properties : list ObjCProperty;
  ref_inits : list Init;
  ref_methods : list MethodRef
}.

Definition newValueParameter (t : TsType) : ParameterDeclaration :=
  {| pd_name := "newValue"; pd_type := Converted t;
     hasQuestionToken := false; isRestParameter := false |}.

Definition buildProperty (property : ObjCProperty) : list Member :=
  let type := toTypeScriptType (prop_type property) in
  let getterName := prop_name property in
  GetAccessor getterName Public type
    [("return objc.msgSend(this.pointer, " ++ quoted getterName ++ ");")%string]
  :: (if negb (isReadOnly property)
      then [SetAccessor getterName Public [newValueParameter type]
              [("objc.msgSend(this.pointer, " ++ quoted (Main.setterMethodName getterName)
                  ++ ", newValue);")%string]]
      else []).

Definition classReference (classRef : ClassRef) : Member :=
  PropertyMember "Class" None
    (Some ("objc.classes[" ++ quoted (ref_name classRef) ++ "]")%string)
    true true Private.

Definition initBlock (init : Init) : Construct.Stmt :=
  Construct.If (initCondition init)
    [Construct.AssignPointer
       (Construct.MsgSend (Construct.Constant "memory") (initSelector init))].

Definition constructorBody (classRef : ClassRef) : list Construct.Stmt :=
  [Construct.SuperCall;
   Construct.DeclareConst "memory"
     (Construct.MsgSend (Construct.ClassObject (ref_name classRef)) (quoted "alloc"))]
  ++ map initBlock (ref_inits classRef).

(** The members added before the constructor. *)
Definition membersBeforeConstructor (classRef : ClassRef) : list Member :=
  [classReference classRef; Main.pointerProperty]
  ++ flat_map (fun property =>
                 if negb (nonEmpty (prop_name property)) then []
                 else buildProperty property)
              (ref_properties classRef).

(** The class declaration [buildClass] leaves in the file, and the
    exception it raised if it did not finish: [inits.at(0)] of an empty
    list is [undefined], and reading its [parameters] is a [TypeError]
    raised before the constructor is added. *)
Definition buildClass (classRef : ClassRef) : ClassDeclaration * option string :=
  let declaration (ms : list Member) :=
    {| cd_name := ref_name classRef;
       isExported := true;
       extends := truthy (ref_superclass classRef);
       members := ms |} in
  match ref_inits classRef with
  | [] =>
      (declaration (membersBeforeConstructor classRef),
       Some "Cannot read properties of undefined (reading 'parameters')")
  | first :: others =>
      (declaration
         (membersBeforeConstructor classRef
          ++ [Constructor Public (initParameters first) (map initParameters others)
                (constructorBody classRef)]
          ++ flat_map buildMethod
               (filter (fun method => negb (startsWith (methodName method) "init"))
                       (ref_methods classRef))),
       None)
  end.

Definition fileImports (classRef : ClassRef) : list ImportDeclaration :=
  Main.bridgeImports
  ++ (if nonEmpty (ref_superclass classRef)
      then [Main.superclassImport (ref_superclass classRef)] else []).

Definition buildFile (classRef : ClassRef) : SourceFile * option string :=
  let (declaration, raised) := buildClass classRef in
  ({| filePath := ("./src/generated/" ++ ref_name classRef ++ ".ts")%string;
      imports := fileImports classRef;
      classes := [declaration] |}, raised).

End Build.

Arguments ref_name {Init MethodRef} _.
Arguments ref_superclass {Init MethodRef} _.
Arguments ref_properties {Init MethodRef} _.
Arguments ref_inits {Init MethodRef} _.
Arguments ref_methods {Init MethodRef} _.
Arguments classReference {Init MethodRef} classRef.
Arguments initBlock {Init} initCondition initSelector init.
Arguments constructorBody {Init} initCondition initSelector {MethodRef} classRef.
Arguments membersBeforeConstructor toTypeScriptType {Init MethodRef} classRef.
Arguments buildClass toTypeScriptType {Init} initParameters initCondition initSelector
  {MethodRef} methodName buildMethod classRef.
Arguments fileImports {Init MethodRef} classRef.
Arguments buildFile toTypeScriptType {Init} initParameters initCondition initSelector
  {MethodRef} methodName buildMethod classRef.

End Build.

(* ================================================================== *)
(** * The post-processing pass of [main] over a generated file *)
(* ================================================================== *)

Module Reflow.
Import Regex.

Definition nl : string := String DocPatterns.LF "".

(** The name is spliced into the source of a [RegExp]; it stands for
    itself when it is made of word characters, which is what
    [parseMethodSignature] produces. *)
Definition isPlainName (n : string) : bool := forallb isWordChar (s2l n).

Definition declarationStart (isStatic : bool) (baseMethodName : string) : string :=
  ("public " ++ (if isStatic then "static " else "") ++ baseMethodName)%string.

(** [(\s+)(public NAME\([^)]*\): [^;]+;)], with [static ] before the
    name for a class method. *)
Definition overloadRe (isStatic : bool) (baseMethodName : string) : regex :=
  seqs [Grp 1 (plus space);
        Grp 2 (seqs [lit (declarationStart isStatic baseMethodName); chr "(";
                     star (noneOf ")"); chr ")"; lit ": "; plus (noneOf ";"); chr ";"])].

(** [(\s+)(public NAME\([^{]*\{)] *)
Definition implementationRe (isStatic : bool) (baseMethodName : string) : regex :=
  seqs [Grp 1 (plus space);
        Grp 2 (seqs [lit (declarationStart isStatic baseMethodName); chr "(";
                     star (noneOf "{"); chr "{"])].

(** One turn of the loop over the method groups.  [None]: the name is
    not plain, and the pattern built from it is outside this model. *)
Definition reflowGroup (fileContent key : string) (methods : list ObjCMethod)
  : option string :=
  if Nat.leb (List.length methods) 1 then Some fileContent
  else
    let isStatic := startsWith key "static_" in
    let baseMethodName := replaceStr key "static_" "" in
    if negb (isPlainName baseMethodName) then None
    else
      let overloadMatches :=
        map matched (matchAll false (overloadRe isStatic baseMethodName) fileContent) in
      match exec false (implementationRe isStatic baseMethodName) fileContent with
      | None => Some fileContent
      | Some implementationMatch =>
          let removed :=
            fold_left (fun content overload => replaceStr content overload "")
                      overloadMatches fileContent in
          match overloadMatches with
          | [] => Some removed
          | _ =>
              let implementation := matched implementationMatch in
              let overloadsText := join nl overloadMatches in
              Some (replaceStr removed implementation
                      (overloadsText ++ nl ++ implementation))
          end
      end.

Fixpoint reflowGroups (fileContent : string) (groups : list (string * list ObjCMethod))
  : option string :=
  match groups with
  | [] => Some fileContent
  | (key, methods) :: groups' =>
      match reflowGroup fileContent key methods with
      | Some content => reflowGroups content groups'
      | None => None
      end
  end.

(** The pattern of an incomplete emission: a JSDoc comment
    [/** * @overload name(...): ... */] on several lines, followed by the
    line [// Add named parameters]. *)
Definition missingMethodRe : regex :=
  seqs [lit "/**"; star space; chr DocPatterns.LF; star space; chr "*"; star space;
        lit "@overload"; plus space; Grp 1 (plus word);
        chr "("; star (noneOf ")"); chr ")"; chr ":"; star (noneOf "*"); lit "*/";
        star space; chr DocPatterns.LF; star space; lit "//"; star space;
        lit "Add named parameters"].

(** "Fix missing method declarations": the [exec] loop keeps its
    [lastIndex] while the text grows.  A match starts at an opening
    [/**] that lies after the end of the match before, and the inserted
    text holds no such opening, so no opening starts two matches: the
    fuel (one more than the length of the text) is never exhausted. *)
Fixpoint fixMissingMethods (fuel : nat) (fileContent : string) (lastIndex : nat) : string :=
  match fuel with
  | 0 => fileContent
  | S fuel' =>
      match execFrom false missingMethodRe fileContent lastIndex with
      | None => fileContent
      | Some m =>
          let methodName := group 1 m in
          let isStatic :=
            includes (substring fileContent (index m - 50) (index m)) "static" in
          let commentEndIndex :=
            match indexOfFrom fileContent "*/" (index m) with
            | Some i => i + 2
            | None => 1
            end in
          let methodDeclaration :=
            (nl ++ "    public " ++ (if isStatic then "static " else "") ++ methodName
               ++ "(name?: id, description?: id, value?: number, ...args: any[]): any {"
               ++ nl)%string in
          fixMissingMethods fuel'
            (substring fileContent 0 commentEndIndex ++ methodDeclaration
               ++ sliceFrom fileContent commentEndIndex)%string
            (Regex.lastIndex m)
      end
  end.

(** The text the pass leaves in the file of class [c].  When grouping
    raises, the [catch] logs a warning and the file is not written. *)
Definition postProcess (c : ObjCClass) (fileContent : string) : option string :=
  match Main.groupMethods (methods c) [] with
  | Throw _ => Some fileContent
  | Ok groups =>
      match reflowGroups fileContent (Obj.entries groups) with
      | None => None
      | Some content =>
          Some (fixMissingMethods (S (String.length content)) content 0)
      end
  end.

(** The pass applied again to its own output. *)
Definition postProcessTwice (c : ObjCClass) (fileContent : string) : option string :=
  match postProcess c fileContent with
  | Some once => postProcess c once
  | None => None
  end.

End Reflow.

(* ================================================================== *)
(** * The text extractor: [parseObjCHeader] and [parseObjCHeaderFile] *)
(* ================================================================== *)

Module HeaderPatterns.
Import Regex.

Definition anyChar : regex := Cls (fun _ => true).

(** [/@interface\s+(\w+)\s*:\s*(\w+)(?:\s*<([^>]+)>)?/] *)
Definition classRe : regex :=
  seqs [lit "@interface"; plus space; Grp 1 (plus word); star space; chr ":";
        star space; Grp 2 (plus word);
        opt (seqs [star space; chr "<"; Grp 3 (plus (noneOf ">")); chr ">"])].

(** The doc comment of a single-method input: [/*!], the shortest run of
    any characters, and the closing marker. *)
Definition docCommentRe : regex :=
  seqs [lit "/*!"; Grp 1 (lazyStar anyChar); lit "*/"].

(** [/\/\/\s*([+-][\s\S]*?;)/] *)
Definition commentedSignatureRe : regex :=
  seqs [lit "//"; star space;
        Grp 1 (seqs [anyOf [Patterns.isChar "+"; Patterns.isChar "-"];
                     lazyStar anyChar; chr ";"])].

End HeaderPatterns.

(** [Omit<ObjCClass, "documentation" | "methods" | "properties">] is
    returned as a class without members. *)
Definition parseClassDeclaration (classDeclaration : string) : result ObjCClass :=
  let classDeclaration := trim classDeclaration in
  match Regex.exec false HeaderPatterns.classRe classDeclaration with
  | None => Throw ("Failed to parse class declaration: " ++ classDeclaration)
  | Some classMatch =>
      Ok {| class_name := Regex.group 1 classMatch;
            superclass := Regex.group 2 classMatch;
            protocols := filter nonEmpty
                           (map trim (splitChar (Regex.group 3 classMatch) ","));
            properties := [];
            methods := [];
            class_documentation := "";
            class_availability := parseAvailability classDeclaration |}
  end.

(** [param.documentation = doc] on the first parameter with that name
    ([method.parameters.find]). *)
Fixpoint documentParameter (paramName doc : string) (ps : list ObjCParameter)
  : list ObjCParameter :=
  match ps with
  | [] => []
  | p :: ps' =>
      if String.eqb (param_name p) paramName
      then {| param_name := param_name p; param_type := param_type p;
              param_isNullable := param_isNullable p;
              param_documentation := doc |} :: ps'
      else p :: documentParameter paramName doc ps'
  end.

(** "Assign documentation to parameters based on their position" *)
Fixpoint assignDocumentation (paramNames : list string) (docs : list (string * string))
  (ps : list ObjCParameter) : list ObjCParameter :=
  match paramNames, docs with
  | paramName :: paramNames', (_, doc) :: docs' =>
      assignDocumentation paramNames' docs' (documentParameter paramName doc ps)
  | _, _ => ps
  end.

Definition parseObjCHeader (headerDefinition : string) : result ObjCMethod :=
  match Regex.exec false HeaderPatterns.docCommentRe headerDefinition,
        Regex.exec false HeaderPatterns.commentedSignatureRe headerDefinition with
  | Some docCommentMatch, Some methodSignatureMatch =>
      let docComment := Regex.matched docCommentMatch in
      let methodSignature := Regex.group 1 methodSignatureMatch in
      let docs := parseDocumentation docComment in
      methodInfo <- parseMethodSignature methodSignature ;;
      let paramNames :=
        map (Regex.group 3) (Regex.matchAll false Patterns.paramRe methodSignature) in
      Ok {| isClassMethod := sig_isClassMethod methodInfo;
            returnType := sig_returnType methodInfo;
            name := sig_name methodInfo;
            parameters := assignDocumentation paramNames (Obj.entries (paramDocs docs))
                            (sig_parameters methodInfo);
            documentation := mainDoc docs;
            returnDocumentation := returnDoc docs;
            availability := sig_availability methodInfo |}
  | _, _ => Throw "Invalid Objective-C header definition format"
  end.

(** The variables of the loop over the lines of a header.  [collecting]
    holds a method declaration that has not met its semicolon yet: the
    inner [while] loop appends the following lines to it, whatever they
    are. *)
Record Scan : Type := {
  scanned : list ObjCClass;
  currentClass : option ObjCClass;
  currentDocComment : string;
  isInDocComment : bool;
  isInImplementation : bool;
  collecting : option string
}.

Definition withClass (st : Scan) (c : option ObjCClass) (doc : string) : Scan :=
  {| scanned := scanned st; currentClass := c; currentDocComment := doc;
     isInDocComment := isInDocComment st;
     isInImplementation := isInImplementation st;
     collecting := None |}.

Definition addProperty (c : ObjCClass) (p : ObjCProperty) : ObjCClass :=
  {| class_name := class_name c; superclass := superclass c; protocols := protocols c;
     properties := properties c ++ [p]; methods := methods c;
     class_documentation := class_documentation c;
     class_availability := class_availability c |}.

Definition addMethod (c : ObjCClass) (m : ObjCMethod) : ObjCClass :=
  {| class_name := class_name c; superclass := superclass c; protocols := protocols c;
     properties := properties c; methods := methods c ++ [m];
     class_documentation := class_documentation c;
     class_availability := class_availability c |}.

Definition setDocumentation (c : ObjCClass) (doc : string) : ObjCClass :=
  {| class_name := class_name c; superclass := superclass c; protocols := protocols c;
     properties := properties c; methods := methods c;
     class_documentation := doc;
     class_availability := class_availability c |}.

(** A complete method declaration inside class [c]: parsed with its doc
    comment if there is one; a declaration that does not parse is
    skipped, and the doc comment then stays. *)
Definition scanMethod (st : Scan) (c : ObjCClass) (methodDeclaration : string) : Scan :=
  if nonEmpty (currentDocComment st) then
    match parseObjCHeader
            (currentDocComment st ++ String DocPatterns.LF "" ++ "// " ++ methodDeclaration)
    with
    | Ok methodInfo => withClass st (Some (addMethod c methodInfo)) ""
    | Throw _ => withClass st (Some c) (currentDocComment st)
    end
  else
    match parseMethodSignature methodDeclaration with
    | Ok methodBase =>
        withClass st (Some (addMethod c (withDocumentation methodBase "" "")))
                  (currentDocComment st)
    | Throw _ => withClass st (Some c) (currentDocComment st)
    end.

(** One line of the header. *)
Definition scanLine (st : Scan) (rawLine : string) : Scan :=
  let line := trim rawLine in
  match collecting st, currentClass st with
  | Some methodDeclaration, Some c =>
      let methodDeclaration := (methodDeclaration ++ " " ++ line)%string in
      if includes methodDeclaration ";" then scanMethod st c methodDeclaration
      else {| scanned := scanned st; currentClass := currentClass st;
              currentDocComment := currentDocComment st;
              isInDocComment := isInDocComment st;
              isInImplementation := isInImplementation st;
              collecting := Some methodDeclaration |}
  | _, _ =>
      if negb (nonEmpty line) then st
      else if startsWith line "/*!" then
        {| scanned := scanned st; currentClass := currentClass st;
           currentDocComment := line; isInDocComment := true;
           isInImplementation := isInImplementation st; collecting := None |}
      else if isInDocComment st then
        {| scanned := scanned st; currentClass := currentClass st;
           currentDocComment :=
             (currentDocComment st ++ String DocPatterns.LF "" ++ line)%string;
           isInDocComment := negb (includes line "*/");
           isInImplementation := isInImplementation st; collecting := None |}
      else if startsWith line "@interface" then
        match parseClassDeclaration line with
        | Ok classInfo =>
            if nonEmpty (currentDocComment st)
            then withClass st
                   (Some (setDocumentation classInfo
                            (mainDoc (parseDocumentation (currentDocComment st))))) ""
            else withClass st (Some classInfo) (currentDocComment st)
        | Throw _ => st
        end
      else if startsWith line "@end" then
        match currentClass st with
        | Some c =>
            {| scanned := scanned st ++ [c]; currentClass := None;
               currentDocComment := currentDocComment st;
               isInDocComment := isInDocComment st;
               isInImplementation := isInImplementation st; collecting := None |}
        | None => st
        end
      else if startsWith line "@implementation" then
        {| scanned := scanned st; currentClass := currentClass st;
           currentDocComment := currentDocComment st;
           isInDocComment := isInDocComment st;
           isInImplementation := true; collecting := None |}
      else if isInImplementation st then st
      else
        match currentClass st with
        | None => st
        | Some c =>
            if startsWith line "@property" then
              match fst (parsePropertyDeclaration line) with
              | Ok propertyInfo =>
                  if nonEmpty (currentDocComment st)
                  then withClass st
                         (Some (addProperty c
                                  (documented propertyInfo
                                     (mainDoc (parseDocumentation (currentDocComment st))))))
                         ""
                  else withClass st (Some (addProperty c (documented propertyInfo "")))
                                 (currentDocComment st)
              | Throw _ => st
              end
            else if startsWith line "+" || startsWith line "-" then
              if includes line ";" then scanMethod st c line
              else {| scanned := scanned st; currentClass := currentClass st;
                      currentDocComment := currentDocComment st;
                      isInDocComment := isInDocComment st;
                      isInImplementation := isInImplementation st;
                      collecting := Some line |}
            else st
        end
  end.

(** The end of the text: a declaration still waiting for its semicolon
    is parsed as it stands. *)
Definition scanEnd (st : Scan) : Scan :=
  match collecting st, currentClass st with
  | Some methodDeclaration, Some c => scanMethod st c methodDeclaration
  | _, _ => st
  end.

Definition parseObjCHeaderFile (headerContent : string) : list ObjCClass :=
  let lines := Regex.split false DocPatterns.newlineRe headerContent in
  scanned (scanEnd (fold_left scanLine lines
             {| scanned := []; currentClass := None; currentDocComment := "";
                isInDocComment := false; isInImplementation := false;
                collecting := None |})).

(* ================================================================== *)
(** * The interface emission: [convertMethodToTypeScript] and
      [convertClassToTypeScript] *)
(* ================================================================== *)

Module Interface.

Section Interface.

(** A type name that is a member every object inherits finds that
    member in the table of the converter; what the member prints as in a
    template literal is taken as given. *)
Variable inheritedText : string -> string.

(** [`${tsType}`] *)
Definition typeText (t : TsType) : string :=
  match t with
  | TsText text => text
  | TsProto key nullSuffix =>
      if nullSuffix then (inheritedText key ++ " | null")%string else inheritedText key
  end.

Definition nl : string := String DocPatterns.LF "".

(** One parameter: [name: T], or [name?: T] when nullable. *)
Definition parameterText (param : ObjCParameter) : string :=
  (param_name param ++ (if param_isNullable param then "?" else "") ++ ": "
     ++ typeText (convertTypeToTypeScript (param_type param) (param_isNullable param)))%string.

(** The part a selector component adds to the method name: the
    component without its colon, its first letter in upper case. *)
Definition capitalized (paramComponent : string) : string :=
  let component := replaceStr paramComponent ":" "" in
  if Nat.ltb 0 (String.length component)
  then (toUpperCase (charAt component 0) ++ sliceFrom component 1)%string
  else "".

(** The TypeScript name of a method: the selector without colon, or
    the base name followed by the capitalized components after the
    first. *)
Definition methodNameOf (selector : string) : string :=
  if includes selector ":" then
    let paramComponents :=
      map Regex.matched (Regex.matchAll false Patterns.componentRe selector) in
    fold_left (fun methodName component => (methodName ++ capitalized component)%string)
              (skipn 1 paramComponents) (Main.baseName selector)
  else selector.

Definition convertMethodToTypeScript (method : ObjCMethod) : string :=
  let tsParams := join ", " (map parameterText (parameters method)) in
  let tsReturnType := typeText (convertTypeToTypeScript (returnType method) false) in
  let methodPrefix := if isClassMethod method then "static " else "" in
  let jsDoc :=
    if nonEmpty (availability method)
    then ("/**" ++ nl ++ " * @available " ++ availability method ++ nl ++ " */" ++ nl)%string
    else "" in
  (jsDoc ++ methodPrefix ++ methodNameOf (name method) ++ "(" ++ tsParams ++ "): "
     ++ tsReturnType)%string.

(** [documentation.replace(/\n/g, "\n" + indent + "* ")] *)
Definition continued (indent documentation : string) : string :=
  Regex.replaceAll false (Regex.chr DocPatterns.LF) documentation
    (nl ++ indent ++ "* ").

(** "Avoid adding '| null' if the type already includes it" *)
Definition nullableSuffix (property : ObjCProperty) : string :=
  if isNullable property
     && negb (includes (typeText (convertTypeToTypeScript (prop_type property)
                                                           (isNullable property)))
                       "| null")
  then " | null" else "".

Definition propertyText (property : ObjCProperty) : string :=
  ((if nonEmpty (prop_documentation property)
    then "  /**" ++ nl ++ "   * " ++ continued "   " (prop_documentation property) ++ nl
         ++ "   */" ++ nl
    else "")
   ++ "  " ++ (if isReadOnly property then "readonly " else "") ++ prop_name property
   ++ ": " ++ typeText (convertTypeToTypeScript (prop_type property) (isNullable property))
   ++ nullableSuffix property ++ ";" ++ nl ++ nl)%string.

(** [/^static /] *)
Definition staticPrefixRe : Regex.regex := Regex.Seq Regex.Bol (Regex.lit "static ").

Definition instanceMethodText (method : ObjCMethod) : string :=
  ("  " ++ Regex.replaceFirst false staticPrefixRe (convertMethodToTypeScript method) ""
     ++ ";" ++ nl ++ nl)%string.

Definition classMethodText (method : ObjCMethod) : string :=
  ("  " ++ convertMethodToTypeScript method ++ ";" ++ nl ++ nl)%string.

Definition convertClassToTypeScript (objcClass : ObjCClass) : string :=
  let instanceMethods := filter (fun m => negb (isClassMethod m)) (methods objcClass) in
  let classMethods := filter isClassMethod (methods objcClass) in
  (("/**" ++ nl)
   ++ (if nonEmpty (class_documentation objcClass)
       then " * " ++ continued " " (class_documentation objcClass) ++ nl ++ " *" ++ nl
       else "")
   ++ (if nonEmpty (class_availability objcClass)
       then " * @available " ++ class_availability objcClass ++ nl
       else "")
   ++ " */" ++ nl ++ "interface " ++ class_name objcClass ++ " {" ++ nl
   ++ String.concat "" (map propertyText (properties objcClass))
   ++ String.concat "" (map instanceMethodText instanceMethods)
   ++ "}" ++ nl ++ nl
   ++ (match classMethods with
       | [] => ""
       | _ =>
           "/**" ++ nl ++ " * Static methods for " ++ class_name objcClass ++ nl ++ " */"
           ++ nl ++ "namespace " ++ class_name objcClass ++ " {" ++ nl
           ++ String.concat "" (map classMethodText classMethods)
           ++ "}" ++ nl
       end))%string.

End Interface.

End Interface.

(* ================================================================== *)
(** * The AST emission: [convertToTypeScriptAST] and
      [convertClassToTypeScriptAST] *)
(* ================================================================== *)

Module Ast.

Record ParameterNode : Type := {
  parameter_name : string;
  parameter_type : TsType;
  parameter_documentation : string;
  parameter_isOptional : bool
}.

Record MethodNode : Type := {
  method_isStatic : bool;
  method_name : string;
  method_parameters : list ParameterNode;
  method_returnType : TsType;
  method_documentation : string;
  method_returnDocumentation : string;
  method_availability : string
}.

Record PropertyNode : Type := {
  property_name : string;
  property_type : TsType;
  property_documentation : string;
  property_isReadOnly : bool;
  property_isOptional : bool
}.

Record InterfaceNode : Type := {
  interface_name : string;
  interface_extends : list string;
  interface_implements : list string;
  interface_properties : list PropertyNode;
  interface_methods : list MethodNode;
  interface_documentation : string;
  interface_availability : string
}.

Definition convertToTypeScriptAST (method : ObjCMethod) : MethodNode :=
  {| method_isStatic := isClassMethod method;
     method_name := name method;
     method_parameters :=
       map (fun param =>
              {| parameter_name := param_name param;
                 parameter_type :=
                   convertTypeToTypeScript (param_type param) (param_isNullable param);
                 parameter_documentation := param_documentation param;
                 parameter_isOptional := param_isNullable param |})
           (parameters method);
     method_returnType := convertTypeToTypeScript (returnType method) false;
     method_documentation := documentation method;
     method_returnDocumentation := returnDocumentation method;
     method_availability := availability method |}.

Definition convertClassToTypeScriptAST (objcClass : ObjCClass) : InterfaceNode :=
  {| interface_name := class_name objcClass;
     interface_extends :=
       if negb (String.eqb (superclass objcClass) "NSObject")
       then [superclass objcClass] else [];
     interface_implements := protocols objcClass;
     interface_properties :=
       map (fun prop =>
              {| property_name := prop_name prop;
                 property_type := convertTypeToTypeScript (prop_type prop) (isNullable prop);
                 property_documentation := prop_documentation prop;
                 property_isReadOnly := isReadOnly prop;
                 property_isOptional := isNullable prop |})
           (properties objcClass);
     interface_methods := map convertToTypeScriptAST (methods objcClass);
     interface_documentation := class_documentation objcClass;
     interface_availability := class_availability objcClass |}.

End Ast.

(* ================================================================== *)
(** * The command line of [main] *)
(* ================================================================== *)

Module Cli.

Definition defaultHeader : string :=
  "/Applications/Xcode-16.2.0.app/Contents/Developer/Platforms/MacOSX.platform/Developer/SDKs/MacOSX.sdk/System/Library/Frameworks/AppKit.framework/Versions/C/Headers/NSButton.h".

(** [args[i] === text]; an index past the end reads [undefined]. *)
Definition isArgument (args : list string) (i : nat) (text : string) : bool :=
  match nth_error args i with
  | Some a => String.eqb a text
  | None => false
  end.

(** [args[i]] where a string is expected: [undefined] is falsy like the
    empty string, and is read as such. *)
Definition argument (args : list string) (i : nat) : string := nth i args "".

Record Options : Type := {
  parseMode : string;
  inputPath : string;
  inputContent : string
}.

Inductive Arguments : Type :=
| ShowHelp
| Proceed (options : Options).

(** The options as [main] reads them from [Deno.args]. *)
Definition readArguments (args : list string) : Arguments :=
  match args with
  | [] => Proceed {| parseMode := "class"; inputPath := ""; inputContent := "" |}
  | _ =>
      let hasMode := isArgument args 0 "--mode" && Nat.ltb 1 (List.length args) in
      let parseMode := if hasMode then argument args 1 else "class" in
      let args := if hasMode then skipn 2 args else args in
      if isArgument args 0 "--file" && Nat.ltb 1 (List.length args) then
        Proceed {| parseMode := parseMode; inputPath := argument args 1;
                   inputContent := "" |}
      else if isArgument args 0 "--string" && Nat.ltb 1 (List.length args) then
        Proceed {| parseMode := parseMode; inputPath := "";
                   inputContent := argument args 1 |}
      else if isArgument args 0 "--help" then ShowHelp
      else Proceed {| parseMode := parseMode; inputPath := argument args 0;
                      inputContent := "" |}
  end.

(** Where the text to parse comes from. *)
Inductive Source : Type :=
| FromFile (path : string)
| GivenText (text : string).

(** "If no input path is provided, use a default", then "Read from file
    if inputContent is empty and inputPath is provided". *)
Definition inputSource (options : Options) : Source :=
  let inputPath :=
    if negb (nonEmpty (inputPath options)) then defaultHeader else inputPath options in
  if negb (nonEmpty (inputContent options)) && nonEmpty inputPath
  then FromFile inputPath
  else GivenText (inputContent options).

(** What [main] does with the text once it has it. *)
Inductive Parsed : Type :=
| Classes (classes : list ObjCClass)
| SingleMethod (ast : result Ast.MethodNode)
| NoInput.

Definition parseInput (parseMode inputContent : string) : Parsed :=
  if negb (nonEmpty inputContent) then NoInput
  else if String.eqb parseMode "class" then Classes (parseObjCHeaderFile inputContent)
  else SingleMethod (method <- parseObjCHeader inputContent ;;
                     Ok (Ast.convertToTypeScriptAST method)).

End Cli.

(** Splits a conjunction into its parts, and nothing else. *)
Ltac conjuncts := repeat match goal with |- _ /\ _ => split end.

(** Closes a goal between closed terms by evaluation. *)
Ltac by_evaluation := vm_compute; reflexivity.

(* ================================================================== *)
(** * Facts about the matcher *)
(* ================================================================== *)

Module RegexFacts.
Import Regex.

(** The text a cursor is a position of. *)
Definition subject (c : cursor) : chars := rev (before c) ++ after c.

(** A successful match goes through its continuation, at a position of
    the same text that is not before the one it started from. *)
Definition reaches (k : cont) (c : cursor) (res : cursor * captures) : Prop :=
  exists c' cs',
    k c' cs' = Some res /\ position c <= position c' /\ subject c' = subject c.

Lemma orElse_some {A} (x y : option A) (a : A) :
  orElse x y = Some a -> x = Some a \/ y = Some a.
Proof. destruct x; simpl; intros H; [left | right]; exact H. Qed.

Lemma reaches_here (k : cont) (c : cursor) (cs : captures) res :
  k c cs = Some res -> reaches k c res.
Proof. intros H. exists c, cs. conjuncts; [exact H | lia | reflexivity]. Qed.

Lemma starLoop_reaches (greedy : bool) step k res :
  (forall c cs k', step c cs k' = Some res -> reaches k' c res) ->
  forall fuel c cs, starLoop greedy step k fuel c cs = Some res -> reaches k c res.
Proof.
  intros Hstep fuel. induction fuel as [|fuel IH]; intros c cs H; simpl in H.
  - exact (reaches_here _ _ _ _ H).
  - assert (Hcases :
      step c cs (fun c' cs' =>
                   if Nat.ltb (List.length (after c')) (List.length (after c))
                   then starLoop greedy step k fuel c' cs' else None) = Some res
      \/ k c cs = Some res).
    { destruct greedy; apply orElse_some in H; tauto. }
    destruct Hcases as [Hagain | Hk]; [| exact (reaches_here _ _ _ _ Hk)].
    apply Hstep in Hagain. destruct Hagain as (c1 & cs1 & H1 & Hle & Hsubject).
    destruct (Nat.ltb (List.length (after c1)) (List.length (after c)));
      [| discriminate].
    apply IH in H1. destruct H1 as (c2 & cs2 & H2 & Hle2 & Hsubject2).
    exists c2, cs2. conjuncts; [exact H2 | lia | congruence].
Qed.

Lemma run_reaches (ml : bool) (r : regex) :
  forall c cs k res, run ml r c cs k = Some res -> reaches k c res.
Proof.
  induction r as [| p | r1 IH1 r2 IH2 | r1 IH1 r2 IH2 | g r1 IH1 | i r1 IH1 | | | r1 IH1];
    intros c cs k res H; cbn [run] in H.
  - exact (reaches_here _ _ _ _ H).
  - destruct (after c) as [|a rest] eqn:Hafter; [discriminate |].
    destruct (p a); [| discriminate].
    eexists _, cs. conjuncts; [exact H | unfold position; simpl; lia |].
    unfold subject. cbn [before after rev]. rewrite Hafter, <- app_assoc. reflexivity.
  - apply IH1 in H. destruct H as (c1 & cs1 & H1 & Hle & Hsubject).
    apply IH2 in H1. destruct H1 as (c2 & cs2 & H2 & Hle2 & Hsubject2).
    exists c2, cs2. conjuncts; [exact H2 | lia | congruence].
  - apply orElse_some in H. destruct H as [H | H]; [apply IH1 in H | apply IH2 in H]; exact H.
  - eapply starLoop_reaches; [| exact H].
    intros c0 cs0 k' Hstep. apply IH1 in Hstep. exact Hstep.
  - apply IH1 in H. destruct H as (c1 & cs1 & H1 & Hle & Hsubject).
    exists c1, ((i, between c c1) :: cs1). conjuncts; assumption.
  - destruct (atBol ml c); [| discriminate]. exact (reaches_here _ _ _ _ H).
  - destruct (atEol ml c); [| discriminate]. exact (reaches_here _ _ _ _ H).
  - destruct (run ml r1 c cs (fun c' cs' => Some (c', cs'))) as [[c1 cs1]|];
      [| discriminate].
    exact (reaches_here _ _ _ _ H).
Qed.

(** ** The fuel of the star is enough *)

Definition sameOn (k k' : cont) : Prop := forall c cs, k c cs = k' c cs.

Lemma starLoop_ext (greedy : bool) step :
  (forall c cs k k', sameOn k k' -> step c cs k = step c cs k') ->
  forall k k', sameOn k k' ->
  forall fuel c cs, starLoop greedy step k fuel c cs = starLoop greedy step k' fuel c cs.
Proof.
  intros Hstep k k' Hk fuel. induction fuel as [|fuel IH]; intros c cs; simpl.
  - apply Hk.
  - rewrite (Hk c cs).
    rewrite (Hstep c cs _ (fun c' cs' =>
               if Nat.ltb (List.length (after c')) (List.length (after c))
               then starLoop greedy step k' fuel c' cs' else None)); [reflexivity |].
    intros c' cs'. destruct (Nat.ltb _ _); [apply IH | reflexivity].
Qed.

Lemma run_ext (ml : bool) (r : regex) :
  forall c cs k k', sameOn k k' -> run ml r c cs k = run ml r c cs k'.
Proof.
  induction r as [| p | r1 IH1 r2 IH2 | r1 IH1 r2 IH2 | g r1 IH1 | i r1 IH1 | | | r1 IH1];
    intros c cs k k' Hk; cbn [run].
  - apply Hk.
  - destruct (after c) as [|a rest]; [reflexivity |].
    destruct (p a); [apply Hk | reflexivity].
  - apply IH1. intros c' cs'. apply IH2. exact Hk.
  - rewrite (IH1 c cs k k' Hk), (IH2 c cs k k' Hk). reflexivity.
  - apply starLoop_ext; [| exact Hk].
    intros c0 cs0 k0 k0' Hk0. apply IH1. exact Hk0.
  - apply IH1. intros c' cs'. apply Hk.
  - destruct (atBol ml c); [apply Hk | reflexivity].
  - destruct (atEol ml c); [apply Hk | reflexivity].
  - destruct (run ml r1 c cs _) as [[c1 cs1]|]; [apply Hk | reflexivity].
Qed.

(** Any fuel above what is left to read gives the same result: the
    bound on the iterations is never what stops a star. *)
Lemma starLoop_fuel (greedy : bool) step k :
  (forall c cs k1 k2, sameOn k1 k2 -> step c cs k1 = step c cs k2) ->
  forall fuel1 fuel2 c cs,
    List.length (after c) < fuel1 -> List.length (after c) < fuel2 ->
    starLoop greedy step k fuel1 c cs = starLoop greedy step k fuel2 c cs.
Proof.
  intros Hstep fuel1. induction fuel1 as [|fuel1 IH]; intros fuel2 c cs H1 H2;
    [lia |].
  destruct fuel2 as [|fuel2]; [lia |]. simpl.
  rewrite (Hstep c cs _ (fun c' cs' =>
             if Nat.ltb (List.length (after c')) (List.length (after c))
             then starLoop greedy step k fuel2 c' cs' else None)); [reflexivity |].
  intros c' cs'. destruct (Nat.ltb _ _) eqn:Hlt; [| reflexivity].
  apply Nat.ltb_lt in Hlt. apply IH; lia.
Qed.

Theorem star_needs_no_more_fuel (ml greedy : bool) (r : regex) (c : cursor)
  (cs : captures) (k : cont) (fuel : nat) :
  List.length (after c) < fuel ->
  run ml (Star greedy r) c cs k
  = starLoop greedy (fun c' cs' k' => run ml r c' cs' k') k fuel c cs.
Proof.
  intros H. cbn [run]. apply starLoop_fuel; [| lia | exact H].
  intros c0 cs0 k1 k2 Hk. apply run_ext. exact Hk.
Qed.

(** ** Searching *)

(** What a search found is a match of the pattern at its start, in the
    same text and not before the position the search began at. *)
Lemma searchFrom_run (ml : bool) (r : regex) :
  forall aft bef m,
    searchFrom ml r bef aft = Some m ->
    run ml r (start m) [] (fun c' cs' => Some (c', cs')) = Some (stop m, groups m)
    /\ List.length bef <= position (start m)
    /\ subject (start m) = rev bef ++ aft.
Proof.
  induction aft as [|a aft IH]; intros bef m H; simpl in H.
  - destruct (run ml r {| before := bef; after := [] |} [] _) as [[c' cs']|] eqn:Hrun;
      [| discriminate].
    injection H as <-. conjuncts; [exact Hrun | unfold position; simpl; lia | reflexivity].
  - destruct (run ml r {| before := bef; after := a :: aft |} [] _) as [[c' cs']|] eqn:Hrun.
    + injection H as <-.
      conjuncts; [exact Hrun | unfold position; simpl; lia | reflexivity].
    + apply IH in H. destruct H as (Hrun' & Hle & Hsubject).
      conjuncts; [exact Hrun' | simpl in Hle; lia |].
      rewrite Hsubject. simpl. rewrite <- app_assoc. reflexivity.
Qed.

(** A match ends where it starts or later, in the same text. *)
Lemma found_is_ordered (ml : bool) (r : regex) (bef aft : chars) (m : found) :
  searchFrom ml r bef aft = Some m ->
  List.length bef <= position (start m)
  /\ position (start m) <= position (stop m)
  /\ subject (stop m) = rev bef ++ aft.
Proof.
  intros H. apply searchFrom_run in H. destruct H as (Hrun & Hle & Hsubject).
  apply run_reaches in Hrun. destruct Hrun as (c' & cs' & Hk & Hle' & Hsubject').
  injection Hk as -> _. conjuncts; [exact Hle | exact Hle' | congruence].
Qed.

Lemma subject_length (c : cursor) :
  List.length (subject c) = position c + List.length (after c).
Proof. unfold subject, position. rewrite length_app, length_rev. reflexivity. Qed.

(** The fuel of the loop over all the matches is enough as well. *)
Theorem matches_need_no_more_fuel (ml : bool) (r : regex) :
  forall fuel1 fuel2 c,
    List.length (after c) < fuel1 -> List.length (after c) < fuel2 ->
    allFrom ml r fuel1 c = allFrom ml r fuel2 c.
Proof.
  induction fuel1 as [|fuel1 IH]; intros fuel2 c H1 H2; [lia |].
  destruct fuel2 as [|fuel2]; [lia |]. cbn [allFrom].
  destruct (searchFrom ml r (before c) (after c)) as [m|] eqn:Hsearch; [| reflexivity].
  destruct (found_is_ordered _ _ _ _ _ Hsearch) as (Hstart & Hstop & Hsubject).
  assert (Hlen : position (stop m) + List.length (after (stop m))
                 = position c + List.length (after c)).
  { rewrite <- !subject_length. f_equal. exact Hsubject. }
  unfold position in *.
  destruct (Nat.ltb (List.length (before (start m))) (List.length (before (stop m))))
    eqn:Hlt.
  - apply Nat.ltb_lt in Hlt. f_equal. apply IH; lia.
  - destruct (after (stop m)) as [|a rest] eqn:Hafter; [reflexivity |].
    f_equal. apply IH; cbn [after]; simpl in Hlen; lia.
Qed.

Lemma l2s_cons_nonempty (a : ascii) (l : JS.chars) : JS.l2s (a :: l) <> "".
Proof. discriminate. Qed.


End RegexFacts.

(* ================================================================== *)
(** * The parsers on the declarations of the specification *)
(* ================================================================== *)

Module ParserExamples.

(** An instance method with one object parameter: selector [foo:], one
    parameter [bar] of type [NSObject], return type [void]. *)
Example instance_method_with_one_parameter :
  parseMethodSignature "- (void)foo:(NSObject *)bar;"
  = Ok {| sig_isClassMethod := false; sig_returnType := "void"; sig_name := "foo:";
          sig_parameters := [{| param_name := "bar"; param_type := "NSObject";
                                param_isNullable := false; param_documentation := "" |}];
          sig_availability := "" |}.
Proof. by_evaluation. Qed.

(** [+ (instancetype)shared;]: no colon, no parameter, a class method. *)
Example class_method_without_parameter :
  parseMethodSignature "+ (instancetype)shared;"
  = Ok {| sig_isClassMethod := true; sig_returnType := "instancetype";
          sig_name := "shared"; sig_parameters := []; sig_availability := "" |}.
Proof. by_evaluation. Qed.

(** A declaration without a parenthesised return type is refused. *)
Example missing_return_type_is_refused :
  parseMethodSignature "- foo;"
  = Throw "Failed to parse return type from signature: - foo".
Proof. by_evaluation. Qed.

(** The availability macro loses its last parenthesis to the pattern
    and gets it back. *)
Example availability_is_rebalanced :
  parseAvailability "+ (id)make API_AVAILABLE(macos(10.12));" = "macos(10.12)".
Proof. by_evaluation. Qed.

(** [@property (nonatomic, readonly) NSInteger count;] *)
Example readonly_count_property :
  parsePropertyDeclaration "@property (nonatomic, readonly) NSInteger count;"
  = (Ok {| prop_name := "count"; prop_type := "NSInteger"; isReadOnly := true;
           isNullable := false; prop_documentation := "";
           attributes := ["nonatomic"; "readonly"] |}, []).
Proof. by_evaluation. Qed.

(** A block-typed property has no last word before the end. *)
Example block_property_fails_to_parse :
  parsePropertyBody "@property (readonly) void (^handler)(void);"
  = Throw "Failed to extract property name from: void (^handler)(void)".
Proof. by_evaluation. Qed.

End ParserExamples.

(* ================================================================== *)
(** * C4: colons of the selector and length of the parameter list *)
(* ================================================================== *)

Module SelectorArity.

(** A method whose parameter is a block: the nested parentheses of the
    block type defeat the parameter pattern, while the label pattern
    still finds [setHandler:]. *)
Definition blockSetter : string := "- (void)setHandler:(void (^)(int))handler;".

(** A declaration followed by a macro that mentions a label. *)
Definition renamedMethod : string := "- (void)foo:(int)a NS_SWIFT_NAME(foo(a:));".

(** C4, at a declaration the parser accepts: the reassembled selector
    of [- (void)setHandler:(void (^)(int))handler;] is [setHandler:], with
    one colon, and the produced parameter list is empty.  The number of
    colons is therefore not the number of parameters, and a selector with
    a colon comes with an empty parameter list. *)
Theorem accepted_declaration_with_one_colon_and_no_parameter :
  exists method,
    parseMethodSignature blockSetter = Ok method
    /\ sig_name method = "setHandler:"
    /\ colonCount (sig_name method) = 1
    /\ sig_parameters method = []
    /\ colonCount (sig_name method) <> List.length (sig_parameters method).
Proof.
  eexists. split; [by_evaluation |].
  cbn [sig_name sig_parameters]. conjuncts; try by_evaluation.
  vm_compute. discriminate.
Qed.

(** The other way round: a label inside a trailing macro adds a colon
    to the selector of a one-parameter method. *)
Example macro_label_adds_a_colon :
  exists method,
    parseMethodSignature renamedMethod = Ok method
    /\ sig_name method = "foo:a:"
    /\ colonCount (sig_name method) = 2
    /\ List.length (sig_parameters method) = 1.
Proof. eexists. split; [by_evaluation |]. conjuncts; by_evaluation. Qed.

(** Where the two patterns agree the invariant holds: each of the
    declarations of the specification has as many colons as parameters. *)
Example colons_match_parameters_on_plain_declarations :
  Forall (fun declaration =>
            exists method,
              parseMethodSignature declaration = Ok method
              /\ colonCount (sig_name method) = List.length (sig_parameters method))
    ["- (void)foo:(NSObject *)bar;";
     "+ (instancetype)shared;";
     "- (instancetype)initWithFrame:(NSRect)frame andFlags:(int)flags;";
     "+ (instancetype)buttonWithTitle:(NSString *)title image:(nullable NSImage *)image target:(nullable id)target action:(nullable SEL)action API_AVAILABLE(macos(10.12));"].
Proof.
  repeat (apply Forall_cons || apply Forall_nil);
    eexists; (split; [by_evaluation | by_evaluation]).
Qed.

End SelectorArity.

(* ================================================================== *)
(** * C7: [@param] and [@return] on one line or on several *)
(* ================================================================== *)

Module DocLayout.

Definition nl : string := String DocPatterns.LF "".

Definition paramTag : string := "@param x the x value".
Definition returnTag : string := "@return the sum".


(** The two tags on one physical line, and on two. *)
Definition onOneLine : string := (paramTag ++ " " ++ returnTag)%string.











(** The two forms take the two branches of the parser. *)
Example one_line_is_the_inline_form :
  docLines ("/*! " ++ onOneLine ++ " */") = [onOneLine]
  /\ docLines ("/*!" ++ nl ++ " * " ++ paramTag ++ nl ++ " * " ++ returnTag ++ nl ++ "*/")
     = [paramTag; returnTag].
Proof. split; by_evaluation. Qed.

(** No tag, no failure: empty values. *)
Example documentation_without_tags :
  parseDocumentation "/*! A button. */"
  = {| mainDoc := "A button."; paramDocs := []; returnDoc := "" |}
  /\ parseDocumentation "" = {| mainDoc := ""; paramDocs := []; returnDoc := "" |}.
Proof. split; by_evaluation. Qed.

(** A closing marker that is indented on a line of its own loses its
    asterisk to the pattern of the leading asterisks and leaves a line
    with a slash: with each tag on its own line the parameter map and the
    return description are as before and the slash goes to the main
    description. *)
Example indented_closing_marker :
  parseDocumentation
    ("/*!" ++ nl ++ " * " ++ paramTag ++ nl ++ " * " ++ returnTag ++ nl ++ " */")
  = {| mainDoc := "/"; paramDocs := [("x", "the x value")]; returnDoc := "the sum" |}.
Proof. by_evaluation. Qed.

End DocLayout.

(* ================================================================== *)
(** * C3: what the converters do with a name their table lacks *)
(* ================================================================== *)

Module TypeMapping.

(** The opaque reference type of each converter is what its table gives
    for [id]. *)
Definition interfaceOpaque : TsType := TsText "any".
Definition classOpaque : TsType := TsText "id".

Example opaque_types_are_the_images_of_id :
  convertTypeToTypeScript "id" false = interfaceOpaque
  /\ convertObjCTypeToTypeScriptString "id" = classOpaque.
Proof. split; by_evaluation. Qed.





(** The class-emission converter answers for every input: [void] for
    the empty name, a table entry, the opaque type, or (for the twelve
    names every object inherits) the inherited member. *)
Lemma class_converter_cases (objcType : string) :
  convertObjCTypeToTypeScriptString objcType = TsText "void"
  \/ (exists mapped,
        Obj.getOwn (cleanTypeName objcType) classTypeMap = Some mapped
        /\ convertObjCTypeToTypeScriptString objcType
           = TsText (if hasNullabilityMarker objcType
                     then (mapped ++ " | null")%string else mapped))
  \/ convertObjCTypeToTypeScriptString objcType
     = TsText (if hasNullabilityMarker objcType then "id | null" else "id")
  \/ (Obj.isInherited (cleanTypeName objcType) = true
      /\ convertObjCTypeToTypeScriptString objcType
         = TsProto (cleanTypeName objcType) (hasNullabilityMarker objcType)).
Proof.
  unfold convertObjCTypeToTypeScriptString, Obj.get.
  destruct (nonEmpty objcType); cbn [negb]; [| left; reflexivity].
  destruct (Obj.getOwn (cleanTypeName objcType) classTypeMap) as [mapped|] eqn:Hown.
  - right; left. exists mapped. split; reflexivity.
  - destruct (Obj.isInherited (cleanTypeName objcType)) eqn:Hin.
    + right; right; right. split; reflexivity.
    + right; right; left. reflexivity.
Qed.

End TypeMapping.

(* ================================================================== *)
(** * C6: the property parser contains its failures *)
(* ================================================================== *)

Module PropertyFailure.

(** C6: for every input string the property-declaration parser returns
    a property and never raises; when the parse fails it logs the warning
    (two lines: the declaration, then the reason) and returns the minimal
    property: empty name, type [id], not read-only, not nullable, no
    attribute; when the parse succeeds it returns the parsed property and
    logs nothing. *)
Theorem property_parser_never_raises (declaration : string) :
  exists property warnings,
    parsePropertyDeclaration declaration = (Ok property, warnings)
    /\ (forall message,
           parsePropertyBody declaration = Throw message ->
           property = {| prop_name := ""; prop_type := "id"; isReadOnly := false;
                         isNullable := false; prop_documentation := "";
                         attributes := [] |}
           /\ warnings = [("Error parsing property declaration: "
                             ++ cleanDeclaration declaration)%string; message])
    /\ (forall parsed,
           parsePropertyBody declaration = Ok parsed ->
           property = parsed /\ warnings = []).
Proof.
  unfold parsePropertyDeclaration, tryCatch.
  destruct (parsePropertyBody declaration) as [parsed | message].
  - exists parsed, []. conjuncts; [reflexivity | discriminate |].
    intros parsed' H. injection H as <-. split; reflexivity.
  - eexists _, _. conjuncts; [reflexivity | | discriminate].
    intros message' H. injection H as <-. split; reflexivity.
Qed.

Lemma property_parser_never_raises_witness :
  exists warnings,
    parsePropertyDeclaration "@property (readonly) void (^handler)(void);"
    = (Ok minimalProperty, warnings)
    /\ warnings <> [].
Proof.
  destruct (property_parser_never_raises "@property (readonly) void (^handler)(void);")
    as (property & warnings & Hresult & Hfailure & _).
  destruct (Hfailure "Failed to extract property name from: void (^handler)(void)")
    as [Hproperty Hwarnings]; [vm_compute; reflexivity |].
  exists warnings. rewrite Hresult, Hproperty, Hwarnings.
  split; [reflexivity | discriminate].
Defined.

(** Inputs on which the parse fails, and what is logged. *)
Example failures_are_logged :
  parsePropertyDeclaration "@property;"
  = (Ok minimalProperty,
     ["Error parsing property declaration: @property";
      "Failed to extract basic property declaration from: @property"])
  /\ parsePropertyDeclaration ""
     = (Ok minimalProperty,
        ["Error parsing property declaration: ";
         "Failed to extract basic property declaration from: "]).
Proof. split; by_evaluation. Qed.

End PropertyFailure.

(* ================================================================== *)
(** * C9: the imports of a generated file *)
(* ================================================================== *)

Module Imports.

Definition nl : string := String DocPatterns.LF "".

(** A class of the extraction set with the given name. *)
Definition inExtractionSet (n : string) (extracted : list ObjCClass) : bool :=
  existsb (fun d => String.eqb (class_name d) n) extracted.

(** A header that declares one class whose superclass it does not
    declare. *)
Definition buttonHeader : string :=
  ("@interface NSButton : NSControl" ++ nl
   ++ "@property (readonly) NSInteger tag;" ++ nl
   ++ "@end" ++ nl)%string.

(** C9 as stated fails: the only class extracted from the header is
    [NSButton]; its superclass [NSControl] is not in the extraction set,
    and the generated file imports [./NSControl.ts] all the same. *)
Lemma superclass_import_without_the_superclass_in_the_set :
  exists c,
    parseObjCHeaderFile buttonHeader = [c]
    /\ class_name c = "NSButton"
    /\ superclass c = "NSControl"
    /\ inExtractionSet (superclass c) (parseObjCHeaderFile buttonHeader) = false
    /\ In {| defaultImport := None; namedImports := ["NSControl"];
             moduleSpecifier := "./NSControl.ts" |}
          (imports (Main.generateFile c)).
Proof.
  eexists. split; [by_evaluation |].
  conjuncts; [reflexivity | reflexivity | by_evaluation |].
  vm_compute. right; right; left. reflexivity.
Qed.

Lemma superclassImport_not_a_bridge_import (s : string) :
  ~ In (Main.superclassImport s) Main.bridgeImports.
Proof.
  unfold Main.bridgeImports, Main.superclassImport. simpl.
  intros [H | [H | []]]; discriminate H.
Qed.

Lemma nonEmpty_true_iff (s : string) : nonEmpty s = true <-> s <> "".
Proof.
  unfold nonEmpty. destruct (String.eqb s "") eqn:E; simpl.
  - apply String.eqb_eq in E. split; [discriminate | intros H; contradiction].
  - apply String.eqb_neq in E. split; [intros _; exact E | reflexivity].
Qed.

Lemma imports_characterised (bridge : list ImportDeclaration) (s : string)
  (i : ImportDeclaration) :
  In i (bridge ++ (if nonEmpty s then [Main.superclassImport s] else []))
  <-> In i bridge \/ (s <> "" /\ i = Main.superclassImport s).
Proof.
  rewrite in_app_iff. destruct (nonEmpty s) eqn:E.
  - apply nonEmpty_true_iff in E. simpl. split.
    + intros [H | [H | []]]; [left; exact H | right; split; [exact E | symmetry; exact H]].
    + intros [H | [_ H]]; [left; exact H | right; left; symmetry; exact H].
  - assert (Hs : ~ s <> "").
    { intros H. apply nonEmpty_true_iff in H. congruence. }
    simpl. split.
    + intros [H | []]. left; exact H.
    + intros [H | [H _]]; [left; exact H | contradiction].
Qed.

(** C9, amended: the generated file of every class imports the bridge
    ([objc], and [id] from [../objc.ts]); it imports the superclass's
    generated module [./Super.ts] if and only if the class has a
    non-empty superclass name, whether or not that superclass is in the
    extraction set; and it imports nothing else.  The same holds for
    [buildFile]. *)
Theorem imports_of_a_generated_file :
  (forall c : ObjCClass,
      (forall i, In i Main.bridgeImports -> In i (imports (Main.generateFile c)))
      /\ (In (Main.superclassImport (superclass c)) (imports (Main.generateFile c))
          <-> superclass c <> "")
      /\ (forall i, In i (imports (Main.generateFile c)) ->
                    In i Main.bridgeImports \/ i = Main.superclassImport (superclass c)))
  /\ (forall toTypeScriptType Init initParameters initCondition initSelector
             MethodRef methodName buildMethod
             (classRef : Build.ClassRef Init MethodRef),
         let file := fst (Build.buildFile toTypeScriptType initParameters
                            initCondition initSelector methodName
                            buildMethod classRef) in
         (forall i, In i Main.bridgeImports -> In i (imports file))
         /\ (In (Main.superclassImport (Build.ref_superclass classRef)) (imports file)
             <-> Build.ref_superclass classRef <> "")
         /\ (forall i, In i (imports file) ->
                       In i Main.bridgeImports
                       \/ i = Main.superclassImport (Build.ref_superclass classRef))).
Proof.
  assert (Hgeneric : forall s,
    (forall i, In i Main.bridgeImports ->
               In i (Main.bridgeImports
                     ++ (if nonEmpty s then [Main.superclassImport s] else [])))
    /\ (In (Main.superclassImport s)
           (Main.bridgeImports ++ (if nonEmpty s then [Main.superclassImport s] else []))
        <-> s <> "")
    /\ (forall i, In i (Main.bridgeImports
                        ++ (if nonEmpty s then [Main.superclassImport s] else [])) ->
                  In i Main.bridgeImports \/ i = Main.superclassImport s)).
  { intros s. conjuncts.
    - intros i H. apply imports_characterised. left; exact H.
    - rewrite imports_characterised. split.
      + intros [H | [H _]]; [| exact H].
        exfalso. exact (superclassImport_not_a_bridge_import s H).
      + intros H. right. split; [exact H | reflexivity].
    - intros i H. apply imports_characterised in H.
      destruct H as [H | [_ H]]; [left | right]; exact H. }
  split.
  - intros c. exact (Hgeneric (superclass c)).
  - intros toTypeScriptType Init initParameters initCondition initSelector
           MethodRef methodName buildMethod classRef file.
    assert (Himports : imports file = Build.fileImports classRef).
    { unfold file, Build.buildFile.
      destruct (Build.buildClass _ _ _ _ _ _ classRef). reflexivity. }
    rewrite Himports. exact (Hgeneric (Build.ref_superclass classRef)).
Qed.

Lemma imports_of_a_generated_file_witness :
  In (Main.superclassImport "NSControl")
     (imports (Main.generateFile
                 {| class_name := "NSButton"; superclass := "NSControl"; protocols := [];
                    properties := []; methods := []; class_documentation := "";
                    class_availability := "" |})).
Proof.
  apply (proj1 (proj2 (proj1 imports_of_a_generated_file
                         {| class_name := "NSButton"; superclass := "NSControl";
                            protocols := []; properties := []; methods := [];
                            class_documentation := ""; class_availability := "" |}))).
  discriminate.
Defined.

End Imports.

(* ================================================================== *)
(** * Facts about the emitted members *)
(* ================================================================== *)

Module MemberFacts.

(** Emitting the method groups only adds members. *)
Lemma emitGroups_extends (c : ObjCClass) :
  forall groups soFar all,
    Main.emitGroups c groups soFar = Ok all -> exists added, all = soFar ++ added.
Proof.
  induction groups as [|[key methods] groups IH]; intros soFar all H; simpl in H.
  - injection H as <-. exists []. rewrite app_nil_r. reflexivity.
  - destruct (Main.emitGroup c soFar key methods) as [added | message];
      simpl in H; [| discriminate].
    apply IH in H. destruct H as (more & ->).
    exists (added ++ more). rewrite app_assoc. reflexivity.
Qed.

(** Whatever happens to the methods, the generated class keeps the
    members it had before them. *)
Lemma members_before_methods_are_kept (c : ObjCClass) (m : Member) :
  In m (Main.membersBeforeMethods c) -> In m (members (Main.generateClass c)).
Proof.
  intros H. unfold Main.generateClass, Main.classMembers. cbn [members].
  destruct (Main.groupMethods (methods c) []) as [groups | message]; simpl.
  - destruct (Main.emitGroups c (Obj.entries groups) (Main.membersBeforeMethods c))
      as [all | message] eqn:E; simpl; [| exact H].
    apply emitGroups_extends in E. destruct E as (added & ->).
    apply in_or_app. left; exact H.
  - exact H.
Qed.


(** ** Where the members of the method groups come from *)

Lemma getOwn_In {V} (k : string) (v : V) (o : Obj.t V) :
  Obj.getOwn k o = Some v -> In (k, v) o.
Proof.
  induction o as [|[k' v'] o IH]; simpl; [discriminate |].
  destruct (String.eqb k k') eqn:E.
  - apply String.eqb_eq in E. intros H. injection H as ->. left. subst. reflexivity.
  - intros H. right. exact (IH H).
Qed.

Lemma set_In {V} (k : string) (v : V) (o : Obj.t V) (e : string * V) :
  In e (Obj.set k v o) -> e = (k, v) \/ In e o.
Proof.
  induction o as [|[k' v'] o IH]; simpl.
  - intros [<- | []]. left. reflexivity.
  - destruct (String.eqb k k'); simpl.
    + intros [<- | H]; [left; reflexivity | right; right; exact H].
    + intros [<- | H]; [right; left; reflexivity |].
      destruct (IH H) as [-> | H']; [left; reflexivity | right; right; exact H'].
Qed.

Lemma insertIndexed_In {V} (n : N) (e : string * V) (l : list (N * (string * V)))
  (x : N * (string * V)) :
  In x (Obj.insertIndexed n e l) -> x = (n, e) \/ In x l.
Proof.
  induction l as [|[m e'] l IH]; simpl.
  - intros [<- | []]. left. reflexivity.
  - destruct (n <? m)%N; simpl.
    + intros [<- | H]; [left; reflexivity | right; exact H].
    + intros [<- | H]; [right; left; reflexivity |].
      destruct (IH H) as [-> | H']; [left; reflexivity | right; right; exact H'].
Qed.

(** [Object.entries] lists own properties only. *)
Lemma entries_In {V} (o : Obj.t V) (e : string * V) :
  In e (Obj.entries o) -> In e o.
Proof.
  unfold Obj.entries. intros H. apply in_app_or in H. destruct H as [H | H].
  - apply in_map_iff in H. destruct H as ([n e'] & <- & H). simpl.
    unfold Obj.indexed in H.
    assert (Hgen : forall (l : list (string * V)) acc,
      (forall x, In x acc -> In (snd x) o) ->
      (forall y, In y l -> In y o) ->
      forall x,
        In x (fold_left (fun acc e0 =>
                           match Obj.arrayIndex (fst e0) with
                           | Some n0 => Obj.insertIndexed n0 e0 acc
                           | None => acc
                           end) l acc) ->
        In (snd x) o).
    { induction l as [|y l IHl]; intros acc Hacc Hl x Hx; simpl in Hx.
      - exact (Hacc x Hx).
      - apply (IHl _) in Hx; [exact Hx | | intros z Hz; apply Hl; right; exact Hz].
        intros z Hz. destruct (Obj.arrayIndex (fst y)).
        + apply insertIndexed_In in Hz. destruct Hz as [-> | Hz].
          * simpl. apply Hl. left. reflexivity.
          * exact (Hacc z Hz).
        + exact (Hacc z Hz). }
    exact (Hgen o [] (fun x Hx => match Hx with end) (fun y Hy => Hy) (n, e') H).
  - apply filter_In in H. exact (proj1 H).
Qed.




(** ** The method groups are emitted, each of them *)



(** No group is empty. *)
Lemma groupMethods_nonempty :
  forall (ms : list ObjCMethod) acc groups,
    Main.groupMethods ms acc = Ok groups ->
    (forall key g, In (key, g) acc -> g <> []) ->
    forall key g, In (key, g) groups -> g <> [].
Proof.
  induction ms as [|method ms IH]; intros acc groups H Hacc key g Hg; simpl in H.
  - injection H as <-. exact (Hacc key g Hg).
  - destruct (startsWith (name method) "init"); [exact (IH _ _ H Hacc key g Hg) |].
    destruct (Obj.get (Main.methodKey method) acc) as [group | |];
      [| discriminate |];
      refine (IH _ _ H _ key g Hg);
      intros key' g' Hin; apply set_In in Hin;
      (destruct Hin as [Heq | Hin]; [| exact (Hacc key' g' Hin)]);
      injection Heq as _ ->.
    + destruct group; discriminate.
    + discriminate.
Qed.

(** Groups without an empty one are emitted without exception. *)
Lemma emitGroups_ok (c : ObjCClass) :
  forall groups soFar,
    (forall key g, In (key, g) groups -> g <> []) ->
    exists all, Main.emitGroups c groups soFar = Ok all.
Proof.
  induction groups as [|[key g] groups IH]; intros soFar Hnonempty; simpl.
  - exists soFar. reflexivity.
  - assert (Hadded : exists added, Main.emitGroup c soFar key g = Ok added).
    { unfold Main.emitGroup. destruct g as [|first others].
      - exfalso. apply (Hnonempty key []); [left; reflexivity | reflexivity].
      - destruct (Main.isSetterMethod first);
          [destruct (existsb _ soFar) |
           destruct (Nat.ltb 1 (List.length (first :: others)))];
          eexists; reflexivity. }
    destruct Hadded as (added & ->). simpl.
    apply IH. intros key' g' Hin. apply (Hnonempty key' g'). right. exact Hin.
Qed.


End MemberFacts.

(* ================================================================== *)
(** * C10: the class object, the pointer and the constructor *)
(* ================================================================== *)

Module PointerSetup.
Import Construct.

(** [objc.msgSend(objc.msgSend(Name.Class, "alloc"), selector)] *)
Definition allocThenInit (className selector : string) : Expr :=
  MsgSend (MsgSend (ClassObject className) (quoted "alloc")) selector.

(** A class has a constructor that leaves [pointer] set to the result of
    an init selector sent to the allocated object, in every call. *)
Definition constructorAlwaysSetsPointer (declaration : ClassDeclaration) : Prop :=
  exists scope parameters overloads body,
    In (Constructor scope parameters overloads body) (members declaration)
    /\ forall holds, exists selector,
         pointer (run holds body) = Some (allocThenInit (cd_name declaration) selector).

(** An initializer as [buildClass] reads it: the text of its selector
    and the names of its parameters. *)
Definition Initializer : Type := string * list string.



(** A view with the one initializer [initWithFrame:]. *)
Definition framedView : Build.ClassRef Initializer ObjCMethod :=
  {| Build.ref_name := "NSView"; Build.ref_superclass := "NSResponder";
     Build.ref_properties := [];
     Build.ref_inits := [(quoted "initWithFrame:", ["frame"])];
     Build.ref_methods := [] |}.

(** The constructor [buildClass] writes for it. *)
Example constructor_of_framedView :
  renderBody (Build.constructorBody (fun init => join " || " (snd init)) fst framedView)
  = ["super();";
     ("const memory = objc.msgSend(NSView.Class, " ++ quoted "alloc" ++ ")")%string;
     "if (frame) {";
     ("    this.pointer = objc.msgSend(memory, " ++ quoted "initWithFrame:" ++ ");")%string;
     "}"].
Proof. by_evaluation. Qed.






(** The classes [main] generates have the property of the claim. *)
Lemma main_constructor_always_sets_pointer (c : ObjCClass) :
  constructorAlwaysSetsPointer (Main.generateClass c).
Proof.
  exists Public, [], [], (Main.constructorBody c). split.
  - apply MemberFacts.members_before_methods_are_kept.
    unfold Main.membersBeforeMethods. apply in_or_app. right.
    apply in_or_app. right. left. reflexivity.
  - intros holds. exists (quoted "init"). reflexivity.
Qed.


End PointerSetup.

(* ================================================================== *)
(** * C5: a read-only property gets a getter and no setter *)
(* ================================================================== *)

Module ReadOnly.












Definition nl : string := String DocPatterns.LF "".







End ReadOnly.

(* ================================================================== *)
(** * What the implementation of an overload group does *)
(* ================================================================== *)

Module DispatchFacts.
Import Dispatch.

(** The chain takes the first branch whose arity is the number of
    collected arguments. *)
Lemma runChain_first_match (target message : string) (allArgs : list Value) :
  forall group : list ObjCMethod,
    runChain (map (Main.branchOf target) group) message allArgs
    = match find (fun method =>
                    Nat.eqb (List.length allArgs) (List.length (parameters method)))
                 group with
      | Some method => Sent target (Main.methodNameWithColons method) allArgs
      | None => Raised message
      end.
Proof.
  induction group as [|method group IH]; [reflexivity |].
  cbn [map runChain find Main.branchOf arity Dispatch.target selector].
  destruct (Nat.eqb (List.length allArgs) (List.length (parameters method)));
    [reflexivity | exact IH].
Qed.

(** The value a name is bound to, [undefined] when it is not bound. *)
Definition valueOf (env : Env) (x : string) : Value :=
  match lookupVar x env with Some v => v | None => Undefined end.

Definition defined (v : Value) : bool := negb (isUndefined v).

(** The guarded [unshift]s put the defined values in front, the last
    one first. *)
Lemma run_unshifts (env : Env) (args : list Value) (rest : list Stmt) :
  forall (names : list string) (l : list Value),
    (forall x, In x names -> lookupVar x env <> None) ->
    run (map UnshiftIfDefined names ++ rest) env args (Some l)
    = run rest env args (Some (rev (filter defined (map (valueOf env) names)) ++ l)).
Proof.
  induction names as [|x names IH]; intros l Hbound; [reflexivity |].
  cbn [map app run]. unfold valueOf at 1.
  destruct (lookupVar x env) as [v|] eqn:Hx.
  - rewrite IH by (intros y Hy; apply Hbound; right; exact Hy).
    cbn [filter]. unfold defined at 2.
    destruct (isUndefined v); cbn [negb rev]; [reflexivity |].
    rewrite <- app_assoc. reflexivity.
  - exfalso. apply (Hbound x); [left; reflexivity | exact Hx].
Qed.

Lemma lookupVar_bound (names : list string) :
  forall actuals x, In x names -> lookupVar x (bindParameters names actuals) <> None.
Proof.
  induction names as [|y names IH]; intros actuals x Hin; [destruct Hin |].
  cbn [bindParameters lookupVar].
  destruct (String.eqb x y) eqn:E; [discriminate |].
  destruct Hin as [-> | Hin]; [rewrite String.eqb_refl in E; discriminate |].
  apply IH. exact Hin.
Qed.

(** With distinct names every parameter reads the argument at its own
    position. *)
Lemma values_of_distinct_parameters (names : list string) :
  forall actuals,
    distinct names = true ->
    map (valueOf (bindParameters names actuals)) names
    = map snd (bindParameters names actuals).
Proof.
  induction names as [|y names IH]; intros actuals Hdistinct; [reflexivity |].
  cbn [distinct] in Hdistinct. apply andb_true_iff in Hdistinct.
  destruct Hdistinct as [Hfresh Hdistinct].
  cbn [bindParameters map snd]. f_equal.
  - unfold valueOf. cbn [lookupVar]. rewrite String.eqb_refl. reflexivity.
  - rewrite <- (IH (tl actuals) Hdistinct). apply map_ext_in.
    intros x Hx. unfold valueOf. cbn [lookupVar].
    destruct (String.eqb x y) eqn:E; [| reflexivity].
    apply String.eqb_eq in E. subst x.
    apply negb_true_iff in Hfresh.
    assert (Hex : existsb (String.eqb y) names = true).
    { apply existsb_exists. exists y. split; [exact Hx | apply String.eqb_refl]. }
    congruence.
Qed.

Lemma distinct_app_left (l1 l2 : list string) :
  distinct (l1 ++ l2) = true -> distinct l1 = true.
Proof.
  induction l1 as [|x l1 IH]; [reflexivity |].
  cbn [app distinct]. intros H. apply andb_true_iff in H. destruct H as [Hfresh H].
  apply andb_true_iff. split; [| exact (IH H)].
  apply negb_true_iff. apply negb_true_iff in Hfresh.
  rewrite existsb_app in Hfresh. apply orb_false_iff in Hfresh. tauto.
Qed.

(** The arguments the implementation collects from a call: the defined
    named ones, the last first, then the rest. *)
Definition collected (named : list string) (actuals : list Value) : list Value :=
  rev (filter defined (map snd (bindParameters named actuals)))
  ++ skipn (List.length named) actuals.

(** The dispatch of every overload group (with well-formed parameter
    names): the first member, in declaration order, whose parameter count
    is the number of collected arguments is sent with its selector; when
    there is none, the error names the base method.  The collected
    arguments are not in the caller's order: the named ones come
    reversed. *)
Theorem dispatch_of_an_overload_group (c : ObjCClass) (isStatic : bool)
  (baseMethodName : string) (group : list ObjCMethod) (actuals : list Value) :
  let named := Main.namedParameters (Main.implementationParameters group) in
  distinct (named ++ ["args"; "allArgs"]) = true ->
  call named (Main.implementationBody c isStatic baseMethodName group named) actuals
  = match find (fun method =>
                  Nat.eqb (List.length (collected named actuals))
                          (List.length (parameters method)))
               group with
    | Some method =>
        Sent (Main.dispatchTarget c isStatic) (Main.methodNameWithColons method)
             (collected named actuals)
    | None => Raised ("Invalid number of arguments for method " ++ baseMethodName)
    end.
Proof.
  intros named Hdistinct. unfold call. rewrite Hdistinct.
  unfold Main.implementationBody. cbn [app run].
  assert (Hnamed : distinct named = true) by exact (distinct_app_left _ _ Hdistinct).
  assert (Hchain : forall l,
    run [ArityChain (map (Main.branchOf (Main.dispatchTarget c isStatic)) group)
           ("Invalid number of arguments for method " ++ baseMethodName)]
        (bindParameters named actuals) (skipn (List.length named) actuals) (Some l)
    = match find (fun method =>
                    Nat.eqb (List.length l) (List.length (parameters method)))
                 group with
      | Some method =>
          Sent (Main.dispatchTarget c isStatic) (Main.methodNameWithColons method) l
      | None => Raised ("Invalid number of arguments for method " ++ baseMethodName)
      end).
  { intros l. cbn [run]. apply runChain_first_match. }
  destruct named as [|x named'] eqn:Enamed.
  - cbn [app]. rewrite Hchain. reflexivity.
  - rewrite <- Enamed in *. cbn [app run].
    rewrite run_unshifts by (intros y Hy; apply lookupVar_bound; exact Hy).
    rewrite Hchain. unfold collected.
    rewrite (values_of_distinct_parameters named actuals Hnamed). reflexivity.
Qed.


(** A parameter without an argument is [undefined] and is not collected. *)
Lemma defined_values_of_parameters (names : list string) :
  forall actuals,
    filter defined (map snd (bindParameters names actuals))
    = filter defined (firstn (List.length names) actuals).
Proof.
  induction names as [|x names IH]; intros actuals; [reflexivity |].
  cbn [bindParameters map snd List.length].
  destruct actuals as [|v actuals]; cbn [hd tl firstn filter].
  - rewrite IH. destruct (List.length names); reflexivity.
  - rewrite IH. reflexivity.
Qed.



End DispatchFacts.

(* ================================================================== *)
(** * C1: the dispatch of an overload group *)
(* ================================================================== *)

Module ArgumentOrder.
Import Dispatch.

Definition nl : string := String DocPatterns.LF "".

(** A class with the overloads [foo:] and [foo:bar:]. *)
Definition thingHeader : string :=
  ("@interface NSThing : NSObject" ++ nl
   ++ "- (void)foo:(int)a;" ++ nl
   ++ "- (void)foo:(int)a bar:(int)b;" ++ nl
   ++ "@end" ++ nl)%string.

Definition parameterOf (type n : string) : ObjCParameter :=
  {| param_name := n; param_type := type; param_isNullable := false;
     param_documentation := "" |}.

Definition intParameter : string -> ObjCParameter := parameterOf "int".

Definition voidMethod (selector : string) (ps : list ObjCParameter) : ObjCMethod :=
  {| isClassMethod := false; returnType := "void"; name := selector; parameters := ps;
     documentation := ""; returnDocumentation := ""; availability := "" |}.

Definition thing : ObjCClass :=
  {| class_name := "NSThing"; superclass := "NSObject"; protocols := [];
     properties := [];
     methods := [voidMethod "foo:" [intParameter "a"];
                 voidMethod "foo:bar:" [intParameter "a"; intParameter "b"]];
     class_documentation := ""; class_availability := "" |}.

Example thing_is_extracted : parseObjCHeaderFile thingHeader = [thing].
Proof. by_evaluation. Qed.

(** The implementation generated for the group. *)
Example implementation_of_foo :
  option_map (fun f => (fst f, renderBody (snd f))) (Main.overloadImplementation thing "foo")
  = Some (["a"; "b"],
          ["// Determine which method to call based on arguments";
           "const allArgs = [...args];";
           "// Add named parameters to args array if they exist";
           "if (a !== undefined) allArgs.unshift(a);";
           "if (b !== undefined) allArgs.unshift(b);";
           "if (allArgs.length === 1) {";
           ("  return objc.msgSend(this.pointer, " ++ quoted "foo:" ++ ", ...allArgs);")%string;
           "}";
           "else if (allArgs.length === 2) {";
           ("  return objc.msgSend(this.pointer, " ++ quoted "foo:bar:" ++ ", ...allArgs);")%string;
           "}";
           "else {";
           ("  throw new Error(" ++ quoted "Invalid number of arguments for method foo" ++ ");")%string;
           "}"]).
Proof. by_evaluation. Qed.

(** ** A group that gets no implementation *)






(** ** The groups that get one *)



(** ** The order of the forwarded arguments *)

(** At the call [foo(1, 2)] of the method generated for the overloads
    [foo:] and [foo:bar:], the second member is chosen by its arity and its
    selector [foo:bar:] is sent, with the arguments [2, 1] and not in the
    caller's order [1, 2]: each named argument is put in front of the
    collected ones. *)
Theorem two_arguments_are_forwarded_reversed :
  Main.callOverload thing "foo" [Number 1; Number 2]
  = Some (Sent "this.pointer" "foo:bar:" [Number 2; Number 1])
  /\ Main.callOverload thing "foo" [Number 1; Number 2]
     <> Some (Sent "this.pointer" "foo:bar:" [Number 1; Number 2]).
Proof. split; [by_evaluation | vm_compute; discriminate]. Qed.

(** The first matching arity decides, and a call no arity matches
    raises the error that names the base method. *)
Example arity_selects_the_member :
  Main.callOverload thing "foo" [Number 7]
  = Some (Sent "this.pointer" "foo:" [Number 7])
  /\ Main.callOverload thing "foo" []
     = Some (Raised "Invalid number of arguments for method foo")
  /\ Main.callOverload thing "foo" [Number 1; Number 2; Number 3]
     = Some (Raised "Invalid number of arguments for method foo").
Proof. conjuncts; by_evaluation. Qed.

(** The method emitted for a single declaration passes its parameters
    in declaration order. *)
Example regular_method_keeps_the_order :
  Main.regularMethod thing false (voidMethod "foo:bar:" [intParameter "a"; intParameter "b"])
  = Method "foo" Public false (Converted (TsText "void"))
      [Main.convertedParameter (intParameter "a") false;
       Main.convertedParameter (intParameter "b") false]
      (Some [("return objc.msgSend(this.pointer, " ++ quoted "foo:bar:" ++ ", a, b);")%string]).
Proof. by_evaluation. Qed.

End ArgumentOrder.

(* ================================================================== *)
(** * C2: [initWithFrame:] and [initWithFrame:andFlags:] *)
(* ================================================================== *)

Module Initializers.
Import Dispatch.

Definition nl : string := String DocPatterns.LF "".

Definition initHeader : string :=
  ("@interface NSView : NSResponder" ++ nl
   ++ "- (instancetype)initWithFrame:(NSRect)frame;" ++ nl
   ++ "- (instancetype)initWithFrame:(NSRect)frame andFlags:(int)flags;" ++ nl
   ++ "@end" ++ nl)%string.

(** The same two declarations under a name that does not start with
    [init]. *)
Definition viewHeader : string :=
  ("@interface NSView : NSResponder" ++ nl
   ++ "- (instancetype)viewWithFrame:(NSRect)frame;" ++ nl
   ++ "- (instancetype)viewWithFrame:(NSRect)frame andFlags:(int)flags;" ++ nl
   ++ "@end" ++ nl)%string.

Definition extractedClass (header : string) : ObjCClass :=
  hd {| class_name := ""; superclass := ""; protocols := []; properties := [];
        methods := []; class_documentation := ""; class_availability := "" |}
     (parseObjCHeaderFile header).

Definition isMethod (m : Member) : bool :=
  match m with Method _ _ _ _ _ _ => true | _ => false end.

(** C2 as stated fails: the class extracted from the two declarations
    has the two methods [initWithFrame:] and [initWithFrame:andFlags:], with
    one and two parameters, but the grouping loop skips every method whose
    name starts with [init]: there is no overload set, the generated class
    has no method at all, and there is no dispatch to call. *)
Lemma initializers_are_not_grouped :
  map (fun method => (name method, List.length (parameters method)))
      (methods (extractedClass initHeader))
  = [("initWithFrame:", 1); ("initWithFrame:andFlags:", 2)]
  /\ Main.groupMethods (methods (extractedClass initHeader)) [] = Ok []
  /\ filter isMethod (members (Main.generateClass (extractedClass initHeader))) = []
  /\ Main.callOverload (extractedClass initHeader) "initWithFrame" [Number 1] = None.
Proof. conjuncts; by_evaluation. Qed.

Definition viewClass : ObjCClass := extractedClass viewHeader.

Example methods_of_viewClass :
  map (fun method => (name method, List.length (parameters method))) (methods viewClass)
  = [("viewWithFrame:", 1); ("viewWithFrame:andFlags:", 2)]
  /\ option_map (map (fun g => (fst g, map name (snd g))))
                (match Main.groupMethods (methods viewClass) [] with
                 | Ok groups => Some groups
                 | Throw _ => None
                 end)
     = Some [("viewWithFrame", ["viewWithFrame:"; "viewWithFrame:andFlags:"])].
Proof. split; by_evaluation. Qed.

Lemma callOverload_viewWithFrame (actuals : list Value) :
  Main.callOverload viewClass "viewWithFrame" actuals
  = Some (call ["frame"; "flags"]
               (Main.implementationBody viewClass false "viewWithFrame"
                  (methods viewClass) ["frame"; "flags"])
               actuals).
Proof.
  unfold Main.callOverload.
  assert (H : Main.overloadImplementation viewClass "viewWithFrame"
              = Some (["frame"; "flags"],
                      Main.implementationBody viewClass false "viewWithFrame"
                        (methods viewClass) ["frame"; "flags"]))
    by by_evaluation.
  rewrite H. reflexivity.
Qed.

(** C2, amended: methods whose name starts with [init] are left out of
    the grouping.  For the class extracted from the same two declarations
    under the names [viewWithFrame:] and [viewWithFrame:andFlags:], the
    generator makes one overload set, and its generated dispatch, called
    with one defined argument, sends the selector [viewWithFrame:]; with two,
    [viewWithFrame:andFlags:]; with three, it raises the error naming
    [viewWithFrame]. *)
Theorem dispatch_of_viewWithFrame (v1 v2 v3 : Value) :
  isUndefined v1 = false -> isUndefined v2 = false -> isUndefined v3 = false ->
  Main.callOverload viewClass "viewWithFrame" [v1]
  = Some (Sent "this.pointer" "viewWithFrame:" [v1])
  /\ Main.callOverload viewClass "viewWithFrame" [v1; v2]
     = Some (Sent "this.pointer" "viewWithFrame:andFlags:" [v2; v1])
  /\ Main.callOverload viewClass "viewWithFrame" [v1; v2; v3]
     = Some (Raised "Invalid number of arguments for method viewWithFrame").
Proof.
  intros H1 H2 H3. rewrite !callOverload_viewWithFrame.
  assert (Hmethods : methods viewClass
                     = [{| isClassMethod := false; returnType := "instancetype";
                           name := "viewWithFrame:";
                           parameters := [{| param_name := "frame"; param_type := "NSRect";
                                             param_isNullable := false;
                                             param_documentation := "" |}];
                           documentation := ""; returnDocumentation := "";
                           availability := "" |};
                        {| isClassMethod := false; returnType := "instancetype";
                           name := "viewWithFrame:andFlags:";
                           parameters := [{| param_name := "frame"; param_type := "NSRect";
                                             param_isNullable := false;
                                             param_documentation := "" |};
                                          {| param_name := "flags"; param_type := "int";
                                             param_isNullable := false;
                                             param_documentation := "" |}];
                           documentation := ""; returnDocumentation := "";
                           availability := "" |}])
    by by_evaluation.
  rewrite Hmethods.
  conjuncts; cbv - [isUndefined]; rewrite ?H1, ?H2, ?H3; reflexivity.
Qed.

Lemma dispatch_of_viewWithFrame_witness :
  Main.callOverload viewClass "viewWithFrame" [Reference 1; Number 3]
  = Some (Sent "this.pointer" "viewWithFrame:andFlags:" [Number 3; Reference 1]).
Proof.
  exact (proj1 (proj2 (dispatch_of_viewWithFrame (Reference 1) (Number 3) (Text "x")
                         eq_refl eq_refl eq_refl))).
Defined.

(** An argument that is [undefined] is not counted. *)
Example undefined_argument_is_not_counted :
  Main.callOverload viewClass "viewWithFrame" [Undefined]
  = Some (Raised "Invalid number of arguments for method viewWithFrame")
  /\ Main.callOverload viewClass "viewWithFrame" [Reference 1; Undefined]
     = Some (Sent "this.pointer" "viewWithFrame:" [Reference 1]).
Proof. split; by_evaluation. Qed.

End Initializers.

(* ================================================================== *)
(** * C8: the post-processing pass applied twice *)
(* ================================================================== *)

Module ReflowTwice.

Definition nl : string := Reflow.nl.

(** A class with the overloads [foo] and [foo:]. *)
Definition thing : ObjCClass :=
  {| class_name := "NSThing"; superclass := "NSObject"; protocols := [];
     properties := [];
     methods := [ArgumentOrder.voidMethod "foo" [];
                 ArgumentOrder.voidMethod "foo:" [ArgumentOrder.intParameter "a"]];
     class_documentation := ""; class_availability := "" |}.

Example overloads_of_foo_are_extracted :
  parseObjCHeaderFile
    ("@interface NSThing : NSObject" ++ nl ++ "- (void)foo;" ++ nl
     ++ "- (void)foo:(int)a;" ++ nl ++ "@end" ++ nl)
  = [thing].
Proof. by_evaluation. Qed.

(** A file in which the overload signatures stand after the
    implementation: what the pass is there to repair. *)
Definition scattered : string :=
  ("export class NSThing {" ++ nl
   ++ "    public foo(a?: number, ...args: any[]) {" ++ nl
   ++ "        return dispatch(a, args);" ++ nl
   ++ "    }" ++ nl
   ++ "    public foo(): void;" ++ nl
   ++ "    public foo(a: number): void;" ++ nl
   ++ "}" ++ nl)%string.

(** After one pass: the signatures stand above the implementation. *)
Definition reflowed : string :=
  ("export class NSThing {" ++ nl
   ++ "    public foo(): void;" ++ nl
   ++ nl
   ++ "    public foo(a: number): void;" ++ nl
   ++ nl
   ++ "    public foo(a?: number, ...args: any[]) {" ++ nl
   ++ "        return dispatch(a, args);" ++ nl
   ++ "    }" ++ nl
   ++ "}" ++ nl)%string.

(** After a second pass: the signatures are gone. *)
Definition stripped : string :=
  ("export class NSThing {" ++ nl
   ++ nl
   ++ "    public foo(a?: number, ...args: any[]) {" ++ nl
   ++ "        return dispatch(a, args);" ++ nl
   ++ "    }" ++ nl
   ++ "}" ++ nl)%string.

(** C8, at the file [scattered]: the first application of the pass
    moves the two signatures above the implementation; applied to that
    output, the pass finds as "implementation" the text from the first
    signature to the first brace, removes the signatures, no longer finds
    that text to put them back in front of, and so deletes them.  The
    second application changes the output of the first. *)
Theorem second_pass_deletes_the_signatures :
  Reflow.postProcess thing scattered = Some reflowed
  /\ Reflow.postProcess thing reflowed = Some stripped
  /\ Reflow.postProcessTwice thing scattered <> Reflow.postProcess thing scattered.
Proof.
  assert (H1 : Reflow.postProcess thing scattered = Some reflowed) by by_evaluation.
  assert (H2 : Reflow.postProcess thing reflowed = Some stripped) by by_evaluation.
  conjuncts; [exact H1 | exact H2 |].
  unfold Reflow.postProcessTwice. rewrite H1, H2.
  vm_compute. discriminate.
Qed.

(** None of these texts has the pattern of an incomplete emission:
    the repair loop of the pass ends at its first search. *)
Example no_incomplete_emission :
  Forall (fun text => Regex.execFrom false Reflow.missingMethodRe text 0 = None)
         [scattered; reflowed; stripped].
Proof. repeat (apply Forall_cons || apply Forall_nil); by_evaluation. Qed.

(** What the repair loop does when the pattern is there. *)
Example incomplete_emission_is_completed :
  Reflow.fixMissingMethods 200
    ("/**" ++ nl ++ " * @overload foo(a): any" ++ nl ++ " */" ++ nl
     ++ "    // Add named parameters" ++ nl)%string 0
  = ("/**" ++ nl ++ " * @overload foo(a): any" ++ nl ++ " */" ++ nl
     ++ "    public foo(name?: id, description?: id, value?: number, ...args: any[]): any {"
     ++ nl ++ nl ++ "    // Add named parameters" ++ nl)%string.
Proof. by_evaluation. Qed.

(** What the second pass matched. *)
Example implementation_match_spans_the_signatures :
  option_map Regex.matched
    (Regex.exec false (Reflow.implementationRe false "foo") reflowed)
  = Some (nl ++ "    public foo(): void;" ++ nl ++ nl
          ++ "    public foo(a: number): void;" ++ nl ++ nl
          ++ "    public foo(a?: number, ...args: any[]) {")%string.
Proof. by_evaluation. Qed.

(** On the text [main] itself generates, where the implementation is
    annotated with its return type, the first pass already takes the head of
    the implementation for a signature and removes it with the others. *)
Definition generated : string :=
  ("export class NSThing {" ++ nl
   ++ "    public foo(): void;" ++ nl
   ++ "    public foo(a: number): void;" ++ nl
   ++ "    public foo(a?: number, ...args: any[]): any {" ++ nl
   ++ "        const allArgs = [...args];" ++ nl
   ++ "        return dispatch(allArgs);" ++ nl
   ++ "    }" ++ nl
   ++ "}" ++ nl)%string.

Example pass_on_generated_text :
  Reflow.postProcess thing generated
  = Some ("export class NSThing {" ++ nl
          ++ "        return dispatch(allArgs);" ++ nl
          ++ "    }" ++ nl
          ++ "}" ++ nl)%string.
Proof. by_evaluation. Qed.

(** A file without any declaration of the groups is left as it is. *)
Example pass_without_overloads :
  Reflow.postProcess thing ("export class NSThing {" ++ nl ++ "}" ++ nl)
  = Some ("export class NSThing {" ++ nl ++ "}" ++ nl)%string.
Proof. by_evaluation. Qed.

End ReflowTwice.

(* ================================================================== *)
(** * Facts about the string operations *)
(* ================================================================== *)

Module StringFacts.

Lemma l2s_s2l (s : string) : l2s (s2l s) = s.
Proof. apply string_of_list_ascii_of_string. Qed.

Lemma s2l_l2s (l : chars) : s2l (l2s l) = l.
Proof. apply list_ascii_of_string_of_list_ascii. Qed.

Lemma s2l_app (s t : string) : s2l (s ++ t) = s2l s ++ s2l t.
Proof. induction s as [|a s IH]; simpl; [reflexivity | f_equal; exact IH]. Qed.

Lemma length_s2l (s : string) : List.length (s2l s) = String.length s.
Proof. induction s as [|a s IH]; simpl; [reflexivity | f_equal; exact IH]. Qed.

Lemma isPrefixL_app (p l : chars) : isPrefixL p (p ++ l) = true.
Proof.
  induction p as [|a p IH]; simpl; [reflexivity |].
  rewrite Ascii.eqb_refl. exact IH.
Qed.

Lemma isPrefixL_split (p l : chars) :
  isPrefixL p l = true -> exists rest, l = p ++ rest.
Proof.
  revert l. induction p as [|a p IH]; intros l H; simpl in H.
  - exists l. reflexivity.
  - destruct l as [|b l]; [discriminate |].
    apply andb_true_iff in H. destruct H as [Hab H].
    apply Ascii.eqb_eq in Hab. subst b.
    destruct (IH l H) as (rest & ->). exists rest. reflexivity.
Qed.

Lemma endsWith_append (s p : string) : endsWith (s ++ p) p = true.
Proof.
  unfold endsWith. rewrite s2l_app, rev_app_distr. apply isPrefixL_app.
Qed.

Lemma endsWith_split (s p : string) :
  endsWith s p = true -> exists front, s2l s = front ++ s2l p.
Proof.
  unfold endsWith. intros H. apply isPrefixL_split in H. destruct H as (rest & H).
  exists (rev rest). apply (f_equal (@rev ascii)) in H.
  rewrite rev_involutive, rev_app_distr, rev_involutive in H. exact H.
Qed.

Lemma append_assoc (s t u : string) : ((s ++ t) ++ u)%string = (s ++ t ++ u)%string.
Proof. induction s as [|a s IH]; simpl; [reflexivity | f_equal; exact IH]. Qed.

Lemma append_nil_r (s : string) : (s ++ "")%string = s.
Proof. induction s as [|a s IH]; simpl; [reflexivity | f_equal; exact IH]. Qed.

Lemma toUpperChar_idempotent (a : ascii) : toUpperChar (toUpperChar a) = toUpperChar a.
Proof. destruct a as [[] [] [] [] [] [] [] []]; reflexivity. Qed.

End StringFacts.

(* ================================================================== *)
(** * The setter of a property, declared as a method *)
(* ================================================================== *)

Module SetterNames.
Import StringFacts.

(** A text without a colon has nothing to replace. *)
Lemma no_colon_no_match (aft bef : chars) :
  filter (Ascii.eqb ":") aft = [] ->
  Regex.searchFrom false (Regex.chr ":") bef aft = None.
Proof.
  revert bef. induction aft as [|a aft IH]; intros bef H; [reflexivity |].
  cbn [filter] in H. cbn [Regex.searchFrom Regex.run Regex.chr Regex.after].
  destruct (Ascii.eqb ":" a); [discriminate |]. exact (IH _ H).
Qed.

Lemma colons_replaced_in_plain_text (s : string) :
  colonCount s = 0 -> Regex.replaceAll false (Regex.chr ":") s "_" = s.
Proof.
  unfold colonCount. intros H. apply List.length_zero_iff_nil in H.
  unfold Regex.replaceAll, Regex.matchAll. cbn [Regex.allFrom].
  unfold Regex.cursorAt. cbn [firstn skipn rev Regex.before Regex.after].
  rewrite (no_colon_no_match _ _ H). cbn [Regex.stitch Regex.after].
  apply l2s_s2l.
Qed.

(** The selector the property loop sends for the setter of [n]. *)
Lemma setterMethodName_chars (a : ascii) (rest : string) :
  s2l (Main.setterMethodName (String a rest))
  = ["s"; "e"; "t"]%char ++ toUpperChar a :: s2l rest ++ [":"%char].
Proof.
  unfold Main.setterMethodName, charAt, sliceFrom, toUpperCase.
  cbn [s2l list_ascii_of_string skipn firstn].
  rewrite !s2l_app. cbn [s2l list_ascii_of_string l2s string_of_list_ascii map app].
  fold s2l. fold l2s. rewrite l2s_s2l. reflexivity.
Qed.


(** X4: The setter selector of a property, declared as a method, is
    setter-shaped and names the property it came from, so the accessor the
    property already has is not added a second time.  The name starts with a
    character that is not an upper-case letter and has no colon. *)
Theorem declared_setter_of_a_property_adds_nothing (a : ascii) (rest : string)
  (method : ObjCMethod) :
  let n := String a rest in
  name method = Main.setterMethodName n ->
  List.length (parameters method) = 1 ->
  toLowerChar (toUpperChar a) = a ->
  colonCount n = 0 ->
  Main.isSetterMethod method = true
  /\ Main.setterPropertyName method = n
  /\ forall c soFar key others,
       existsb (isSetAccessorNamed n) soFar = true ->
       Main.emitGroup c soFar key (method :: others) = Ok [].
Proof.
  intros n Hname Hparameters Hlower Hcolon.
  assert (Hchars := setterMethodName_chars a rest). fold n in Hchars.
  assert (Hlength : String.length (name method) = 5 + String.length rest).
  { rewrite Hname, <- length_s2l, Hchars. cbn [app List.length].
    rewrite length_app, length_s2l. cbn [List.length]. lia. }
  assert (Hshape : Main.isSetterMethod method = true).
  { unfold Main.isSetterMethod. rewrite Hparameters, Hlength.
    unfold startsWith, endsWith, charAt, toUpperCase. rewrite Hname, Hchars.
    cbn [app skipn firstn s2l l2s list_ascii_of_string string_of_list_ascii map
         isPrefixL rev].
    rewrite toUpperChar_idempotent, String.eqb_refl.
    rewrite rev_app_distr. reflexivity. }
  assert (Hproperty : Main.setterPropertyName method = n).
  { unfold Main.setterPropertyName. cbn zeta.
    assert (Hsub : substring (name method) 3 (String.length (name method) - 1)
                   = String (toUpperChar a) rest).
    { unfold substring. rewrite Hlength, Hname, Hchars.
      cbn [app skipn]. replace (5 + String.length rest - 1 - 3)
        with (S (List.length (s2l rest))) by (rewrite length_s2l; lia).
      cbn [firstn]. rewrite firstn_app, Nat.sub_diag, firstn_all. cbn [firstn].
      rewrite app_nil_r. cbn [l2s string_of_list_ascii]. fold l2s.
      rewrite l2s_s2l. reflexivity. }
    rewrite Hsub. unfold charAt, sliceFrom, toLowerCase.
    cbn [s2l list_ascii_of_string skipn firstn l2s string_of_list_ascii map].
    fold s2l. fold l2s. rewrite l2s_s2l, Hlower. cbn [String.append].
    apply colons_replaced_in_plain_text. exact Hcolon. }
  split; [exact Hshape | split; [exact Hproperty |]].
  intros c soFar key others Hexists. unfold Main.emitGroup.
  rewrite Hshape, Hproperty, Hexists. reflexivity.
Qed.

Lemma declared_setter_of_a_property_adds_nothing_witness :
  Main.setterPropertyName
    {| isClassMethod := false; returnType := "void"; name := "setTitle:";
       parameters := [{| param_name := "title"; param_type := "NSString";
                         param_isNullable := false; param_documentation := "" |}];
       documentation := ""; returnDocumentation := ""; availability := "" |}
  = "title".
Proof.
  exact (proj1 (proj2 (declared_setter_of_a_property_adds_nothing "t" "itle"
    {| isClassMethod := false; returnType := "void"; name := "setTitle:";
       parameters := [{| param_name := "title"; param_type := "NSString";
                         param_isNullable := false; param_documentation := "" |}];
       documentation := ""; returnDocumentation := ""; availability := "" |}
    eq_refl eq_refl eq_refl eq_refl))).
Defined.

End SetterNames.

(* ================================================================== *)
(** * What the class-emission converter can answer *)
(* ================================================================== *)

Module ConverterRange.
Import StringFacts.

(** The type expressions the class-emission converter can return. *)
Definition classTypes : list string :=
  ["void"; "boolean"; "number"; "string"; "id"].

Definition orNull (text : string) : string := (text ++ " | null")%string.

Lemma classTypeMap_values (k mapped : string) :
  Obj.getOwn k classTypeMap = Some mapped -> In mapped classTypes.
Proof.
  intros H. apply MemberFacts.getOwn_In in H. unfold classTypeMap in H.
  cbn [In] in H. unfold classTypes. cbn [In].
  repeat (destruct H as [H | H]; [injection H as _ <-; tauto |]). destruct H.
Qed.

(** X7: Whatever the type text, the class-emission converter answers with
    one of [void], [boolean], [number], [string] and [id], followed by
    [| null] exactly when the text carries a nullability marker (the empty
    text gives [void]); the only other answer is the inherited member, for
    a cleaned name that every object inherits. *)
Theorem class_converter_range (objcType : string) :
  match convertObjCTypeToTypeScriptString objcType with
  | TsText text =>
      exists base,
        In base classTypes
        /\ text = (if nonEmpty objcType && hasNullabilityMarker objcType
                   then orNull base else base)
  | TsProto key _ => Obj.isInherited key = true
  end.
Proof.
  unfold convertObjCTypeToTypeScriptString, Obj.get.
  destruct (nonEmpty objcType); cbn [negb andb].
  - destruct (Obj.getOwn (cleanTypeName objcType) classTypeMap) as [mapped|] eqn:Hown.
    + exists mapped. split; [exact (classTypeMap_values _ _ Hown) |].
      destruct (hasNullabilityMarker objcType); reflexivity.
    + destruct (Obj.isInherited (cleanTypeName objcType)) eqn:Hinherited;
        [exact Hinherited |].
      exists "id". split; [unfold classTypes; cbn [In]; tauto |].
      destruct (hasNullabilityMarker objcType); reflexivity.
  - exists "void". split; [left; reflexivity | reflexivity].
Qed.

Lemma classTypeMap_string (k : string) :
  Obj.getOwn k classTypeMap = Some "string" -> k = "NSString*".
Proof.
  unfold classTypeMap. cbn [Obj.getOwn].
  repeat match goal with
         | |- context [String.eqb k ?x] => destruct (String.eqb k x) eqn:?
         end;
    intros H; try discriminate H.
  apply String.eqb_eq. assumption.
Qed.

Lemma drop_last_asterisk (s : string) :
  endsWith s "*" = true ->
  s = (substring s 0 (String.length s - 1) ++ "*")%string.
Proof.
  intros H. apply endsWith_split in H. destruct H as (front & H).
  unfold substring. rewrite <- length_s2l, H. cbn [skipn s2l list_ascii_of_string].
  rewrite length_app. cbn [List.length].
  replace (List.length front + 1 - 1 - 0) with (List.length front) by lia.
  rewrite firstn_app, Nat.sub_diag, firstn_all. cbn [firstn]. rewrite app_nil_r.
  rewrite <- (l2s_s2l s) at 1. rewrite H.
  rewrite <- (l2s_s2l (l2s front ++ "*")), s2l_app, s2l_l2s. reflexivity.
Qed.

(** X8: The entry for strings is keyed [NSString*], and the converter drops
    one trailing asterisk before it looks the name up: it answers [string]
    only for a type text that, with its nullability markers removed and
    trimmed, is [NSString**].  A plain [NSString *] is not among them. *)
Theorem string_needs_two_asterisks (objcType : string) :
  convertObjCTypeToTypeScriptString objcType = TsText "string"
  \/ convertObjCTypeToTypeScriptString objcType = TsText "string | null" ->
  trim (replaceStr (replaceStr objcType "nullable" "") "_Nullable" "") = "NSString**".
Proof.
  unfold convertObjCTypeToTypeScriptString, Obj.get.
  destruct (nonEmpty objcType); cbn [negb];
    [| intros [H | H]; discriminate H].
  destruct (Obj.getOwn (cleanTypeName objcType) classTypeMap) as [mapped|] eqn:Hown.
  - intros H.
    assert (Hmapped : mapped = "string").
    { pose proof (classTypeMap_values _ _ Hown) as Hin. unfold classTypes in Hin.
      cbn [In] in Hin.
      destruct (hasNullabilityMarker objcType);
        repeat (destruct Hin as [<- | Hin];
                [destruct H as [H | H]; first [reflexivity | discriminate H] |]);
        destruct Hin. }
    subst mapped. apply classTypeMap_string in Hown. unfold cleanTypeName in Hown.
    cbn zeta in Hown.
    destruct (endsWith (trim (replaceStr (replaceStr objcType "nullable" "")
                                         "_Nullable" "")) "*") eqn:Hends.
    + rewrite (drop_last_asterisk _ Hends), Hown. reflexivity.
    + rewrite Hown in Hends. discriminate Hends.
  - destruct (Obj.isInherited (cleanTypeName objcType));
      [intros [H | H]; discriminate H |].
    destruct (hasNullabilityMarker objcType); intros [H | H]; discriminate H.
Qed.

Example string_type_of_a_double_pointer :
  convertObjCTypeToTypeScriptString "NSString**" = TsText "string"
  /\ convertObjCTypeToTypeScriptString "NSString *" = TsText "id"
  /\ convertObjCTypeToTypeScriptString "NSString*" = TsText "id"
  /\ convertObjCTypeToTypeScriptString "NSString" = TsText "id".
Proof. conjuncts; by_evaluation. Qed.

Lemma string_needs_two_asterisks_witness :
  trim (replaceStr (replaceStr "nullable NSString**" "nullable" "") "_Nullable" "")
  = "NSString**".
Proof.
  apply (string_needs_two_asterisks "nullable NSString**").
  right. vm_compute. reflexivity.
Defined.

End ConverterRange.

(* ================================================================== *)
(** * The availability text *)
(* ================================================================== *)

Module Availability.
Import StringFacts.

(** X9: The availability text of a declaration never has an opening
    parenthesis without ending in a closing one: a text cut short by the
    pattern gets its parenthesis back. *)
Theorem availability_is_closed (text : string) :
  includes (parseAvailability text) "(" = true ->
  endsWith (parseAvailability text) ")" = true.
Proof.
  unfold parseAvailability.
  destruct (Regex.exec false Patterns.availabilityRe text) as [m|];
    [| intros H; discriminate H].
  destruct (includes (Regex.group 1 m) "(") eqn:Hopen; cbn [andb].
  - destruct (endsWith (Regex.group 1 m) ")") eqn:Hclosed; cbn [negb].
    + intros _. exact Hclosed.
    + intros _. apply endsWith_append.
  - intros H. congruence.
Qed.

Lemma availability_is_closed_witness :
  endsWith (parseAvailability "+ (id)make API_AVAILABLE(macos(10.12), ios(13.0));") ")"
  = true.
Proof.
  apply (availability_is_closed "+ (id)make API_AVAILABLE(macos(10.12), ios(13.0));").
  vm_compute. reflexivity.
Defined.

End Availability.

(* ================================================================== *)
(** * Facts about objects used as maps *)
(* ================================================================== *)

Module ObjFacts.

Lemma getOwn_set_same {V} (k : string) (v : V) (o : Obj.t V) :
  Obj.getOwn k (Obj.set k v o) = Some v.
Proof.
  induction o as [|[k' v'] o IH]; simpl.
  - rewrite String.eqb_refl. reflexivity.
  - destruct (String.eqb k k') eqn:E; simpl.
    + rewrite String.eqb_refl. reflexivity.
    + rewrite E. exact IH.
Qed.

Lemma getOwn_set_other {V} (k k' : string) (v : V) (o : Obj.t V) :
  String.eqb k k' = false ->
  Obj.getOwn k (Obj.set k' v o) = Obj.getOwn k o.
Proof.
  intros Hne. induction o as [|[k0 v0] o IH]; simpl.
  - rewrite Hne. reflexivity.
  - destruct (String.eqb k' k0) eqn:E; simpl.
    + apply String.eqb_eq in E. subst k0. rewrite Hne. reflexivity.
    + destruct (String.eqb k k0); [reflexivity | exact IH].
Qed.

End ObjFacts.

(* ================================================================== *)
(** * The method groups *)
(* ================================================================== *)

Module Grouping.

(** The methods a key collects: those of the class, in declaration
    order, that are no initializers and have that key. *)
Definition groupOf (key : string) (ms : list ObjCMethod) : list ObjCMethod :=
  filter (fun method =>
            negb (startsWith (name method) "init")
            && String.eqb (Main.methodKey method) key) ms.

Lemma groupMethods_getOwn :
  forall (ms : list ObjCMethod) acc groups key,
    Main.groupMethods ms acc = Ok groups ->
    Obj.getOwn key groups
    = match Obj.getOwn key acc, groupOf key ms with
      | Some g, more => Some (g ++ more)
      | None, [] => None
      | None, more => Some more
      end.
Proof.
  induction ms as [|method ms IH]; intros acc groups key H; simpl in H.
  - injection H as <-. cbn [groupOf filter].
    destruct (Obj.getOwn key acc); [rewrite app_nil_r |]; reflexivity.
  - unfold groupOf. cbn [filter]. fold (groupOf key ms).
    destruct (startsWith (name method) "init"); cbn [negb andb].
    + exact (IH _ _ key H).
    + unfold Obj.get in H.
      destruct (Obj.getOwn (Main.methodKey method) acc) as [group|] eqn:Hown.
      * rewrite (IH _ _ key H).
        destruct (String.eqb (Main.methodKey method) key) eqn:E.
        -- apply String.eqb_eq in E. subst key.
           rewrite ObjFacts.getOwn_set_same, Hown, <- app_assoc. reflexivity.
        -- rewrite ObjFacts.getOwn_set_other
             by (rewrite String.eqb_sym; exact E).
           reflexivity.
      * destruct (Obj.isInherited (Main.methodKey method)); [discriminate |].
        rewrite (IH _ _ key H).
        destruct (String.eqb (Main.methodKey method) key) eqn:E.
        -- apply String.eqb_eq in E. subst key.
           rewrite ObjFacts.getOwn_set_same, Hown. reflexivity.
        -- rewrite ObjFacts.getOwn_set_other
             by (rewrite String.eqb_sym; exact E).
           reflexivity.
Qed.

(** X1: The group of a key is made of the methods of the class with that key
    that are no initializers, in declaration order; a key without such a
    method has no group. *)
Theorem groups_keep_declaration_order (c : ObjCClass) (groups : Obj.t (list ObjCMethod))
  (key : string) :
  Main.groupMethods (methods c) [] = Ok groups ->
  Obj.getOwn key groups
  = match groupOf key (methods c) with
    | [] => None
    | group => Some group
    end.
Proof.
  intros H. rewrite (groupMethods_getOwn _ _ _ key H). reflexivity.
Qed.

Lemma groups_keep_declaration_order_witness :
  Obj.getOwn "foo" [("foo", methods ArgumentOrder.thing)]
  = Some (methods ArgumentOrder.thing).
Proof.
  exact (groups_keep_declaration_order ArgumentOrder.thing
           [("foo", methods ArgumentOrder.thing)] "foo" eq_refl).
Defined.

(** Initializers are in no group, and class methods are grouped apart
    from instance methods of the same name. *)
Example groups_of_a_small_class :
  Main.groupMethods
    [ArgumentOrder.voidMethod "initWithFoo:" [ArgumentOrder.intParameter "a"];
     ArgumentOrder.voidMethod "foo:" [ArgumentOrder.intParameter "a"];
     {| isClassMethod := true; returnType := "void"; name := "foo";
        parameters := []; documentation := ""; returnDocumentation := "";
        availability := "" |};
     ArgumentOrder.voidMethod "foo" []] []
  = Ok [("foo", [ArgumentOrder.voidMethod "foo:" [ArgumentOrder.intParameter "a"];
                 ArgumentOrder.voidMethod "foo" []]);
        ("static_foo", [{| isClassMethod := true; returnType := "void"; name := "foo";
                           parameters := []; documentation := "";
                           returnDocumentation := ""; availability := "" |}])].
Proof. by_evaluation. Qed.


Lemma getOwn_set_none {V} (k k' : string) (v : V) (o : Obj.t V) :
  Obj.getOwn k (Obj.set k' v o) = None -> Obj.getOwn k o = None.
Proof.
  destruct (String.eqb k k') eqn:E.
  - apply String.eqb_eq in E. subst k'. rewrite ObjFacts.getOwn_set_same. discriminate.
  - rewrite (ObjFacts.getOwn_set_other _ _ _ _ E). exact (fun H => H).
Qed.

(** The method whose key stops the grouping. *)
Definition stopsGrouping (acc : Obj.t (list ObjCMethod)) (method : ObjCMethod) : Prop :=
  startsWith (name method) "init" = false
  /\ Obj.isInherited (Main.methodKey method) = true
  /\ Obj.getOwn (Main.methodKey method) acc = None.

Lemma groupMethods_throws :
  forall (ms : list ObjCMethod) acc,
    (exists method, In method ms /\ stopsGrouping acc method)
    <-> Main.groupMethods ms acc = Throw "methodGroups[methodKey].push is not a function".
Proof.
  induction ms as [|method ms IH]; intros acc; simpl.
  - split; [intros (m & [] & _) | discriminate].
  - destruct (startsWith (name method) "init") eqn:Hinit.
    + rewrite <- IH. split.
      * intros (m & [<- | Hin] & Hstop); [| exists m; split; assumption].
        destruct Hstop as (H & _). congruence.
      * intros (m & Hin & Hstop). exists m. split; [right |]; assumption.
    + unfold Obj.get.
      destruct (Obj.getOwn (Main.methodKey method) acc) as [group|] eqn:Hown;
        [| destruct (Obj.isInherited (Main.methodKey method)) eqn:Hinherited].
      * rewrite <- IH. split.
        -- intros (m & [<- | Hin] & Hi & Hk & Hnone); [congruence |].
           exists m. split; [exact Hin |]. split; [exact Hi |]. split; [exact Hk |].
           destruct (String.eqb (Main.methodKey m) (Main.methodKey method)) eqn:E.
           ++ apply String.eqb_eq in E. congruence.
           ++ rewrite (ObjFacts.getOwn_set_other _ _ _ _ E). exact Hnone.
        -- intros (m & Hin & Hi & Hk & Hnone). exists m. split; [right; exact Hin |].
           split; [exact Hi |]. split; [exact Hk |].
           exact (getOwn_set_none _ _ _ _ Hnone).
      * split; [reflexivity |]. intros _. exists method.
        split; [left; reflexivity |]. split; [exact Hinit |]. split; assumption.
      * rewrite <- IH. split.
        -- intros (m & [<- | Hin] & Hi & Hk & Hnone); [congruence |].
           exists m. split; [exact Hin |]. split; [exact Hi |]. split; [exact Hk |].
           destruct (String.eqb (Main.methodKey m) (Main.methodKey method)) eqn:E.
           ++ apply String.eqb_eq in E. congruence.
           ++ rewrite (ObjFacts.getOwn_set_other _ _ _ _ E). exact Hnone.
        -- intros (m & Hin & Hi & Hk & Hnone). exists m. split; [right; exact Hin |].
           split; [exact Hi |]. split; [exact Hk |].
           exact (getOwn_set_none _ _ _ _ Hnone).
Qed.

Lemma groupMethods_message :
  forall (ms : list ObjCMethod) acc message,
    Main.groupMethods ms acc = Throw message ->
    message = "methodGroups[methodKey].push is not a function".
Proof.
  induction ms as [|method ms IH]; intros acc message H; simpl in H; [discriminate |].
  destruct (startsWith (name method) "init"); [exact (IH _ _ H) |].
  destruct (Obj.get (Main.methodKey method) acc);
    [exact (IH _ _ H) | injection H as <-; reflexivity | exact (IH _ _ H)].
Qed.

(** X2: A method that is no initializer and whose key names a member every
    object inherits ([constructor], [toString], [valueOf], ...) ends the
    generation of its class with a [TypeError], and nothing else does: the
    class then has the members it had before its methods, and no method. *)
Theorem inherited_key_ends_the_generation (c : ObjCClass) :
  (exists method,
      In method (methods c)
      /\ startsWith (name method) "init" = false
      /\ Obj.isInherited (Main.methodKey method) = true)
  <-> Main.classMembers c
      = (Main.membersBeforeMethods c,
         Some "methodGroups[methodKey].push is not a function").
Proof.
  unfold Main.classMembers. split.
  - intros (method & Hin & Hinit & Hkey).
    assert (H : Main.groupMethods (methods c) []
                = Throw "methodGroups[methodKey].push is not a function").
    { apply groupMethods_throws. exists method. split; [exact Hin |].
      split; [exact Hinit |]. split; [exact Hkey | reflexivity]. }
    rewrite H. reflexivity.
  - destruct (Main.groupMethods (methods c) []) as [groups | message] eqn:Hgroups;
      cbn [JS.bind].
    + destruct (MemberFacts.emitGroups_ok c (Obj.entries groups)
                  (Main.membersBeforeMethods c)) as (all & Hall).
      { intros key g Hin. apply MemberFacts.entries_In in Hin.
        exact (MemberFacts.groupMethods_nonempty _ _ _ Hgroups
                 (fun _ _ H => match H with end) key g Hin). }
      rewrite Hall. discriminate.
    + intros _. rewrite (groupMethods_message _ _ _ Hgroups) in Hgroups.
      apply groupMethods_throws in Hgroups.
      destruct Hgroups as (method & Hin & Hinit & Hkey & _).
      exists method. split; [exact Hin |]. split; assumption.
Qed.

(** A class with a method [toString] gets no method at all, not even
    the one declared before it. *)
Example class_with_a_method_named_toString :
  Main.classMembers
    {| class_name := "NSThing"; superclass := "NSObject"; protocols := [];
       properties := [];
       methods := [ArgumentOrder.voidMethod "foo:" [ArgumentOrder.intParameter "a"];
                   ArgumentOrder.voidMethod "toString" []];
       class_documentation := ""; class_availability := "" |}
  = ([PropertyMember "Class" None (Some ("objc.classes[" ++ quoted "NSThing" ++ "]")%string)
        true true Private;
      PropertyMember "pointer" (Some "id") None false false Protected;
      Constructor Public [] []
        [Construct.SuperCall;
         Construct.AssignPointer
           (Construct.MsgSend
              (Construct.MsgSend (Construct.ClassObject "NSThing") (quoted "alloc"))
              (quoted "init"))]],
     Some "methodGroups[methodKey].push is not a function").
Proof. by_evaluation. Qed.

(** ** Set accessors added by the method groups *)

Definition countSetters (n : string) (ms : list Member) : nat :=
  List.length (filter (isSetAccessorNamed n) ms).

Lemma countSetters_app (n : string) (l1 l2 : list Member) :
  countSetters n (l1 ++ l2) = countSetters n l1 + countSetters n l2.
Proof. unfold countSetters. rewrite filter_app, length_app. reflexivity. Qed.

Lemma countSetters_none (n : string) (l : list Member) :
  existsb (isSetAccessorNamed n) l = false -> countSetters n l = 0.
Proof.
  unfold countSetters. induction l as [|m l IH]; simpl; [reflexivity |].
  destruct (isSetAccessorNamed n m); simpl; [discriminate | exact IH].
Qed.

Lemma countSetters_some (n : string) (l : list Member) :
  existsb (isSetAccessorNamed n) l = true -> 0 < countSetters n l.
Proof.
  unfold countSetters. induction l as [|m l IH]; simpl; [discriminate |].
  destruct (isSetAccessorNamed n m); simpl; [lia | exact IH].
Qed.

Lemma countSetters_methods (c : ObjCClass) (n : string) (isStatic : bool)
  (baseMethodName : string) (group : list ObjCMethod) :
  countSetters n (Main.overloadMembers c isStatic baseMethodName group) = 0.
Proof.
  unfold Main.overloadMembers. rewrite countSetters_app.
  replace (countSetters n (map (Main.overloadSignature isStatic baseMethodName) group))
    with 0; [reflexivity |].
  induction group as [|m group IH]; [reflexivity | exact IH].
Qed.

Lemma emitGroup_adds_setter (c : ObjCClass) (soFar added : list Member) (key n : string)
  (group : list ObjCMethod) :
  Main.emitGroup c soFar key group = Ok added ->
  countSetters n added = 0
  \/ (countSetters n soFar = 0 /\ countSetters n added = 1).
Proof.
  unfold Main.emitGroup. destruct group as [|first others]; [discriminate |].
  destruct (Main.isSetterMethod first).
  - destruct (existsb _ soFar) eqn:Hexists; intros H; injection H as <-;
      [left; reflexivity |].
    unfold countSetters, Main.setterFromMethod. cbn [filter isSetAccessorNamed].
    destruct (String.eqb n (Main.setterPropertyName first)) eqn:E;
      [| left; reflexivity].
    right. apply String.eqb_eq in E. subst n.
    split; [exact (countSetters_none _ _ Hexists) | reflexivity].
  - destruct (Nat.ltb 1 (List.length (first :: others))); intros H; injection H as <-;
      left; [apply countSetters_methods | reflexivity].
Qed.

Lemma emitGroups_count (c : ObjCClass) (n : string) :
  forall groups soFar all,
    Main.emitGroups c groups soFar = Ok all ->
    countSetters n all = countSetters n soFar
    \/ (countSetters n soFar = 0 /\ countSetters n all = 1).
Proof.
  induction groups as [|[key group] groups IH]; intros soFar all H; simpl in H.
  - injection H as <-. left. reflexivity.
  - destruct (Main.emitGroup c soFar key group) as [added | message] eqn:Hadded;
      simpl in H; [| discriminate].
    apply IH in H. rewrite countSetters_app in H.
    destruct (emitGroup_adds_setter _ _ _ _ n _ Hadded) as [H0 | [H0 H1]]; lia.
Qed.

(** X3: The method groups add a set accessor of a given name at most once,
    and only to a class that has none of that name: however many
    setter-shaped methods a class declares, the number of its set accessors
    of a name is what its properties gave it, or one when they gave none. *)
Theorem method_groups_add_a_setter_once (c : ObjCClass) (n : string) :
  let before := countSetters n (Main.membersBeforeMethods c) in
  let after := countSetters n (members (Main.generateClass c)) in
  after = before \/ (before = 0 /\ after = 1).
Proof.
  cbn zeta. unfold Main.generateClass, Main.classMembers. cbn [members].
  destruct (Main.groupMethods (methods c) []) as [groups | message];
    cbn [JS.bind]; [| left; reflexivity].
  destruct (Main.emitGroups c (Obj.entries groups) (Main.membersBeforeMethods c))
    as [all | message] eqn:Hall; cbn [fst]; [| left; reflexivity].
  exact (emitGroups_count c n _ _ _ Hall).
Qed.

End Grouping.

(* ================================================================== *)
(** * The parameter names of an implementation *)
(* ================================================================== *)

Module ParameterNames.
Import Dispatch.

Lemma distinct_NoDup (names : list string) : NoDup names -> distinct names = true.
Proof.
  induction 1 as [|x names Hfresh _ IH]; [reflexivity |].
  cbn [distinct]. rewrite IH, andb_true_r. apply negb_true_iff.
  destruct (existsb (String.eqb x) names) eqn:E; [| reflexivity].
  apply existsb_exists in E. destruct E as (y & Hy & Heq).
  apply String.eqb_eq in Heq. subst y. contradiction.
Qed.

Lemma NoDup_snoc {A} (l : list A) (x : A) : NoDup l -> ~ In x l -> NoDup (l ++ [x]).
Proof.
  induction 1 as [|y l Hfresh _ IH]; intros Hx; simpl.
  - constructor; [intros [] | constructor].
  - constructor.
    + rewrite in_app_iff. intros [H | [H | []]]; [contradiction |].
      apply Hx. left. symmetry. exact H.
    + apply IH. intros H. apply Hx. right. exact H.
Qed.

Lemma hasParameterNamed_false (n : string) (ps : list ParameterDeclaration) :
  Main.hasParameterNamed n ps = false -> ~ In n (map pd_name ps).
Proof.
  unfold Main.hasParameterNamed. intros H Hin. apply in_map_iff in Hin.
  destruct Hin as (p & <- & Hp).
  assert (Hex : existsb (fun q => String.eqb (pd_name q) (pd_name p)) ps = true).
  { apply existsb_exists. exists p. split; [exact Hp | apply String.eqb_refl]. }
  congruence.
Qed.

(** What the loop over the signatures keeps true of the parameters of
    the implementation: no name twice, no rest parameter, and every name the
    name of a parameter of a member. *)
Definition wellNamed (group : list ObjCMethod) (ps : list ParameterDeclaration) : Prop :=
  NoDup (map pd_name ps)
  /\ Forall (fun p => isRestParameter p = false) ps
  /\ forall n, In n (map pd_name ps) ->
       exists method param,
         In method group /\ In param (parameters method) /\ param_name param = n.

Lemma addIfNew_wellNamed (group : list ObjCMethod) (method : ObjCMethod) :
  In method group ->
  forall params ps,
    (forall param, In param params -> In param (parameters method)) ->
    wellNamed group ps -> wellNamed group (fold_left Main.addIfNew params ps).
Proof.
  intros Hmethod. induction params as [|param params IH]; intros ps Hsub Hps;
    [exact Hps |].
  cbn [fold_left]. apply IH; [intros q Hq; apply Hsub; right; exact Hq |].
  unfold Main.addIfNew.
  destruct (Main.hasParameterNamed (param_name param) ps) eqn:Hnamed; [exact Hps |].
  destruct Hps as (Hnodup & Hrest & Hnames). split; [| split].
  - rewrite map_app. apply NoDup_snoc; [exact Hnodup |].
    exact (hasParameterNamed_false _ _ Hnamed).
  - apply Forall_app. split; [exact Hrest |]. constructor; [reflexivity | constructor].
  - intros n Hn. rewrite map_app, in_app_iff in Hn.
    destruct Hn as [Hn | [<- | []]]; [exact (Hnames n Hn) |].
    exists method, param. split; [exact Hmethod |].
    split; [apply Hsub; left; reflexivity | reflexivity].
Qed.

Lemma addSignatureParameters_wellNamed (group : list ObjCMethod) :
  forall overloads ps,
    (forall method, In method overloads ->
       In method group /\ List.length (parameters method) <> 1) ->
    wellNamed group ps ->
    wellNamed group (fold_left Main.addSignatureParameters overloads ps).
Proof.
  induction overloads as [|method overloads IH]; intros ps Hmembers Hps; [exact Hps |].
  cbn [fold_left]. apply IH; [intros m Hm; apply Hmembers; right; exact Hm |].
  destruct (Hmembers method (or_introl eq_refl)) as [Hin Hlen].
  unfold Main.addSignatureParameters.
  destruct (parameters method) as [|p1 [|p2 rest]] eqn:Hparams;
    [exact Hps | contradiction Hlen; reflexivity |].
  apply (addIfNew_wellNamed group method Hin); [| exact Hps].
  intros q Hq. rewrite Hparams. exact Hq.
Qed.

Lemma namedParameters_all (ps : list ParameterDeclaration) :
  Forall (fun p => isRestParameter p = false) ps ->
  Main.namedParameters (ps ++ [Main.restParameter]) = map pd_name ps.
Proof.
  intros H. unfold Main.namedParameters. rewrite filter_app. cbn [filter Main.restParameter isRestParameter negb].
  rewrite app_nil_r. f_equal.
  induction H as [|p ps Hp _ IH]; [reflexivity |].
  cbn [filter]. rewrite Hp. cbn [negb]. f_equal. exact IH.
Qed.

(** X5: When no member of a group has exactly one parameter and no parameter
    is called [args] or [allArgs], the implementation's parameter names
    are pairwise distinct and distinct from the two names the body declares:
    a name is added only if it is new. *)
Theorem names_added_only_if_new (group : list ObjCMethod) :
  (forall method, In method group -> List.length (parameters method) <> 1) ->
  (forall method param,
      In method group -> In param (parameters method) ->
      param_name param <> "args" /\ param_name param <> "allArgs") ->
  distinct (Main.namedParameters (Main.implementationParameters group)
            ++ ["args"; "allArgs"]) = true.
Proof.
  intros Hlen Hnames. unfold Main.implementationParameters.
  assert (Hwell : wellNamed group (fold_left Main.addSignatureParameters group [])).
  { apply addSignatureParameters_wellNamed.
    - intros m Hm. split; [exact Hm | exact (Hlen m Hm)].
    - split; [constructor | split; [constructor | intros n []]]. }
  destruct Hwell as (Hnodup & Hrest & Hfrom).
  rewrite (namedParameters_all _ Hrest).
  apply distinct_NoDup.
  assert (Hfresh : forall n, In n (map pd_name (fold_left Main.addSignatureParameters group []))
                             -> n <> "args" /\ n <> "allArgs").
  { intros n Hn. destruct (Hfrom n Hn) as (m & p & Hm & Hp & <-).
    exact (Hnames m p Hm Hp). }
  clear Hfrom.
  induction (map pd_name (fold_left Main.addSignatureParameters group [])) as [|x names IH].
  - cbn [app]. constructor; [intros [H | []]; discriminate |].
    constructor; [intros [] | constructor].
  - cbn [app]. inversion Hnodup as [|y l Hx Hl]; subst. constructor.
    + rewrite in_app_iff. intros [H | [H | [H | []]]]; [contradiction | |];
        destruct (Hfresh x (or_introl eq_refl)); congruence.
    + apply IH; [exact Hl |]. intros n Hn. apply Hfresh. right. exact Hn.
Qed.

Lemma names_added_only_if_new_witness :
  distinct (["a"; "b"; "c"] ++ ["args"; "allArgs"]) = true.
Proof.
  apply (names_added_only_if_new
           [ArgumentOrder.voidMethod "foo:bar:"
              [ArgumentOrder.intParameter "a"; ArgumentOrder.intParameter "b"];
            ArgumentOrder.voidMethod "foo:bar:baz:"
              [ArgumentOrder.intParameter "a"; ArgumentOrder.intParameter "b";
               ArgumentOrder.intParameter "c"]]).
  - intros method [<- | [<- | []]]; cbn; lia.
  - intros method param [<- | [<- | []]]; cbn;
      intros Hparam; repeat (destruct Hparam as [<- | Hparam]; [split; discriminate |]);
      destruct Hparam.
Defined.

(** The other way round: a one-parameter member behind a longer one
    brings its parameter name a second time. *)
Example single_parameter_is_added_as_it_is :
  Main.namedParameters
    (Main.implementationParameters
       [ArgumentOrder.voidMethod "foo:bar:"
          [ArgumentOrder.intParameter "a"; ArgumentOrder.intParameter "b"];
        ArgumentOrder.voidMethod "foo:" [ArgumentOrder.intParameter "a"]])
  = ["a"; "b"; "a"].
Proof. by_evaluation. Qed.

End ParameterNames.

(* ================================================================== *)
(** * Calls written against an overload signature *)
(* ================================================================== *)

Module SignatureCalls.
Import Dispatch.

Lemma collected_one (named : list string) (v : Value) :
  isUndefined v = false -> DispatchFacts.collected named [v] = [v].
Proof.
  intros Hv. unfold DispatchFacts.collected.
  rewrite DispatchFacts.defined_values_of_parameters.
  destruct named as [|x named]; [reflexivity |].
  cbn [List.length firstn skipn filter]. unfold DispatchFacts.defined at 1.
  rewrite Hv. cbn [negb]. rewrite firstn_nil, skipn_nil. reflexivity.
Qed.

(** X6: The signature written for a member with two or more parameters
    takes one argument, the object [params]; and a call of the
    implementation with one defined argument goes to the first member with
    exactly one parameter, or raises the error when there is none.  A call
    written against the signature of a member with several parameters is
    therefore never sent to that member. *)
Theorem one_argument_reaches_one_parameter_members (c : ObjCClass) (isStatic : bool)
  (baseMethodName : string) (group : list ObjCMethod) (v : Value) :
  let named := Main.namedParameters (Main.implementationParameters group) in
  distinct (named ++ ["args"; "allArgs"]) = true ->
  isUndefined v = false ->
  (forall method,
      In method group -> 2 <= List.length (parameters method) ->
      exists fields,
        Main.signatureParameters method
        = [{| pd_name := "params"; pd_type := ObjectOf fields;
              hasQuestionToken := false; isRestParameter := false |}])
  /\ call named (Main.implementationBody c isStatic baseMethodName group named) [v]
     = match find (fun method => Nat.eqb 1 (List.length (parameters method))) group with
       | Some method =>
           Sent (Main.dispatchTarget c isStatic) (Main.methodNameWithColons method) [v]
       | None => Raised ("Invalid number of arguments for method " ++ baseMethodName)
       end.
Proof.
  intros named Hdistinct Hv. split.
  - intros method _ Hlen. unfold Main.signatureParameters.
    destruct (parameters method) as [|p1 [|p2 rest]]; cbn [List.length] in Hlen;
      [lia | lia |].
    eexists. reflexivity.
  - subst named.
    rewrite (DispatchFacts.dispatch_of_an_overload_group c isStatic baseMethodName
               group [v] Hdistinct).
    rewrite (collected_one _ v Hv). reflexivity.
Qed.

Lemma one_argument_reaches_one_parameter_members_witness :
  call ["a"; "b"]
    (Main.implementationBody ArgumentOrder.thing false "foo"
       (methods ArgumentOrder.thing) ["a"; "b"])
    [Number 7]
  = Sent "this.pointer" "foo:" [Number 7].
Proof.
  exact (proj2 (one_argument_reaches_one_parameter_members ArgumentOrder.thing false "foo"
                  (methods ArgumentOrder.thing) (Number 7) eq_refl eq_refl)).
Defined.

End SignatureCalls.

(* ================================================================== *)
(** * What a match leaves in the groups *)
(* ================================================================== *)

Module CaptureFacts.
Import Regex RegexFacts.

(** The groups a pattern may set. *)
Fixpoint groupsOf (r : regex) : list nat :=
  match r with
  | Eps | Cls _ | Bol | Eol => []
  | Seq r1 r2 | Alt r1 r2 => groupsOf r1 ++ groupsOf r2
  | Star _ r1 | Ahead r1 => groupsOf r1
  | Grp i r1 => i :: groupsOf r1
  end.

(** A pattern that cannot match without reading a character. *)
Fixpoint reads (r : regex) : bool :=
  match r with
  | Cls _ => true
  | Seq r1 r2 => reads r1 || reads r2
  | Alt r1 r2 => reads r1 && reads r2
  | Grp _ r1 => reads r1
  | Eps | Star _ _ | Bol | Eol | Ahead _ => false
  end.

(** A successful match goes through its continuation, further in the
    same text, with the groups outside the pattern untouched. *)
Definition passes (r : regex) (k : cont) (c : cursor) (cs : captures)
  (res : cursor * captures) : Prop :=
  exists c' cs',
    k c' cs' = Some res
    /\ position c <= position c'
    /\ (reads r = true -> position c < position c')
    /\ subject c' = subject c
    /\ forall i, ~ In i (groupsOf r) -> capture i cs' = capture i cs.

Lemma starLoop_passes (greedy : bool) step k res (skipped : list nat) :
  (forall c cs k', step c cs k' = Some res ->
     exists c' cs', k' c' cs' = Some res /\ position c <= position c'
       /\ subject c' = subject c
       /\ forall i, ~ In i skipped -> capture i cs' = capture i cs) ->
  forall fuel c cs,
    starLoop greedy step k fuel c cs = Some res ->
    exists c' cs', k c' cs' = Some res /\ position c <= position c'
      /\ subject c' = subject c
      /\ forall i, ~ In i skipped -> capture i cs' = capture i cs.
Proof.
  intros Hstep fuel. induction fuel as [|fuel IH]; intros c cs H; simpl in H.
  - exists c, cs. conjuncts; [exact H | lia | reflexivity | reflexivity].
  - assert (Hcases :
      step c cs (fun c' cs' =>
                   if Nat.ltb (List.length (after c')) (List.length (after c))
                   then starLoop greedy step k fuel c' cs' else None) = Some res
      \/ k c cs = Some res).
    { destruct greedy; apply orElse_some in H; tauto. }
    destruct Hcases as [Hagain | Hk].
    + apply Hstep in Hagain. destruct Hagain as (c1 & cs1 & H1 & Hle & Hsubject & Hkeep).
      destruct (Nat.ltb (List.length (after c1)) (List.length (after c)));
        [| discriminate].
      apply IH in H1. destruct H1 as (c2 & cs2 & H2 & Hle2 & Hsubject2 & Hkeep2).
      exists c2, cs2. conjuncts; [exact H2 | lia | congruence |].
      intros i Hi. rewrite (Hkeep2 i Hi). exact (Hkeep i Hi).
    + exists c, cs. conjuncts; [exact Hk | lia | reflexivity | reflexivity].
Qed.

Lemma capture_other (i j : nat) (s : string) (cs : captures) :
  i <> j -> capture i ((j, s) :: cs) = capture i cs.
Proof.
  intros H. cbn [capture]. destruct (Nat.eqb i j) eqn:E; [| reflexivity].
  apply Nat.eqb_eq in E. contradiction.
Qed.

Lemma run_passes (ml : bool) (r : regex) :
  forall c cs k res, run ml r c cs k = Some res -> passes r k c cs res.
Proof.
  induction r as [| p | r1 IH1 r2 IH2 | r1 IH1 r2 IH2 | g r1 IH1 | i r1 IH1 | | | r1 IH1];
    intros c cs k res H; cbn [run] in H; unfold passes; cbn [reads groupsOf].
  - exists c, cs. conjuncts; [exact H | lia | discriminate | reflexivity | reflexivity].
  - destruct (after c) as [|a rest] eqn:Hafter; [discriminate |].
    destruct (p a); [| discriminate].
    eexists _, cs.
    conjuncts; [exact H | unfold position; simpl; lia | unfold position; simpl; lia
               | | reflexivity].
    unfold subject. cbn [before after rev]. rewrite Hafter, <- app_assoc. reflexivity.
  - apply IH1 in H. destruct H as (c1 & cs1 & H1 & Hle & Hlt & Hsubject & Hkeep).
    apply IH2 in H1. destruct H1 as (c2 & cs2 & H2 & Hle2 & Hlt2 & Hsubject2 & Hkeep2).
    exists c2, cs2. conjuncts; [exact H2 | lia | | congruence |].
    + intros Hreads. apply orb_true_iff in Hreads.
      destruct Hreads as [Hr | Hr]; [specialize (Hlt Hr) | specialize (Hlt2 Hr)]; lia.
    + intros i Hi. rewrite in_app_iff in Hi.
      rewrite (Hkeep2 i), (Hkeep i); [reflexivity | tauto | tauto].
  - apply orElse_some in H.
    destruct H as [H | H]; [apply IH1 in H | apply IH2 in H];
      destruct H as (c1 & cs1 & H1 & Hle & Hlt & Hsubject & Hkeep);
      exists c1, cs1; (conjuncts; [exact H1 | exact Hle | | exact Hsubject |]).
    + intros Hreads. apply andb_true_iff in Hreads. tauto.
    + intros i Hi. rewrite in_app_iff in Hi. apply Hkeep. tauto.
    + intros Hreads. apply andb_true_iff in Hreads. tauto.
    + intros i Hi. rewrite in_app_iff in Hi. apply Hkeep. tauto.
  - destruct (starLoop_passes g (fun c' cs' k' => run ml r1 c' cs' k') k res (groupsOf r1))
      with (fuel := S (List.length (after c))) (c := c) (cs := cs)
      as (c1 & cs1 & H1 & Hle & Hsubject & Hkeep); [| exact H |].
    + intros c0 cs0 k' Hstep. apply IH1 in Hstep.
      destruct Hstep as (c1 & cs1 & H1 & Hle & _ & Hsubject & Hkeep).
      exists c1, cs1. conjuncts; assumption.
    + exists c1, cs1. conjuncts; [exact H1 | exact Hle | discriminate | exact Hsubject
                                 | exact Hkeep].
  - apply IH1 in H. destruct H as (c1 & cs1 & H1 & Hle & Hlt & Hsubject & Hkeep).
    exists c1, ((i, between c c1) :: cs1).
    conjuncts; [exact H1 | exact Hle | exact Hlt | exact Hsubject |].
    intros j Hj. cbn [In] in Hj. rewrite capture_other by (intros ->; tauto).
    apply Hkeep. tauto.
  - destruct (atBol ml c); [| discriminate].
    exists c, cs. conjuncts; [exact H | lia | discriminate | reflexivity | reflexivity].
  - destruct (atEol ml c); [| discriminate].
    exists c, cs. conjuncts; [exact H | lia | discriminate | reflexivity | reflexivity].
  - destruct (run ml r1 c cs (fun c' cs' => Some (c', cs'))) as [[c1 cs1]|] eqn:Hahead;
      [| discriminate].
    apply IH1 in Hahead. destruct Hahead as (c2 & cs2 & H2 & _ & _ & _ & Hkeep).
    injection H2 as -> ->.
    exists c, cs1. conjuncts; [exact H | lia | discriminate | reflexivity | exact Hkeep].
Qed.

(** The text between two positions of a subject, the second one
    further, is not empty. *)
Lemma between_nonempty (c c' : cursor) :
  position c < position c' -> subject c' = subject c -> between c c' <> "".
Proof.
  intros Hlt Hsubject. unfold between.
  assert (Hlen : position c' + List.length (after c')
                 = position c + List.length (after c)).
  { rewrite <- !subject_length. f_equal. exact Hsubject. }
  destruct (after c) as [|a rest]; [simpl in Hlen; lia |].
  destruct (position c' - position c) as [|n] eqn:Hn; [lia |].
  cbn [firstn]. apply l2s_cons_nonempty.
Qed.

(** A group around a pattern that reads, followed by a pattern that
    does not set it, holds a non-empty text when the whole has matched. *)
Lemma group_holds_text (ml : bool) (i : nat) (r rest : regex) (c : cursor)
  (cs : captures) (res : cursor * captures) :
  reads r = true -> ~ In i (groupsOf rest) ->
  run ml (Seq (Grp i r) rest) c cs (fun c' cs' => Some (c', cs')) = Some res ->
  exists text, capture i (snd res) = Some text /\ text <> "".
Proof.
  intros Hreads Hrest H. cbn [run] in H.
  apply run_passes in H. destruct H as (c1 & cs1 & H1 & _ & Hlt & Hsubject & _).
  apply run_passes in H1. destruct H1 as (c2 & cs2 & H2 & _ & _ & _ & Hkeep).
  injection H2 as <-. cbn [snd]. rewrite (Hkeep i Hrest).
  exists (between c c1). split.
  - cbn [capture]. rewrite Nat.eqb_refl. reflexivity.
  - exact (between_nonempty _ _ (Hlt Hreads) Hsubject).
Qed.

(** What precedes in a sequence can be stepped over. *)
Lemma run_seq_rest (ml : bool) (r rest : regex) (c : cursor) (cs : captures)
  (k : cont) (res : cursor * captures) :
  run ml (Seq r rest) c cs k = Some res ->
  exists c' cs', run ml rest c' cs' k = Some res /\ subject c' = subject c.
Proof.
  intros H. cbn [run] in H. apply run_passes in H.
  destruct H as (c1 & cs1 & H1 & _ & _ & Hsubject & _).
  exists c1, cs1. split; assumption.
Qed.

End CaptureFacts.

(* ================================================================== *)
(** * The names a class declaration gives *)
(* ================================================================== *)

Module ParsedNames.
Import Regex RegexFacts CaptureFacts.

Lemma exec_run (ml : bool) (r : regex) (s : string) (m : found) :
  exec ml r s = Some m ->
  run ml r (start m) [] (fun c' cs' => Some (c', cs')) = Some (stop m, groups m)
  /\ subject (start m) = s2l s.
Proof.
  unfold exec, execFrom. destruct (Nat.ltb _ 0); [discriminate |].
  intros H. apply searchFrom_run in H. destruct H as (Hrun & _ & Hsubject).
  split; [exact Hrun |]. rewrite Hsubject. reflexivity.
Qed.

Lemma group_of_capture (i : nat) (m : found) (text : string) :
  capture i (groups m) = Some text -> group i m = text.
Proof. unfold group. intros ->. reflexivity. Qed.

(** The class name and the superclass name the declaration pattern
    captures are never empty. *)
Lemma class_names_nonempty (s : string) (m : found) :
  exec false HeaderPatterns.classRe s = Some m ->
  group 1 m <> "" /\ group 2 m <> "".
Proof.
  intros H. apply exec_run in H. destruct H as (H & _).
  unfold HeaderPatterns.classRe, seqs in H. cbn [fold_right] in H.
  do 2 (apply run_seq_rest in H; destruct H as (? & ? & H & _)).
  split.
  - apply group_holds_text in H;
      [| reflexivity | cbn; intros [E | [E | []]]; discriminate E].
    destruct H as (text & Hcapture & Hne).
    rewrite (group_of_capture _ _ _ Hcapture). exact Hne.
  - do 4 (apply run_seq_rest in H; destruct H as (? & ? & H & _)).
    apply group_holds_text in H;
      [| reflexivity | cbn; intros [E | []]; discriminate E].
    destruct H as (text & Hcapture & Hne).
    rewrite (group_of_capture _ _ _ Hcapture). exact Hne.
Qed.

(** X10: A class declaration that parses gives a class with a name and a
    superclass, no member yet, and protocols without an empty name; one
    that does not parse raises the error with the trimmed declaration. *)
Theorem parsed_class_has_a_name_and_a_superclass (classDeclaration : string) :
  match parseClassDeclaration classDeclaration with
  | Ok c =>
      class_name c <> "" /\ superclass c <> ""
      /\ properties c = [] /\ methods c = []
      /\ Forall (fun protocol => protocol <> "") (protocols c)
  | Throw message =>
      message = ("Failed to parse class declaration: " ++ trim classDeclaration)%string
  end.
Proof.
  unfold parseClassDeclaration.
  destruct (exec false HeaderPatterns.classRe (trim classDeclaration)) as [m|] eqn:Hexec;
    [| reflexivity].
  destruct (class_names_nonempty _ _ Hexec) as [Hname Hsuper].
  cbn [class_name superclass properties methods protocols].
  conjuncts; [exact Hname | exact Hsuper | reflexivity | reflexivity |].
  apply Forall_forall. intros protocol Hin. apply filter_In in Hin.
  destruct Hin as [_ Hne]. apply Imports.nonEmpty_true_iff. exact Hne.
Qed.

(** A root class and a category are no class declarations for the
    parser. *)
Example declarations_without_a_superclass :
  parseClassDeclaration "@interface NSObject"
  = Throw "Failed to parse class declaration: @interface NSObject"
  /\ parseClassDeclaration "@interface NSView (Drawing)"
     = Throw "Failed to parse class declaration: @interface NSView (Drawing)"
  /\ parseClassDeclaration "@interface NSButton : NSControl <NSCoding, NSCopying> "
     = Ok {| class_name := "NSButton"; superclass := "NSControl";
             protocols := ["NSCoding"; "NSCopying"]; properties := []; methods := [];
             class_documentation := ""; class_availability := "" |}.
Proof. conjuncts; by_evaluation. Qed.

Lemma parsed_class_names (classDeclaration : string) :
  match parseClassDeclaration classDeclaration with
  | Ok c => class_name c <> "" /\ superclass c <> ""
  | Throw _ => True
  end.
Proof.
  unfold parseClassDeclaration.
  destruct (exec false HeaderPatterns.classRe (trim classDeclaration)) as [m|] eqn:Hexec;
    [| exact I].
  exact (class_names_nonempty _ _ Hexec).
Qed.

Lemma parsed_class_members (classDeclaration : string) :
  match parseClassDeclaration classDeclaration with
  | Ok c => properties c = [] /\ methods c = []
  | Throw _ => True
  end.
Proof.
  unfold parseClassDeclaration.
  destruct (exec false HeaderPatterns.classRe (trim classDeclaration)); [| exact I].
  split; reflexivity.
Qed.

End ParsedNames.

(* ================================================================== *)
(** * The loop over the lines of a header *)
(* ================================================================== *)

Module ScanFacts.

(** What one line can do to the classes: nothing, close the current
    class, open a class that parsed, or add a member to the current class
    (outside an implementation section). *)
Record Step (st : Scan) (rawLine : string) (st' : Scan) : Prop := {
  step_scanned :
    scanned st' = scanned st
    \/ exists c,
         currentClass st = Some c /\ scanned st' = scanned st ++ [c]
         /\ currentClass st' = None /\ startsWith (trim rawLine) "@end" = true;
  step_implementation :
    isInImplementation st = true -> isInImplementation st' = true;
  step_collecting :
    collecting st = None -> isInImplementation st = true -> collecting st' = None;
  step_class :
    currentClass st' = None
    \/ currentClass st' = currentClass st
    \/ (exists info,
          parseClassDeclaration (trim rawLine) = Ok info
          /\ (currentClass st' = Some info
              \/ exists doc, currentClass st' = Some (setDocumentation info doc)))
    \/ (exists c,
          currentClass st = Some c
          /\ (collecting st = None -> isInImplementation st = false)
          /\ ((exists p, currentClass st' = Some (addProperty c p))
              \/ exists m, currentClass st' = Some (addMethod c m)))
}.

Lemma scanMethod_step (st : Scan) (c : ObjCClass) (declaration rawLine : string) :
  currentClass st = Some c ->
  (collecting st = None -> isInImplementation st = false) ->
  Step st rawLine (scanMethod st c declaration).
Proof.
  intros Hc Hflag. unfold scanMethod.
  destruct (nonEmpty (currentDocComment st));
    [destruct (parseObjCHeader _) | destruct (parseMethodSignature _)];
    (split; cbn [withClass scanned currentClass isInImplementation collecting];
     [left; reflexivity | exact (fun H => H) | reflexivity |]);
    try (right; left; symmetry; exact Hc);
    right; right; right; exists c; (split; [exact Hc |]); (split; [exact Hflag |]);
    right; eexists; reflexivity.
Qed.

Ltac step_fields :=
  split; cbn [withClass scanned currentClass isInImplementation collecting];
  [ first [ left; reflexivity
          | right; eexists; repeat split; (reflexivity || eassumption) ]
  | intros; first [assumption | reflexivity | congruence]
  | intros; first [reflexivity | congruence]
  | first [ left; reflexivity
          | right; left; congruence
          | right; right; left; eexists; split;
            [eassumption | first [left; reflexivity | right; eexists; reflexivity]]
          | right; right; right; eexists; split;
            [ first [reflexivity | eassumption]
            | split; [ intros; congruence
                     | first [left; eexists; reflexivity
                             | right; eexists; reflexivity] ] ] ] ].

Ltac step_cases Hsame :=
  repeat match goal with
         | |- Step _ _ (if ?b then _ else _) => destruct b eqn:?
         | |- Step _ _ (match ?x with _ => _ end) => destruct x eqn:?
         end;
  first [ exact Hsame
        | apply scanMethod_step; [congruence | intros; congruence]
        | step_fields ].

Lemma scanLine_step (st : Scan) (rawLine : string) : Step st rawLine (scanLine st rawLine).
Proof.
  assert (Hsame : Step st rawLine st).
  { split; [left; reflexivity | exact (fun H => H) | exact (fun H _ => H)
           | right; left; reflexivity]. }
  unfold scanLine. cbn zeta.
  destruct (collecting st) as [declaration|] eqn:Hcollecting;
    destruct (currentClass st) as [c|] eqn:Hclass.
  - destruct (includes _ ";").
    + apply scanMethod_step; [exact Hclass | rewrite Hcollecting; discriminate].
    + split; cbn [scanned currentClass isInImplementation collecting];
        [left; reflexivity | exact (fun H => H) | rewrite Hcollecting; discriminate
        | right; left; congruence].
  - step_cases Hsame.
  - step_cases Hsame.
  - step_cases Hsame.
Qed.

Lemma scanEnd_step (st : Scan) : Step st "" (scanEnd st).
Proof.
  unfold scanEnd.
  destruct (collecting st) as [declaration|] eqn:Hcollecting;
    [destruct (currentClass st) as [c|] eqn:Hclass |];
    try (split; [left; reflexivity | exact (fun H => H) | exact (fun H _ => H)
                | right; left; reflexivity]).
  apply scanMethod_step; [exact Hclass | rewrite Hcollecting; discriminate].
Qed.


(** What every step keeps holds of the classes of a header. *)
Lemma scan_invariant (P : Scan -> Prop) :
  (forall st rawLine, P st -> P (scanLine st rawLine)) ->
  forall lines st, P st -> P (fold_left scanLine lines st).
Proof.
  intros Hstep. induction lines as [|rawLine lines IH]; intros st H; [exact H |].
  cbn [fold_left]. apply IH. apply Hstep. exact H.
Qed.

Definition initialScan : Scan :=
  {| scanned := []; currentClass := None; currentDocComment := "";
     isInDocComment := false; isInImplementation := false; collecting := None |}.

(** The lines of a header, as [parseObjCHeaderFile] splits it. *)
Definition headerLines (headerContent : string) : list string :=
  Regex.split false DocPatterns.newlineRe headerContent.

Lemma parseObjCHeaderFile_scan (headerContent : string) :
  parseObjCHeaderFile headerContent
  = scanned (scanEnd (fold_left scanLine (headerLines headerContent) initialScan)).
Proof. reflexivity. Qed.

(** ** Every extracted class has a name and a superclass *)

Definition named (c : ObjCClass) : Prop := class_name c <> "" /\ superclass c <> "".

Definition allNamed (st : Scan) : Prop :=
  Forall named (scanned st) /\ forall c, currentClass st = Some c -> named c.

Lemma step_allNamed (st st' : Scan) (rawLine : string) :
  Step st rawLine st' -> allNamed st -> allNamed st'.
Proof.
  intros [Hscanned _ _ Hclass] [Hall Hcurrent]. split.
  - destruct Hscanned as [-> | (c & Hc & -> & _)]; [exact Hall |].
    apply Forall_app. split; [exact Hall |].
    constructor; [exact (Hcurrent c Hc) | constructor].
  - intros c' Hc'.
    destruct Hclass as [H | [H | [(info & Hparse & H) | (c & Hc & _ & H)]]].
    + congruence.
    + apply Hcurrent. congruence.
    + pose proof (ParsedNames.parsed_class_names (trim rawLine)) as Hnames.
      rewrite Hparse in Hnames.
      destruct H as [H | (doc & H)]; rewrite H in Hc'; injection Hc' as <-;
        exact Hnames.
    + specialize (Hcurrent c Hc).
      destruct H as [(p & H) | (m & H)]; rewrite H in Hc'; injection Hc' as <-;
        exact Hcurrent.
Qed.

(** X11: Every class extracted from a header has a name and a superclass: a
    declaration without one does not parse.  Its generated file therefore
    has three imports, the third being the module of the superclass, and
    the generated class extends the superclass. *)
Theorem extracted_class_has_a_superclass (headerContent : string) (c : ObjCClass) :
  In c (parseObjCHeaderFile headerContent) ->
  class_name c <> "" /\ superclass c <> ""
  /\ imports (Main.generateFile c)
     = Main.bridgeImports ++ [Main.superclassImport (superclass c)]
  /\ extends (Main.generateClass c) = Some (superclass c).
Proof.
  intros Hin. rewrite parseObjCHeaderFile_scan in Hin.
  assert (Hall : allNamed (scanEnd (fold_left scanLine (headerLines headerContent) initialScan))).
  { apply (step_allNamed _ _ "" (scanEnd_step _)).
    apply (scan_invariant allNamed).
    - intros st rawLine. exact (step_allNamed _ _ _ (scanLine_step st rawLine)).
    - split; [constructor | discriminate]. }
  destruct Hall as [Hall _]. rewrite Forall_forall in Hall.
  destruct (Hall c Hin) as [Hname Hsuper].
  split; [exact Hname | split; [exact Hsuper |]].
  cbn [Main.generateFile imports Main.generateClass extends].
  unfold Main.fileImports, truthy.
  apply Imports.nonEmpty_true_iff in Hsuper. rewrite Hsuper. split; reflexivity.
Qed.

Lemma extracted_class_has_a_superclass_witness :
  superclass {| class_name := "NSButton"; superclass := "NSControl"; protocols := [];
                properties := [{| prop_name := "tag"; prop_type := "NSInteger";
                                  isReadOnly := true; isNullable := false;
                                  prop_documentation := ""; attributes := ["readonly"] |}];
                methods := []; class_documentation := ""; class_availability := "" |}
  <> "".
Proof.
  refine (proj1 (proj2 (extracted_class_has_a_superclass Imports.buttonHeader _ _))).
  vm_compute. left. reflexivity.
Defined.

(** ** Classes are pushed by their closing line *)

Lemma step_not_closed (st st' : Scan) (rawLine : string) :
  Step st rawLine st' -> startsWith (trim rawLine) "@end" = false ->
  scanned st' = scanned st.
Proof.
  intros [[H | (c & _ & _ & _ & Hend)] _ _ _] Hline; [exact H | congruence].
Qed.

Lemma scanEnd_scanned (st : Scan) : scanned (scanEnd st) = scanned st.
Proof.
  unfold scanEnd. destruct (collecting st); [| reflexivity].
  destruct (currentClass st); [| reflexivity].
  unfold scanMethod.
  destruct (nonEmpty _); [destruct (parseObjCHeader _) | destruct (parseMethodSignature _)];
    reflexivity.
Qed.

(** X12: A class reaches the result only through a line that starts with
    [@end]: a header without such a line yields no class, whatever it
    declares. *)
Theorem unclosed_classes_are_dropped (headerContent : string) :
  (forall rawLine,
      In rawLine (headerLines headerContent) ->
      startsWith (trim rawLine) "@end" = false) ->
  parseObjCHeaderFile headerContent = [].
Proof.
  intros Hlines. rewrite parseObjCHeaderFile_scan, scanEnd_scanned.
  assert (Hgen : forall lines st,
            (forall rawLine, In rawLine lines -> startsWith (trim rawLine) "@end" = false) ->
            scanned (fold_left scanLine lines st) = scanned st).
  { induction lines as [|rawLine lines IH]; intros st H; [reflexivity |].
    cbn [fold_left]. rewrite IH by (intros l Hl; apply H; right; exact Hl).
    apply (step_not_closed _ _ rawLine (scanLine_step st rawLine)).
    apply H. left. reflexivity. }
  exact (Hgen _ initialScan Hlines).
Qed.

Definition unclosedHeader : string :=
  ("@interface NSButton : NSControl" ++ String DocPatterns.LF ""
   ++ "@property (readonly) NSInteger tag;" ++ String DocPatterns.LF "")%string.

Lemma unclosed_classes_are_dropped_witness : parseObjCHeaderFile unclosedHeader = [].
Proof.
  apply unclosed_classes_are_dropped. intros rawLine Hin.
  vm_compute in Hin.
  destruct Hin as [<- | [<- | [<- | []]]]; vm_compute; reflexivity.
Defined.

(** ** An implementation section never ends *)

Definition memberless (c : ObjCClass) : Prop := properties c = [] /\ methods c = [].

(** A class of the state [st'] that was in [st] already, or has no
    member. *)
Definition oldOrMemberless (st : Scan) (c : ObjCClass) : Prop :=
  In c (scanned st) \/ currentClass st = Some c \/ memberless c.

Definition frozenSince (st st' : Scan) : Prop :=
  isInImplementation st' = true /\ collecting st' = None
  /\ Forall (oldOrMemberless st) (scanned st')
  /\ forall c, currentClass st' = Some c -> oldOrMemberless st c.

Lemma step_frozen (st0 st st' : Scan) (rawLine : string) :
  Step st rawLine st' -> frozenSince st0 st -> frozenSince st0 st'.
Proof.
  intros [Hscanned Himplementation Hcollecting Hclass] (Hflag & Hnone & Hall & Hcurrent).
  split; [exact (Himplementation Hflag) |].
  split; [exact (Hcollecting Hnone Hflag) |]. split.
  - destruct Hscanned as [-> | (c & Hc & -> & _)]; [exact Hall |].
    apply Forall_app. split; [exact Hall |].
    constructor; [exact (Hcurrent c Hc) | constructor].
  - intros c' Hc'.
    destruct Hclass as [H | [H | [(info & Hparse & H) | (c & Hc & Hout & _)]]].
    + congruence.
    + apply Hcurrent. congruence.
    + right; right.
      pose proof (ParsedNames.parsed_class_members (trim rawLine)) as Hmembers.
      rewrite Hparse in Hmembers.
      destruct H as [H | (doc & H)]; rewrite H in Hc'; injection Hc' as <-;
        exact Hmembers.
    + specialize (Hout Hnone). congruence.
Qed.

(** X13: The line [@end] is taken as the end of a class before the
    implementation flag is looked at, so the flag, once set by an
    [@implementation] line, stays set: from then on no property and no
    method is read, and every class that is declared afterwards comes out
    without members. *)
Theorem implementation_section_never_ends (st : Scan) (lines : list string) :
  isInImplementation st = true ->
  collecting st = None ->
  let st' := scanEnd (fold_left scanLine lines st) in
  isInImplementation st' = true
  /\ forall c,
       In c (scanned st') ->
       In c (scanned st) \/ currentClass st = Some c
       \/ (properties c = [] /\ methods c = []).
Proof.
  intros Hflag Hnone st'.
  assert (Hfrozen : frozenSince st st').
  { apply (step_frozen st _ _ "" (scanEnd_step _)).
    apply (scan_invariant (frozenSince st)).
    - intros st1 rawLine. exact (step_frozen st _ _ _ (scanLine_step st1 rawLine)).
    - split; [exact Hflag |]. split; [exact Hnone |]. split.
      + apply Forall_forall. intros c Hc. left. exact Hc.
      + intros c Hc. right; left. exact Hc. }
  destruct Hfrozen as (Hflag' & _ & Hall & _).
  split; [exact Hflag' |]. rewrite Forall_forall in Hall. exact Hall.
Qed.

Definition inImplementation : Scan :=
  {| scanned := []; currentClass := None; currentDocComment := "";
     isInDocComment := false; isInImplementation := true; collecting := None |}.

Lemma implementation_section_never_ends_witness :
  isInImplementation
    (scanEnd (fold_left scanLine
                ["@end"; "@interface NSView : NSResponder"; "- (void)display;"; "@end"]
                inImplementation))
  = true.
Proof.
  exact (proj1 (implementation_section_never_ends inImplementation
                  ["@end"; "@interface NSView : NSResponder"; "- (void)display;"; "@end"]
                  eq_refl eq_refl)).
Defined.

(** A header with an implementation section before a class: the class
    is extracted without its property and its method. *)
Example class_after_an_implementation :
  parseObjCHeaderFile
    ("@implementation NSThing" ++ String DocPatterns.LF ""
     ++ "@end" ++ String DocPatterns.LF ""
     ++ "@interface NSView : NSResponder" ++ String DocPatterns.LF ""
     ++ "@property (readonly) NSInteger tag;" ++ String DocPatterns.LF ""
     ++ "- (void)display;" ++ String DocPatterns.LF ""
     ++ "@end" ++ String DocPatterns.LF "")
  = [{| class_name := "NSView"; superclass := "NSResponder"; protocols := [];
        properties := []; methods := []; class_documentation := "";
        class_availability := "" |}].
Proof. by_evaluation. Qed.

End ScanFacts.

(* ================================================================== *)
(** * Texts a pattern cannot match *)
(* ================================================================== *)

Module TextFacts.
Import StringFacts Regex RegexFacts CaptureFacts.

Lemma indexOfL_suffix (p l1 l2 : chars) :
  isPrefixL p l2 = true -> indexOfL p (l1 ++ l2) <> None.
Proof.
  intros H. induction l1 as [|a l1 IH]; cbn [app].
  - destruct l2; cbn [indexOfL]; rewrite H; discriminate.
  - cbn [indexOfL]. destruct (isPrefixL p (a :: l1 ++ l2)); [discriminate |].
    destruct (indexOfL p (l1 ++ l2)); [discriminate | contradiction].
Qed.

Lemma includes_suffix (s p : string) (c : cursor) :
  subject c = s2l s -> isPrefixL (s2l p) (after c) = true -> includes s p = true.
Proof.
  intros Hsubject Hprefix. unfold includes. rewrite <- Hsubject. unfold subject.
  pose proof (indexOfL_suffix (s2l p) (rev (before c)) (after c) Hprefix) as H.
  destruct (indexOfL _ _); [reflexivity | contradiction].
Qed.

(** A literal matches only where the text has it. *)
Lemma run_lit_prefix (ml : bool) (w : chars) :
  forall c cs k res,
    run ml (seqs (map chr w)) c cs k = Some res -> isPrefixL w (after c) = true.
Proof.
  induction w as [|a w IH]; intros c cs k res H; [reflexivity |].
  cbn [map seqs fold_right run chr] in H. fold (seqs (map chr w)) in H.
  destruct (after c) as [|b rest]; [discriminate |]. cbn [isPrefixL].
  destruct (Ascii.eqb a b); [| discriminate].
  apply IH in H. exact H.
Qed.

(** A pattern that starts with a literal matches only a text that
    contains the literal. *)
Lemma exec_literal (ml : bool) (w : string) (rest : regex) (s : string) (m : found) :
  exec ml (Seq (lit w) rest) s = Some m -> includes s w = true.
Proof.
  intros H. apply ParsedNames.exec_run in H. destruct H as (H & Hsubject).
  cbn [run] in H. unfold lit in H. apply run_lit_prefix in H.
  exact (includes_suffix _ _ _ Hsubject H).
Qed.

Lemma includes_char (a : ascii) (s : string) :
  In a (s2l s) -> includes s (String a "") = true.
Proof.
  unfold includes. cbn [s2l list_ascii_of_string]. intros H.
  induction (s2l s) as [|b l IH]; [destruct H |].
  cbn [indexOfL isPrefixL].
  destruct (Ascii.eqb a b) eqn:E; [reflexivity |]. cbn [andb].
  destruct H as [-> | H]; [rewrite Ascii.eqb_refl in E; discriminate |].
  specialize (IH H). destruct (indexOfL [a] l); [reflexivity | discriminate].
Qed.

Lemma trimStartL_incl (l : chars) (a : ascii) : In a (trimStartL l) -> In a l.
Proof.
  induction l as [|b l IH]; [exact (fun H => H) |]. cbn [trimStartL].
  destruct (isWhiteSpace b); [intros H; right; exact (IH H) | exact (fun H => H)].
Qed.

Lemma trim_incl (s : string) (a : ascii) : In a (s2l (trim s)) -> In a (s2l s).
Proof.
  unfold trim, trimL. rewrite s2l_l2s. intros H.
  apply in_rev, trimStartL_incl, in_rev, trimStartL_incl in H. exact H.
Qed.

Lemma removelast_incl {A} (l : list A) (a : A) : In a (removelast l) -> In a l.
Proof.
  induction l as [|b l IH]; [exact (fun H => H) |]. cbn [removelast].
  destruct l as [|b' l]; [intros [] |].
  intros [<- | H]; [left; reflexivity | right; exact (IH H)].
Qed.

Lemma dropLast_incl (s : string) (a : ascii) : In a (s2l (dropLast s)) -> In a (s2l s).
Proof. unfold dropLast. rewrite s2l_l2s. apply removelast_incl. Qed.

End TextFacts.

(* ================================================================== *)
(** * Declarations the parsers refuse *)
(* ================================================================== *)

Module Refusals.
Import StringFacts Regex RegexFacts CaptureFacts TextFacts.

(** The declaration as [parseMethodSignature] first cleans it. *)
Definition cleanSignature (signature : string) : string :=
  if endsWith (trim signature) ";" then dropLast (trim signature) else trim signature.

Lemma cleanSignature_incl (signature : string) (a : ascii) :
  In a (s2l (cleanSignature signature)) -> In a (s2l signature).
Proof.
  unfold cleanSignature. destruct (endsWith _ ";"); intros H;
    [apply dropLast_incl in H |]; exact (trim_incl _ _ H).
Qed.

(** The return type pattern needs an opening parenthesis. *)
Lemma return_type_needs_parenthesis (s : string) (m : found) :
  exec false Patterns.returnTypeRe s = Some m -> In "("%char (s2l s).
Proof.
  intros H. apply ParsedNames.exec_run in H. destruct H as (H & Hsubject).
  unfold Patterns.returnTypeRe, seqs in H. cbn [fold_right] in H.
  apply run_seq_rest in H. destruct H as (c1 & cs1 & H & Hsubject1).
  apply run_seq_rest in H. destruct H as (c2 & cs2 & H & Hsubject2).
  cbn [run chr] in H.
  destruct (after c2) as [|a rest] eqn:Hafter; [discriminate |].
  destruct (Ascii.eqb "(" a) eqn:E; [| discriminate].
  apply Ascii.eqb_eq in E. subst a.
  rewrite <- Hsubject, <- Hsubject1, <- Hsubject2. unfold subject.
  rewrite Hafter. apply in_or_app. right. left. reflexivity.
Qed.

(** X14: A declaration without an opening parenthesis has no return type for
    the parser: it is refused, and the error quotes the declaration as it
    was cleaned (trimmed, without its final semicolon). *)
Theorem declaration_without_parenthesis_is_refused (signature : string) :
  includes signature "(" = false ->
  parseMethodSignature signature
  = Throw ("Failed to parse return type from signature: " ++ cleanSignature signature).
Proof.
  intros Hnone. unfold parseMethodSignature. cbn zeta. fold (cleanSignature signature).
  destruct (exec false Patterns.returnTypeRe (cleanSignature signature)) as [m|] eqn:Hexec;
    [| reflexivity].
  apply return_type_needs_parenthesis, cleanSignature_incl, includes_char in Hexec.
  congruence.
Qed.

Lemma declaration_without_parenthesis_is_refused_witness :
  parseMethodSignature "  - foo;  "
  = Throw "Failed to parse return type from signature: - foo".
Proof.
  exact (declaration_without_parenthesis_is_refused "  - foo;  " eq_refl).
Defined.

(** X15: The single-method input needs a doc comment opened by [/*!] and a
    signature behind [//]: without either of them it is refused, before
    any parsing. *)
Theorem header_definition_needs_comment_and_signature (headerDefinition : string) :
  includes headerDefinition "/*!" = false \/ includes headerDefinition "//" = false ->
  parseObjCHeader headerDefinition = Throw "Invalid Objective-C header definition format".
Proof.
  intros Hnone. unfold parseObjCHeader.
  destruct (exec false HeaderPatterns.docCommentRe headerDefinition) as [doc|] eqn:Hdoc;
    [| reflexivity].
  destruct (exec false HeaderPatterns.commentedSignatureRe headerDefinition)
    as [signature|] eqn:Hsignature; [| reflexivity].
  unfold HeaderPatterns.docCommentRe, seqs in Hdoc. cbn [fold_right] in Hdoc.
  apply exec_literal in Hdoc.
  unfold HeaderPatterns.commentedSignatureRe, seqs in Hsignature.
  cbn [fold_right] in Hsignature. apply exec_literal in Hsignature.
  destruct Hnone; congruence.
Qed.

Lemma header_definition_needs_comment_and_signature_witness :
  parseObjCHeader "- (void)foo:(NSObject *)bar;"
  = Throw "Invalid Objective-C header definition format".
Proof.
  apply header_definition_needs_comment_and_signature. left. vm_compute. reflexivity.
Defined.

End Refusals.

(* ================================================================== *)
(** * The keys of the method groups *)
(* ================================================================== *)

Module GroupKeys.

Lemma set_keys_NoDup {V} (k : string) (v : V) (o : Obj.t V) :
  NoDup (map fst o) -> NoDup (map fst (Obj.set k v o)).
Proof.
  induction o as [|[k' v'] o IH]; intros H; cbn [Obj.set map fst].
  - constructor; [intros [] | constructor].
  - inversion H as [|x l Hfresh Hrest]; subst.
    destruct (String.eqb k k') eqn:E; cbn [map fst].
    + apply String.eqb_eq in E. subst k'. constructor; assumption.
    + constructor; [| exact (IH Hrest)].
      intros Hin. apply in_map_iff in Hin. destruct Hin as ([k0 v0] & Hk & Hin).
      cbn [fst] in Hk. subst k0. apply MemberFacts.set_In in Hin.
      destruct Hin as [Heq | Hin].
      * injection Heq as -> _. rewrite String.eqb_refl in E. discriminate.
      * apply Hfresh. apply in_map_iff. exists (k', v0). split; [reflexivity | exact Hin].
Qed.

Lemma In_getOwn {V} (k : string) (v : V) (o : Obj.t V) :
  NoDup (map fst o) -> In (k, v) o -> Obj.getOwn k o = Some v.
Proof.
  induction o as [|[k' v'] o IH]; intros Hnodup Hin; [destruct Hin |].
  inversion Hnodup as [|x l Hfresh Hrest]; subst. cbn [Obj.getOwn].
  destruct Hin as [Heq | Hin].
  - injection Heq as -> ->. rewrite String.eqb_refl. reflexivity.
  - destruct (String.eqb k k') eqn:E; [| exact (IH Hrest Hin)].
    apply String.eqb_eq in E. subst k'. exfalso. apply Hfresh.
    apply in_map_iff. exists (k, v). split; [reflexivity | exact Hin].
Qed.

Lemma groupMethods_keys :
  forall (ms : list ObjCMethod) acc groups,
    Main.groupMethods ms acc = Ok groups ->
    NoDup (map fst acc) -> NoDup (map fst groups).
Proof.
  induction ms as [|method ms IH]; intros acc groups H Hacc; simpl in H.
  - injection H as <-. exact Hacc.
  - destruct (startsWith (name method) "init"); [exact (IH _ _ H Hacc) |].
    destruct (Obj.get (Main.methodKey method) acc); [| discriminate |];
      apply (IH _ _ H); apply set_keys_NoDup; exact Hacc.
Qed.

(** Each group is made of the methods with its key, in declaration
    order. *)
Lemma group_is_groupOf (ms : list ObjCMethod) (groups : Obj.t (list ObjCMethod))
  (key : string) (group : list ObjCMethod) :
  Main.groupMethods ms [] = Ok groups ->
  In (key, group) groups -> group = Grouping.groupOf key ms.
Proof.
  intros H Hin.
  apply (In_getOwn key group groups (groupMethods_keys _ _ _ H (NoDup_nil _))) in Hin.
  rewrite (Grouping.groupMethods_getOwn _ _ _ key H) in Hin. cbn [Obj.getOwn] in Hin.
  destruct (Grouping.groupOf key ms); [discriminate |]. injection Hin as <-. reflexivity.
Qed.

End GroupKeys.

(* ================================================================== *)
(** * The post-processing pass on a class without overloads *)
(* ================================================================== *)

Module ReflowFacts.
Import Regex.

Lemma reflowGroups_single (fileContent : string) :
  forall entries : list (string * list ObjCMethod),
    (forall key methods, In (key, methods) entries -> List.length methods <= 1) ->
    Reflow.reflowGroups fileContent entries = Some fileContent.
Proof.
  induction entries as [|[key group] entries IH]; intros H; [reflexivity |].
  cbn [Reflow.reflowGroups]. unfold Reflow.reflowGroup.
  assert (Hle : Nat.leb (List.length group) 1 = true).
  { apply Nat.leb_le. apply (H key). left. reflexivity. }
  rewrite Hle. apply IH. intros k g Hin. apply (H k). right. exact Hin.
Qed.

(** X16: On the file of a class in which no two methods share a key, the
    pass moves nothing, and when the text has no JSDoc opening it inserts
    nothing either: the text is left as it is, however often the pass
    runs. *)
Theorem pass_without_overloads_changes_nothing (c : ObjCClass) (fileContent : string) :
  (forall key, List.length (Grouping.groupOf key (methods c)) <= 1) ->
  includes fileContent "/**" = false ->
  Reflow.postProcess c fileContent = Some fileContent
  /\ Reflow.postProcessTwice c fileContent = Some fileContent.
Proof.
  intros Hsingle Hnone.
  assert (Honce : Reflow.postProcess c fileContent = Some fileContent).
  { unfold Reflow.postProcess.
    destruct (Main.groupMethods (methods c) []) as [groups | message] eqn:Hgroups;
      [| reflexivity].
    rewrite reflowGroups_single.
    - cbn [Reflow.fixMissingMethods].
      destruct (execFrom false Reflow.missingMethodRe fileContent 0) as [m|] eqn:Hexec;
        [| reflexivity].
      unfold Reflow.missingMethodRe, seqs in Hexec. cbn [fold_right] in Hexec.
      apply (TextFacts.exec_literal false "/**") in Hexec. congruence.
    - intros key methods Hin. apply MemberFacts.entries_In in Hin.
      rewrite (GroupKeys.group_is_groupOf _ _ _ _ Hgroups Hin). apply Hsingle. }
  split; [exact Honce |]. unfold Reflow.postProcessTwice. rewrite Honce. exact Honce.
Qed.

Lemma pass_without_overloads_changes_nothing_witness :
  Reflow.postProcessTwice
    {| class_name := "NSThing"; superclass := "NSObject"; protocols := [];
       properties := [];
       methods := [ArgumentOrder.voidMethod "foo:" [ArgumentOrder.intParameter "a"]];
       class_documentation := ""; class_availability := "" |}
    "export class NSThing extends NSObject { }"
  = Some "export class NSThing extends NSObject { }".
Proof.
  apply pass_without_overloads_changes_nothing.
  - intros key. unfold Grouping.groupOf. cbn [methods filter].
    destruct (_ && _); cbn [List.length]; lia.
  - vm_compute. reflexivity.
Defined.

End ReflowFacts.

(* ================================================================== *)
(** * Documentation without tags *)
(* ================================================================== *)

Module PlainDocumentation.
Import StringFacts TextFacts.

Lemma indexOfL_In (p l : chars) (a : ascii) (i : nat) :
  indexOfL p l = Some i -> In a p -> In a l.
Proof.
  revert i. induction l as [|b l IH]; intros i H Hin; cbn [indexOfL] in H.
  - destruct (isPrefixL p []) eqn:Hprefix; [| discriminate].
    destruct p; [destruct Hin | discriminate].
  - destruct (isPrefixL p (b :: l)) eqn:Hprefix.
    + apply isPrefixL_split in Hprefix. destruct Hprefix as (rest & ->).
      apply in_or_app. left. exact Hin.
    + destruct (indexOfL p l) as [j|]; [| discriminate].
      right. exact (IH j eq_refl Hin).
Qed.

(** A text without [@] contains no tag and starts with none. *)
Lemma no_at_no_tag (line tag : string) :
  includes line "@" = false -> In "@"%char (s2l tag) -> includes line tag = false.
Proof.
  intros Hnone Htag. unfold includes.
  destruct (indexOfL (s2l tag) (s2l line)) as [i|] eqn:Hindex; [| reflexivity].
  apply (indexOfL_In _ _ "@"%char) in Hindex; [| exact Htag].
  apply includes_char in Hindex. congruence.
Qed.

Lemma startsWith_includes (s p : string) : startsWith s p = true -> includes s p = true.
Proof.
  unfold startsWith, includes. intros H.
  destruct (s2l s); cbn [indexOfL]; rewrite H; reflexivity.
Qed.

Lemma no_at_no_start (line tag : string) :
  includes line "@" = false -> In "@"%char (s2l tag) -> startsWith line tag = false.
Proof.
  intros Hnone Htag. destruct (startsWith line tag) eqn:E; [| reflexivity].
  apply startsWith_includes in E. rewrite (no_at_no_tag _ _ Hnone Htag) in E.
  discriminate.
Qed.

Lemma plain_lines_are_collected :
  forall (lines : list string) (st : DocState),
    currentParam st = "" ->
    (forall line, In line lines -> includes line "@" = false) ->
    fold_left docLine lines st
    = {| st_paramDocs := st_paramDocs st; st_returnDoc := st_returnDoc st;
         st_mainDocLines := st_mainDocLines st ++ lines;
         currentParam := currentParam st; currentParamDoc := currentParamDoc st |}.
Proof.
  induction lines as [|line lines IH]; intros st Hparam Hplain.
  - rewrite app_nil_r. destruct st; reflexivity.
  - cbn [fold_left].
    assert (Hline : includes line "@" = false) by (apply Hplain; left; reflexivity).
    assert (Hstep : docLine st line
                    = {| st_paramDocs := st_paramDocs st; st_returnDoc := st_returnDoc st;
                         st_mainDocLines := st_mainDocLines st ++ [line];
                         currentParam := currentParam st;
                         currentParamDoc := currentParamDoc st |}).
    { unfold docLine.
      rewrite (no_at_no_start line "@param" Hline) by (left; reflexivity).
      rewrite (no_at_no_start line "@return" Hline) by (left; reflexivity).
      rewrite (no_at_no_start line "@" Hline) by (left; reflexivity).
      rewrite Hparam. reflexivity. }
    rewrite Hstep, IH; [| exact Hparam | intros l Hl; apply Hplain; right; exact Hl].
    cbn [st_paramDocs st_returnDoc st_mainDocLines currentParam currentParamDoc].
    rewrite <- app_assoc. reflexivity.
Qed.

(** X17: A comment whose lines hold no [@] is all description: the lines,
    joined by one space, with no parameter entry and no return
    description. *)
Theorem comment_without_tags_is_all_description (docComment : string) :
  (forall line, In line (docLines docComment) -> includes line "@" = false) ->
  parseDocumentation docComment
  = {| mainDoc := trim (join " " (docLines docComment));
       paramDocs := [];
       returnDoc := "" |}.
Proof.
  intros Hplain.
  assert (Hblock : blockDocumentation (docLines docComment)
                   = {| mainDoc := trim (join " " (docLines docComment));
                        paramDocs := []; returnDoc := "" |}).
  { unfold blockDocumentation.
    rewrite (plain_lines_are_collected _ initialDocState eq_refl Hplain). reflexivity. }
  unfold parseDocumentation.
  destruct (docLines docComment) as [|single [|second others]] eqn:Hlines;
    [exact Hblock | | exact Hblock].
  rewrite (no_at_no_tag single "@param"); [exact Hblock | | left; reflexivity].
  apply Hplain. left. reflexivity.
Qed.

Lemma comment_without_tags_is_all_description_witness :
  parseDocumentation "/*! A button. */"
  = {| mainDoc := trim (join " " (docLines "/*! A button. */"));
       paramDocs := []; returnDoc := "" |}.
Proof.
  apply comment_without_tags_is_all_description. intros line Hin.
  vm_compute in Hin. destruct Hin as [<- | []]. vm_compute. reflexivity.
Defined.

End PlainDocumentation.

(* ================================================================== *)
(** * Properties that failed to parse *)
(* ================================================================== *)

Module FailedProperties.




End FailedProperties.

(* ================================================================== *)
(** * What a key tells about its methods *)
(* ================================================================== *)

Module MethodKeys.
Import StringFacts.

Lemma indexOfL_prefix (p l : chars) : indexOfL p (p ++ l) = Some 0.
Proof.
  destruct (p ++ l) eqn:E; cbn [indexOfL]; rewrite <- E, isPrefixL_app; reflexivity.
Qed.

(** X19: A key tells back whether its methods are class methods and what
    their base name is, as long as the base name of an instance method
    does not contain [static_] itself. *)
Theorem key_tells_static_and_base_name (method : ObjCMethod) :
  isClassMethod method = true
  \/ includes (Main.baseName (name method)) "static_" = false ->
  startsWith (Main.methodKey method) "static_" = isClassMethod method
  /\ replaceStr (Main.methodKey method) "static_" "" = Main.baseName (name method).
Proof.
  unfold Main.methodKey. destruct (isClassMethod method) eqn:Hstatic.
  - intros _. split.
    + unfold startsWith. rewrite s2l_app. apply isPrefixL_app.
    + unfold replaceStr. rewrite s2l_app, indexOfL_prefix.
      cbn [firstn app expandReplacement s2l list_ascii_of_string Nat.add
           List.length skipn].
      apply l2s_s2l.
  - intros [H | H]; [discriminate |]. cbn [String.append]. split.
    + destruct (startsWith (Main.baseName (name method)) "static_") eqn:E;
        [| reflexivity].
      apply PlainDocumentation.startsWith_includes in E. congruence.
    + unfold replaceStr. unfold includes in H.
      destruct (indexOfL (s2l "static_") (s2l (Main.baseName (name method))));
        [discriminate | reflexivity].
Qed.

Lemma key_tells_static_and_base_name_witness :
  replaceStr (Main.methodKey
                {| isClassMethod := true; returnType := "instancetype";
                   name := "buttonWithTitle:target:action:"; parameters := [];
                   documentation := ""; returnDocumentation := ""; availability := "" |})
             "static_" ""
  = "buttonWithTitle".
Proof.
  exact (proj2 (key_tells_static_and_base_name
                  {| isClassMethod := true; returnType := "instancetype";
                     name := "buttonWithTitle:target:action:"; parameters := [];
                     documentation := ""; returnDocumentation := ""; availability := "" |}
                  (or_introl eq_refl))).
Defined.

(** An instance method whose name starts with [static_] is taken for a
    class method. *)
Example instance_method_named_static :
  let method := {| isClassMethod := false; returnType := "void"; name := "static_cast:";
                   parameters := []; documentation := ""; returnDocumentation := "";
                   availability := "" |} in
  startsWith (Main.methodKey method) "static_" = true
  /\ replaceStr (Main.methodKey method) "static_" "" = "cast".
Proof. split; by_evaluation. Qed.

End MethodKeys.

(* ================================================================== *)
(** * Methods that are alone in their group *)
(* ================================================================== *)

Module LoneMethods.






End LoneMethods.

(* ================================================================== *)
(** * The documentation of the parameters *)
(* ================================================================== *)

Module ParameterDocumentation.

(** The parameters with the documentation entries laid over them, the
    first entry on the first parameter and so on. *)
Fixpoint documentedInOrder (ps : list ObjCParameter) (docs : list (string * string))
  : list ObjCParameter :=
  match ps, docs with
  | p :: ps', (_, doc) :: docs' =>
      {| param_name := param_name p; param_type := param_type p;
         param_isNullable := param_isNullable p; param_documentation := doc |}
      :: documentedInOrder ps' docs'
  | _, _ => ps
  end.

Lemma documentParameter_behind (paramName doc : string) (front back : list ObjCParameter) :
  ~ In paramName (map param_name front) ->
  documentParameter paramName doc (front ++ back)
  = front ++ documentParameter paramName doc back.
Proof.
  induction front as [|p front IH]; intros Hfresh; [reflexivity |].
  cbn [app documentParameter map In] in *.
  destruct (String.eqb (param_name p) paramName) eqn:E.
  - apply String.eqb_eq in E. exfalso. apply Hfresh. left. exact E.
  - f_equal. apply IH. intros H. apply Hfresh. right. exact H.
Qed.

Lemma assignDocumentation_behind :
  forall (back front : list ObjCParameter) (docs : list (string * string)),
    NoDup (map param_name (front ++ back)) ->
    assignDocumentation (map param_name back) docs (front ++ back)
    = front ++ documentedInOrder back docs.
Proof.
  induction back as [|p back IH]; intros front docs Hnodup.
  - destruct docs; reflexivity.
  - destruct docs as [|[key doc] docs]; [reflexivity |].
    cbn [map assignDocumentation documentedInOrder].
    rewrite documentParameter_behind.
    + cbn [documentParameter]. rewrite String.eqb_refl.
      set (p' := {| param_name := param_name p; param_type := param_type p;
                    param_isNullable := param_isNullable p;
                    param_documentation := doc |}).
      change (front ++ p' :: back) with (front ++ [p'] ++ back).
      rewrite app_assoc. rewrite IH.
      * rewrite <- app_assoc. reflexivity.
      * rewrite <- app_assoc. cbn [app].
        rewrite map_app in *. cbn [map] in *. exact Hnodup.
    + rewrite map_app in Hnodup. cbn [map] in Hnodup.
      apply NoDup_remove_2 in Hnodup. intros H. apply Hnodup.
      apply in_or_app. left. exact H.
Qed.

(** X21: The documentation of the parameters is assigned by position: with
    distinct parameter names, the first documented tag goes to the first
    parameter, the second to the second, and so on, whatever names the tags
    carry; parameters beyond the tags keep their documentation, tags beyond
    the parameters are dropped. *)
Theorem documentation_goes_by_position (ps : list ObjCParameter)
  (docs : list (string * string)) :
  NoDup (map param_name ps) ->
  assignDocumentation (map param_name ps) docs ps = documentedInOrder ps docs.
Proof. intros H. exact (assignDocumentation_behind ps [] docs H). Qed.

Lemma documentation_goes_by_position_witness :
  assignDocumentation ["title"; "image"]
    [("image", "The title."); ("title", "The image.")]
    [ArgumentOrder.parameterOf "NSString" "title"; ArgumentOrder.parameterOf "NSImage" "image"]
  = [{| param_name := "title"; param_type := "NSString"; param_isNullable := false;
        param_documentation := "The title." |};
     {| param_name := "image"; param_type := "NSImage"; param_isNullable := false;
        param_documentation := "The image." |}].
Proof.
  apply (documentation_goes_by_position
           [ArgumentOrder.parameterOf "NSString" "title";
            ArgumentOrder.parameterOf "NSImage" "image"]).
  cbn. constructor; [intros [H | []]; discriminate H |].
  constructor; [intros [] | constructor].
Defined.

End ParameterDocumentation.

(* ================================================================== *)
(** * The names a parsed signature gives *)
(* ================================================================== *)

Module SignatureNames.
Import StringFacts Regex RegexFacts CaptureFacts.

Lemma allFrom_In (ml : bool) (r : regex) :
  forall fuel c m,
    In m (allFrom ml r fuel c) ->
    run ml r (start m) [] (fun c' cs' => Some (c', cs')) = Some (stop m, groups m).
Proof.
  induction fuel as [|fuel IH]; intros c m Hin; [destruct Hin |].
  cbn [allFrom] in Hin.
  destruct (searchFrom ml r (before c) (after c)) as [m0|] eqn:Hsearch; [| destruct Hin].
  apply searchFrom_run in Hsearch. destruct Hsearch as (Hrun & _).
  destruct (Nat.ltb (position (Regex.start m0)) (position (stop m0))).
  - destruct Hin as [<- | Hin]; [exact Hrun | exact (IH _ _ Hin)].
  - destruct (after (stop m0)).
    + destruct Hin as [<- | []]. exact Hrun.
    + destruct Hin as [<- | Hin]; [exact Hrun | exact (IH _ _ Hin)].
Qed.

(** The parameter pattern captures a non-empty parameter name. *)
Lemma parameter_name_nonempty (s : string) (m : found) :
  In m (matchAll false Patterns.paramRe s) -> group 3 m <> "".
Proof.
  intros H. apply allFrom_In in H.
  unfold Patterns.paramRe, seqs in H. cbn [fold_right] in H.
  do 7 (apply run_seq_rest in H; destruct H as (? & ? & H & _)).
  apply group_holds_text in H; [| reflexivity | intros []].
  destruct H as (text & Hcapture & Hne).
  rewrite (ParsedNames.group_of_capture _ _ _ Hcapture). exact Hne.
Qed.

Lemma word_is_no_space (a : ascii) : isWordChar a = true -> isWhiteSpace a = false.
Proof. destruct a as [[] [] [] [] [] [] [] []]; intros H; first [reflexivity | discriminate H]. Qed.

Lemma trimStartL_last (l : chars) (a : ascii) :
  isWhiteSpace a = false -> trimStartL (l ++ [a]) <> [].
Proof.
  intros Ha. induction l as [|b l IH]; cbn [app trimStartL].
  - rewrite Ha. discriminate.
  - destruct (isWhiteSpace b); [exact IH | discriminate].
Qed.

(** Trimming a text that starts with a word character leaves
    something. *)
Lemma trim_word_nonempty (a : ascii) (text : string) :
  isWordChar a = true -> trim (String a text) <> "".
Proof.
  intros Hword. apply word_is_no_space in Hword.
  unfold trim, trimL, s2l, l2s. cbn [list_ascii_of_string trimStartL].
  rewrite Hword. cbn [rev].
  pose proof (trimStartL_last (rev (list_ascii_of_string text)) a Hword) as Hne.
  destruct (trimStartL (rev (list_ascii_of_string text) ++ [a])) as [|b l] eqn:E;
    [contradiction |].
  cbn [rev]. destruct (rev l) as [|b' l']; cbn; discriminate.
Qed.

(** A group that opens with a character class holds a text that starts
    with a character of the class. *)
Lemma group_first_char (ml : bool) (i : nat) (p : ascii -> bool) (r1 r2 rest : regex)
  (c : cursor) (cs : captures) (res : cursor * captures) :
  ~ In i (groupsOf rest) ->
  run ml (Seq (Grp i (Seq (Seq (Cls p) r1) r2)) rest) c cs (fun c' cs' => Some (c', cs'))
  = Some res ->
  exists a text, capture i (snd res) = Some (String a text) /\ p a = true.
Proof.
  intros Hrest H. cbn [run] in H.
  destruct (after c) as [|a tail] eqn:Hafter; [discriminate |].
  destruct (p a) eqn:Hp; [| discriminate].
  apply run_passes in H. destruct H as (c1 & cs1 & H & Hle1 & _ & Hsubject1 & _).
  apply run_passes in H. destruct H as (c2 & cs2 & H & Hle2 & _ & Hsubject2 & _).
  apply run_passes in H. destruct H as (c3 & cs3 & H & _ & _ & _ & Hkeep).
  injection H as <-. cbn [snd]. rewrite (Hkeep i Hrest).
  cbn [capture]. rewrite Nat.eqb_refl. unfold between. rewrite Hafter.
  unfold position in *. cbn [before List.length] in Hle1.
  destruct (List.length (before c2) - List.length (before c)) as [|n] eqn:Hn; [lia |].
  cbn [firstn l2s string_of_list_ascii]. eexists _, _. split; [reflexivity | exact Hp].
Qed.

(** X22: A declaration that parses gives a signature with a non-empty
    selector and parameters that all have a name and no documentation
    yet. *)
Theorem parsed_signature_names_its_parts (signature : string)
  (parsed : ObjCMethodSignature) :
  parseMethodSignature signature = Ok parsed ->
  sig_name parsed <> ""
  /\ Forall (fun param => param_name param <> "" /\ param_documentation param = "")
            (sig_parameters parsed).
Proof.
  unfold parseMethodSignature. cbn zeta.
  destruct (exec false Patterns.returnTypeRe _) as [returnTypeMatch|]; [| discriminate].
  destruct (exec false Patterns.methodNameRe _) as [methodNameMatch|] eqn:Hname;
    [| discriminate].
  intros H. injection H as <-. cbn [sig_name sig_parameters]. split.
  - unfold fullMethodName.
    destruct (map matched (matchAll false Patterns.componentRe _)) as [|first others].
    + apply ParsedNames.exec_run in Hname. destruct Hname as (Hname & _).
      unfold Patterns.methodNameRe, seqs in Hname. cbn [fold_right] in Hname.
      do 6 (apply run_seq_rest in Hname; destruct Hname as (? & ? & Hname & _)).
      unfold plus at 1 in Hname. unfold word in Hname.
      apply group_first_char in Hname; [| intros []].
      destruct Hname as (a & text & Hcapture & Hword).
      rewrite (ParsedNames.group_of_capture _ _ _ Hcapture).
      exact (trim_word_nonempty a text Hword).
    + destruct (trim (group 1 methodNameMatch)); discriminate.
  - apply Forall_forall. intros param Hin. apply in_map_iff in Hin.
    destruct Hin as (m & <- & Hm). cbn [parameterOfMatch param_name param_documentation].
    split; [exact (parameter_name_nonempty _ _ Hm) | reflexivity].
Qed.

Lemma parsed_signature_names_its_parts_witness :
  sig_name {| sig_isClassMethod := false; sig_returnType := "void"; sig_name := "foo:";
              sig_parameters := [ArgumentOrder.parameterOf "NSObject" "bar"];
              sig_availability := "" |}
  <> "".
Proof.
  refine (proj1 (parsed_signature_names_its_parts "- (void)foo:(NSObject *)bar;" _ _)).
  vm_compute. reflexivity.
Defined.

End SignatureNames.

(* ================================================================== *)
(** * The interface emission *)
(* ================================================================== *)

Module InterfaceFacts.
Import StringFacts TextFacts.

Lemma null_suffix_is_included (s : string) : includes (s ++ " | null") "| null" = true.
Proof.
  unfold includes. rewrite s2l_app.
  change (s2l " | null") with ([" "%char] ++ s2l "| null"). rewrite app_assoc.
  pose proof (indexOfL_suffix (s2l "| null") (s2l s ++ [" "%char]) (s2l "| null") eq_refl)
    as H.
  destruct (indexOfL _ _); [reflexivity | contradiction].
Qed.

(** X23: The guard against a second null suffix never adds one: the type of
    a nullable property has got the suffix from the converter already,
    whatever the type is. *)
Theorem null_suffix_is_added_by_the_converter (inheritedText : string -> string)
  (property : ObjCProperty) :
  Interface.nullableSuffix inheritedText property = ""
  /\ (isNullable property = true ->
      exists base,
        Interface.typeText inheritedText
          (convertTypeToTypeScript (prop_type property) (isNullable property))
        = (base ++ " | null")%string).
Proof.
  unfold Interface.nullableSuffix.
  assert (Hsuffix : isNullable property = true ->
            exists base,
              Interface.typeText inheritedText
                (convertTypeToTypeScript (prop_type property) (isNullable property))
              = (base ++ " | null")%string).
  { intros ->. unfold convertTypeToTypeScript.
    destruct (Obj.get (prop_type property) interfaceTypeMap);
      cbn [Interface.typeText]; eexists; reflexivity. }
  split; [| exact Hsuffix].
  destruct (isNullable property) eqn:Hnullable; [| reflexivity].
  destruct (Hsuffix eq_refl) as (base & ->).
  rewrite null_suffix_is_included. reflexivity.
Qed.

Lemma null_suffix_is_added_by_the_converter_witness :
  exists base,
    Interface.typeText (fun key => key)
      (convertTypeToTypeScript "NSImage" true)
    = (base ++ " | null")%string.
Proof.
  exact (proj2 (null_suffix_is_added_by_the_converter (fun key => key)
                  {| prop_name := "image"; prop_type := "NSImage"; isReadOnly := false;
                     isNullable := true; prop_documentation := ""; attributes := [] |})
               eq_refl).
Defined.

(** The interface written for a small class. *)
Example interface_of_a_small_class :
  Interface.convertClassToTypeScript (fun key => key)
    {| class_name := "NSButton"; superclass := "NSControl"; protocols := [];
       properties := [{| prop_name := "image"; prop_type := "NSImage"; isReadOnly := true;
                         isNullable := true; prop_documentation := "";
                         attributes := [] |}];
       methods := [{| isClassMethod := true; returnType := "instancetype";
                      name := "buttonWithTitle:target:";
                      parameters := [{| param_name := "title"; param_type := "NSString";
                                        param_isNullable := false;
                                        param_documentation := "" |};
                                     {| param_name := "target"; param_type := "id";
                                        param_isNullable := true;
                                        param_documentation := "" |}];
                      documentation := ""; returnDocumentation := "";
                      availability := "" |}];
       class_documentation := "A button."; class_availability := "" |}
  = String.concat Interface.nl
      ["/**";
       " * A button.";
       " *";
       " */";
       "interface NSButton {";
       "  readonly image: any | null;";
       "";
       "}";
       "";
       "/**";
       " * Static methods for NSButton";
       " */";
       "namespace NSButton {";
       "  static buttonWithTitleTarget(title: string, target?: any | null): any;";
       "";
       "}";
       ""].
Proof. by_evaluation. Qed.

End InterfaceFacts.

(* ================================================================== *)
(** * The command line *)
(* ================================================================== *)

Module CliFacts.
Import Cli.

(** X24: A single argument other than [--help] is taken as the path of the
    header, also when it is the name of an option. *)
Theorem lone_argument_is_a_path (a : string) :
  readArguments [a]
  = if String.eqb a "--help" then ShowHelp
    else Proceed {| parseMode := "class"; inputPath := a; inputContent := "" |}.
Proof.
  unfold readArguments, isArgument. cbn [nth_error List.length Nat.ltb Nat.leb].
  rewrite !andb_false_r. cbn [argument nth]. reflexivity.
Qed.

Lemma nonEmpty_neq (s : string) : nonEmpty s = true -> s <> "".
Proof. apply Imports.nonEmpty_true_iff. Qed.

(** The text given on the command line is parsed when it is not empty;
    otherwise a file is read, whose path is never empty: the path given,
    or the default header. *)
Lemma input_is_a_text_or_a_named_file (options : Options) :
  match inputSource options with
  | GivenText text => text = inputContent options /\ text <> ""
  | FromFile path =>
      inputContent options = ""
      /\ path <> ""
      /\ path = (if String.eqb (inputPath options) "" then defaultHeader
                 else inputPath options)
  end.
Proof.
  unfold inputSource, nonEmpty.
  destruct (String.eqb (inputContent options) "") eqn:Hcontent; cbn [negb andb].
  - apply String.eqb_eq in Hcontent.
    destruct (String.eqb (inputPath options) "") eqn:Hpath; cbn [negb].
    + cbn. conjuncts; [exact Hcontent | discriminate | reflexivity].
    + rewrite Hpath. cbn [negb]. apply String.eqb_neq in Hpath.
      conjuncts; [exact Hcontent | exact Hpath | reflexivity].
  - apply String.eqb_neq in Hcontent. split; [reflexivity | exact Hcontent].
Qed.

Lemma option_with_value (l : list string) (option : string) :
  isArgument l 0 option && Nat.ltb 1 (List.length l) = true ->
  exists value rest, l = option :: value :: rest.
Proof.
  intros H. apply andb_true_iff in H. destruct H as [Hoption Hlength].
  destruct l as [|a [|b rest]]; [discriminate | discriminate |].
  unfold isArgument in Hoption. cbn [nth_error] in Hoption.
  apply String.eqb_eq in Hoption. subst a. exists b, rest. reflexivity.
Qed.

(** X25: A text is parsed as given only when it is not empty and follows
    [--string], at the start of the command line or after [--mode] and its
    value; every other command line that does not ask for help makes the
    script read a file, whose path is never empty.  An empty text after
    [--string] is replaced by the default header. *)
Theorem text_is_parsed_only_after_string (args : list string) (options : Options) :
  readArguments args = Proceed options ->
  match inputSource options with
  | GivenText text =>
      text <> ""
      /\ exists front rest,
           args = front ++ "--string" :: text :: rest
           /\ (front = [] \/ exists mode, front = ["--mode"; mode])
  | FromFile path =>
      path <> "" /\ (inputPath options = "" -> path = defaultHeader)
  end.
Proof.
  intros Hread. pose proof (input_is_a_text_or_a_named_file options) as Hsource.
  destruct (inputSource options) as [path | text].
  - destruct Hsource as (_ & Hpath & Hdefault). split; [exact Hpath |].
    intros Hempty. rewrite Hempty in Hdefault. exact Hdefault.
  - destruct Hsource as (-> & Hcontent). split; [exact Hcontent |].
    unfold readArguments in Hread.
    destruct args as [|a args]; [injection Hread as <-; contradiction Hcontent; reflexivity |].
    set (all := a :: args) in *. cbn zeta in Hread.
    destruct (isArgument all 0 "--mode" && Nat.ltb 1 (List.length all)) eqn:Hmode.
    + apply option_with_value in Hmode. destruct Hmode as (mode & rest & Hall).
      rewrite Hall in *. cbn [skipn] in Hread.
      destruct (isArgument rest 0 "--file" && Nat.ltb 1 (List.length rest));
        [injection Hread as <-; contradiction Hcontent; reflexivity |].
      destruct (isArgument rest 0 "--string" && Nat.ltb 1 (List.length rest)) eqn:Hstring.
      * apply option_with_value in Hstring. destruct Hstring as (text & rest' & ->).
        injection Hread as <-. cbn [inputContent argument nth].
        exists ["--mode"; mode], rest'. split; [reflexivity |].
        right. exists mode. reflexivity.
      * destruct (isArgument rest 0 "--help"); [discriminate |].
        injection Hread as <-. contradiction Hcontent. reflexivity.
    + destruct (isArgument all 0 "--file" && Nat.ltb 1 (List.length all));
        [injection Hread as <-; contradiction Hcontent; reflexivity |].
      destruct (isArgument all 0 "--string" && Nat.ltb 1 (List.length all)) eqn:Hstring.
      * apply option_with_value in Hstring. destruct Hstring as (text & rest' & Hall).
        rewrite Hall in *. injection Hread as <-. cbn [inputContent argument nth].
        exists [], rest'. split; [reflexivity | left; reflexivity].
      * destruct (isArgument all 0 "--help"); [discriminate |].
        injection Hread as <-. contradiction Hcontent. reflexivity.
Qed.

Lemma text_is_parsed_only_after_string_witness :
  "/Applications/Xcode-16.2.0.app/Contents/Developer/Platforms/MacOSX.platform/Developer/SDKs/MacOSX.sdk/System/Library/Frameworks/AppKit.framework/Versions/C/Headers/NSButton.h"
  <> "".
Proof.
  exact (proj1 (text_is_parsed_only_after_string ["--mode"; "method"; "--string"; ""]
                  {| parseMode := "method"; inputPath := ""; inputContent := "" |}
                  eq_refl)).
Defined.

End CliFacts.

(* ================================================================== *)
(** * Lines that follow a tag *)
(* ================================================================== *)

Module TagLines.
Import StringFacts TextFacts.

Lemma return_is_no_param (line : string) :
  startsWith line "@return" = true -> startsWith line "@param" = false.
Proof.
  unfold startsWith. intros H. apply isPrefixL_split in H. destruct H as (rest & ->).
  reflexivity.
Qed.

(** What a line that opens with [@return] does: it closes the open
    parameter and is the return description, without its tag. *)
Lemma return_line (st : DocState) (line : string) :
  startsWith line "@return" = true ->
  currentParam (docLine st line) = ""
  /\ st_returnDoc (docLine st line) = trim (replaceStr line "@return" "")
  /\ st_mainDocLines (docLine st line) = st_mainDocLines st.
Proof.
  intros H. unfold docLine. rewrite (return_is_no_param _ H), H.
  cbn [currentParam st_returnDoc st_mainDocLines]. unfold nonEmpty.
  destruct (String.eqb (currentParam st) "") eqn:E; cbn [negb].
  - apply String.eqb_eq in E. conjuncts; [exact E | reflexivity | reflexivity].
  - conjuncts; reflexivity.
Qed.

(** A line without [@] under an open parameter continues the
    description of the parameter. *)
Lemma plain_line_continues_parameter (st : DocState) (line : string) :
  currentParam st <> "" -> includes line "@" = false ->
  docLine st line
  = {| st_paramDocs := st_paramDocs st; st_returnDoc := st_returnDoc st;
       st_mainDocLines := st_mainDocLines st;
       currentParam := currentParam st;
       currentParamDoc := (currentParamDoc st ++ " " ++ line)%string |}.
Proof.
  intros Hparam Hline. unfold docLine.
  rewrite (PlainDocumentation.no_at_no_start line "@param" Hline) by (left; reflexivity).
  rewrite (PlainDocumentation.no_at_no_start line "@return" Hline) by (left; reflexivity).
  apply Imports.nonEmpty_true_iff in Hparam. rewrite Hparam. reflexivity.
Qed.

(** X26: A return description is one line: the lines without [@] that follow
    a line opening with [@return] are not added to the return description
    but to the main description, whatever came before; the lines that
    follow an open parameter are added to the parameter's description, not
    to the main one. *)
Theorem lines_after_return_go_to_the_description (front plain : list string)
  (tagLine : string) :
  startsWith tagLine "@return" = true ->
  (forall line, In line plain -> includes line "@" = false) ->
  let before := fold_left docLine front initialDocState in
  returnDoc (blockDocumentation (front ++ tagLine :: plain))
  = trim (replaceStr tagLine "@return" "")
  /\ mainDoc (blockDocumentation (front ++ tagLine :: plain))
     = trim (join " " (st_mainDocLines before ++ plain))
  /\ forall (st : DocState) (line : string),
       currentParam st <> "" -> includes line "@" = false ->
       st_mainDocLines (docLine st line) = st_mainDocLines st
       /\ currentParamDoc (docLine st line)
          = (currentParamDoc st ++ " " ++ line)%string.
Proof.
  intros Htag Hplain before.
  assert (Hfold : fold_left docLine (front ++ tagLine :: plain) initialDocState
                  = fold_left docLine plain (docLine before tagLine)).
  { rewrite fold_left_app. reflexivity. }
  destruct (return_line before tagLine Htag) as (Hparam & Hreturn & Hmain).
  unfold blockDocumentation. rewrite Hfold.
  rewrite (PlainDocumentation.plain_lines_are_collected plain _ Hparam Hplain).
  cbn [returnDoc mainDoc st_returnDoc st_mainDocLines].
  rewrite Hreturn, Hmain. conjuncts; [reflexivity | reflexivity |].
  intros st line Hopen Hline.
  rewrite (plain_line_continues_parameter st line Hopen Hline). split; reflexivity.
Qed.

Lemma lines_after_return_go_to_the_description_witness :
  returnDoc (blockDocumentation ["Adds."; "@return the sum"; "of both numbers"])
  = "the sum"
  /\ mainDoc (blockDocumentation ["Adds."; "@return the sum"; "of both numbers"])
     = "Adds. of both numbers".
Proof.
  destruct (lines_after_return_go_to_the_description ["Adds."] ["of both numbers"]
              "@return the sum" eq_refl) as (Hreturn & Hmain & _).
  - intros line [<- | []]. vm_compute. reflexivity.
  - split; [exact Hreturn | exact Hmain].
Defined.

End TagLines.

(* ================================================================== *)
(** * Where the members of an overload group stand *)
(* ================================================================== *)

Module OverloadBlock.




End OverloadBlock.

(* ================================================================== *)
(** * The TypeScript name of a selector *)
(* ================================================================== *)

Module CamelNames.
Import Regex RegexFacts StringFacts.

Definition wordStep : cursor -> captures -> cont -> option (cursor * captures) :=
  fun c cs k => run false (Cls isWordChar) c cs k.

Lemma orElse_none {A} (x : option A) : orElse x None = x.
Proof. destruct x; reflexivity. Qed.

Lemma word_is_no_colon (a : ascii) : isWordChar a = true -> Ascii.eqb ":" a = false.
Proof. destruct a as [[] [] [] [] [] [] [] []]; intros H; first [reflexivity | discriminate H]. Qed.

(** A greedy run of word characters that must be followed by something
    which does not start with a word character reads the whole word. *)
Lemma star_reads_the_word (rest : chars) (k : cont) :
  (forall bef b r cs,
      isWordChar b = true -> k {| before := bef; after := b :: r |} cs = None) ->
  forall (w : chars), forallb isWordChar w = true ->
  forall fuel bef cs,
    List.length w < fuel ->
    starLoop true wordStep k fuel {| before := bef; after := w ++ ":"%char :: rest |} cs
    = k {| before := rev w ++ bef; after := ":"%char :: rest |} cs.
Proof.
  intros Hk. induction w as [|a w IH]; intros Hword fuel bef cs Hfuel;
    (destruct fuel as [|fuel]; [cbn [List.length] in Hfuel; lia |]).
  - cbn [starLoop app rev wordStep run after]. reflexivity.
  - cbn [forallb] in Hword. apply andb_true_iff in Hword. destruct Hword as [Ha Hw].
    cbn [starLoop app wordStep run after before]. rewrite Ha.
    cbn [after List.length].
    replace (Nat.ltb (List.length (w ++ ":"%char :: rest))
                     (S (List.length (w ++ ":"%char :: rest)))) with true
      by (symmetry; apply Nat.ltb_lt; lia).
    fold wordStep. rewrite IH; [| exact Hw | cbn [List.length] in Hfuel; lia].
    rewrite (Hk bef a (w ++ ":"%char :: rest) cs Ha), orElse_none.
    cbn [rev]. rewrite <- app_assoc. reflexivity.
Qed.

(** The component pattern at the start of a word followed by a colon:
    it matches the word and the colon. *)
Lemma component_at_a_word (a : ascii) (w rest bef : chars) :
  forallb isWordChar (a :: w) = true ->
  run false Patterns.componentRe
      {| before := bef; after := (a :: w) ++ ":"%char :: rest |} []
      (fun c' cs' => Some (c', cs'))
  = Some ({| before := ":"%char :: rev (a :: w) ++ bef; after := rest |},
          [(1, l2s (a :: w))]).
Proof.
  intros Hword. cbn [forallb] in Hword. apply andb_true_iff in Hword.
  destruct Hword as [Ha Hw].
  unfold Patterns.componentRe, seqs, plus, word, star, chr.
  cbn [fold_right run app after before]. rewrite Ha.
  fold wordStep.
  rewrite (star_reads_the_word rest); [| | exact Hw | cbn [after List.length]; rewrite length_app; lia].
  - cbn [after before]. rewrite Ascii.eqb_refl.
    unfold between, position. cbn [before after].
    rewrite length_app, length_rev. cbn [List.length].
    replace (List.length w + S (List.length bef) - List.length bef)
      with (S (List.length w)) by lia.
    cbn [firstn]. rewrite firstn_app, Nat.sub_diag, firstn_all. cbn [firstn].
    rewrite app_nil_r. cbn [rev]. rewrite <- app_assoc. reflexivity.
  - intros bef0 b r cs Hb. cbn [after]. rewrite (word_is_no_colon b Hb). reflexivity.
Qed.

(** The text of a selector made of components. *)
Fixpoint selectorChars (ws : list chars) : chars :=
  match ws with
  | [] => []
  | w :: ws' => w ++ ":"%char :: selectorChars ws'
  end.

Definition isWord (w : chars) : Prop := w <> [] /\ forallb isWordChar w = true.

Lemma length_selectorChars_cons (w : chars) (ws : list chars) :
  List.length (selectorChars (w :: ws))
  = List.length w + S (List.length (selectorChars ws)).
Proof. cbn [selectorChars]. rewrite length_app. reflexivity. Qed.

Lemma components_of_a_selector :
  forall (ws : list chars), Forall isWord ws ->
  forall bef fuel,
    List.length (selectorChars ws) < fuel ->
    map matched (allFrom false Patterns.componentRe fuel
                   {| before := bef; after := selectorChars ws |})
    = map (fun w => l2s (w ++ [":"%char])) ws.
Proof.
  induction ws as [|w ws IH]; intros Hwords bef fuel Hfuel;
    (destruct fuel as [|fuel]; [lia |]).
  - reflexivity.
  - inversion Hwords as [|w0 ws0 [Hne Hword] Hrest]; subst.
    destruct w as [|a w]; [contradiction Hne; reflexivity |].
    rewrite length_selectorChars_cons in Hfuel.
    cbn [allFrom selectorChars before after].
    change ((a :: w) ++ ":"%char :: selectorChars ws)
      with (a :: (w ++ ":"%char :: selectorChars ws)).
    cbn [searchFrom].
    change (a :: (w ++ ":"%char :: selectorChars ws))
      with ((a :: w) ++ ":"%char :: selectorChars ws).
    rewrite (component_at_a_word a w (selectorChars ws) bef Hword).
    cbn [start stop]. unfold position at 1 2. cbn [before].
    replace (Nat.ltb (List.length bef)
               (List.length (":"%char :: rev (a :: w) ++ bef))) with true
      by (symmetry; apply Nat.ltb_lt; cbn [List.length]; rewrite length_app; lia).
    cbn [map]. rewrite IH; [| exact Hrest | cbn [List.length] in Hfuel; lia].
    f_equal. unfold matched, between, position. cbn [start stop before after].
    cbn [List.length]. rewrite length_app, length_rev. cbn [List.length].
    replace (S (S (List.length w) + List.length bef) - List.length bef)
      with (List.length (a :: w) + 1) by (cbn [List.length]; lia).
    rewrite firstn_app, firstn_all2 by lia.
    replace (List.length (a :: w) + 1 - List.length (a :: w)) with 1 by lia.
    reflexivity.
Qed.

(** The texts one after the other. *)
Fixpoint joinAll (l : list string) : string :=
  match l with
  | [] => ""
  | x :: xs => (x ++ joinAll xs)%string
  end.

(** The selector with the given components: each followed by its
    colon. *)
Definition selectorOf (components : list string) : string :=
  joinAll (map (fun w => (w ++ ":")%string) components).

(** [w.charAt(0).toUpperCase() + w.slice(1)] *)
Definition capitalizedName (w : string) : string :=
  (toUpperCase (charAt w 0) ++ sliceFrom w 1)%string.

Definition isWordText (w : string) : Prop := w <> "" /\ Reflow.isPlainName w = true.

Lemma s2l_selectorOf (components : list string) :
  s2l (selectorOf components) = selectorChars (map s2l components).
Proof.
  unfold selectorOf. induction components as [|w components IH]; [reflexivity |].
  cbn [map joinAll selectorChars]. rewrite !s2l_app, IH, <- app_assoc. reflexivity.
Qed.

Lemma isWord_s2l (w : string) : isWordText w -> isWord (s2l w).
Proof.
  intros [Hne Hword]. split; [| exact Hword].
  intros H. apply Hne. rewrite <- (l2s_s2l w), H. reflexivity.
Qed.

Lemma splitCharL_word (w rest : chars) :
  forallb isWordChar w = true ->
  splitCharL ":" (w ++ ":"%char :: rest) = w :: splitCharL ":" rest.
Proof.
  induction w as [|a w IH]; intros Hword.
  - cbn [app splitCharL]. rewrite Ascii.eqb_refl. reflexivity.
  - cbn [forallb] in Hword. apply andb_true_iff in Hword. destruct Hword as [Ha Hw].
    cbn [app splitCharL]. rewrite Ascii.eqb_sym, (word_is_no_colon a Ha), (IH Hw).
    reflexivity.
Qed.

Lemma indexOfL_colon (w : chars) :
  forallb isWordChar w = true -> indexOfL [":"%char] (w ++ [":"%char]) = Some (List.length w).
Proof.
  induction w as [|a w IH]; intros Hword.
  - cbn. reflexivity.
  - cbn [forallb] in Hword. apply andb_true_iff in Hword. destruct Hword as [Ha Hw].
    cbn [app indexOfL isPrefixL]. rewrite (word_is_no_colon a Ha). cbn [andb].
    rewrite (IH Hw). reflexivity.
Qed.

Lemma capitalized_component (w : string) :
  isWordText w -> Interface.capitalized (l2s (s2l w ++ [":"%char])) = capitalizedName w.
Proof.
  intros [Hne Hword]. unfold Interface.capitalized.
  assert (Hcomponent : replaceStr (l2s (s2l w ++ [":"%char])) ":" "" = w).
  { unfold replaceStr. rewrite s2l_l2s. cbn [s2l list_ascii_of_string].
    rewrite (indexOfL_colon _ Hword).
    cbn [expandReplacement List.length app].
    rewrite firstn_app, Nat.sub_diag, firstn_all. cbn [firstn].
    rewrite skipn_all2 by (rewrite length_app; cbn [List.length]; lia).
    rewrite !app_nil_r. apply l2s_s2l. }
  rewrite Hcomponent. destruct w as [|a w]; [contradiction Hne; reflexivity |].
  reflexivity.
Qed.

Lemma fold_append (f : string -> string) :
  forall (l : list string) (base : string),
    fold_left (fun acc x => (acc ++ f x)%string) l base
    = (base ++ joinAll (map f l))%string.
Proof.
  induction l as [|x l IH]; intros base; cbn [fold_left map joinAll].
  - rewrite append_nil_r. reflexivity.
  - rewrite IH, append_assoc. reflexivity.
Qed.

(** X28: The TypeScript name of a selector whose components are non-empty
    words: the first component, followed by the other components with their
    first letter in upper case; the colons are gone. *)
Theorem selector_becomes_a_camel_case_name (first : string) (others : list string) :
  Forall isWordText (first :: others) ->
  Interface.methodNameOf (selectorOf (first :: others))
  = (first ++ joinAll (map capitalizedName others))%string.
Proof.
  intros Hwords. inversion Hwords as [|w ws Hfirst Hothers]; subst.
  unfold Interface.methodNameOf.
  assert (Hcolon : includes (selectorOf (first :: others)) ":" = true).
  { apply TextFacts.includes_char. rewrite s2l_selectorOf. cbn [map selectorChars].
    apply in_or_app. right. left. reflexivity. }
  rewrite Hcolon.
  assert (Hcomponents :
            map matched (matchAll false Patterns.componentRe (selectorOf (first :: others)))
            = map (fun w => l2s (w ++ [":"%char])) (map s2l (first :: others))).
  { unfold matchAll, cursorAt. cbn [firstn skipn rev].
    rewrite s2l_selectorOf. apply components_of_a_selector; [| lia].
    apply Forall_forall. intros w Hw. apply in_map_iff in Hw.
    destruct Hw as (w0 & <- & Hw0). apply isWord_s2l.
    rewrite Forall_forall in Hwords. exact (Hwords w0 Hw0). }
  rewrite Hcomponents. cbn [map skipn].
  assert (Hbase : Main.baseName (selectorOf (first :: others)) = first).
  { unfold Main.baseName, splitChar. rewrite s2l_selectorOf. cbn [map selectorChars].
    rewrite (splitCharL_word _ _ (proj2 Hfirst)). cbn [map hd]. apply l2s_s2l. }
  rewrite Hbase, fold_append. f_equal. f_equal.
  rewrite !map_map. apply map_ext_in. intros w Hw.
  apply capitalized_component. rewrite Forall_forall in Hothers. exact (Hothers w Hw).
Qed.

Lemma selector_becomes_a_camel_case_name_witness :
  Interface.methodNameOf "buttonWithTitle:image:target:action:"
  = "buttonWithTitleImageTargetAction".
Proof.
  apply (selector_becomes_a_camel_case_name "buttonWithTitle" ["image"; "target"; "action"]).
  repeat (apply Forall_cons; [split; [discriminate | vm_compute; reflexivity] |]).
  apply Forall_nil.
Defined.

End CamelNames.
